(** * CPU scheduling simulator (main.go): a shallow embedding

    The Go program reads a CSV file of process descriptors and prints, for
    each of four scheduling disciplines, a Gantt chart and a table of
    timings.  The embedding follows the source function by function:

    - [int64] values are integers of [Z] with the wrap-around of Go's
      arithmetic written out ([add64], [sub64]); [int] is taken to be 64
      bits wide, as on every platform the runtime's size classes below
      refer to;
    - [float64] values are the kernel's binary64 floats ([PrimFloat]), the
      conversion [float64(int64)] rounds to nearest-even;
    - a slice is the list of its elements; where the source lets two slice
      headers share (or stop sharing) a backing array, the state records it;
    - an index out of range panics, [os.Exit] ends the run: both are
      outcomes of the [Outcome] monad, next to a normal return;
    - the three output helpers only render their arguments, so the
      embedding of a scheduler ends where the Go function makes its three
      output calls and returns exactly what it hands to them, together
      with the final contents of the caller's slice: [Returned run] says
      that the call gets that far, not that the Go call returns, which it
      does only if the helpers do;
    - [outputTitle] and [outputGantt] are functions to the text they write,
      which ends early when [strings.Repeat] panics; what a scheduler hands
      to [outputGantt] can be passed on to it. *)

From Stdlib Require Import ZArith Lia Bool String Ascii PrimFloat Uint63.
From stdpp Require Import base tactics option list.

Open Scope Z_scope.

(** ** Machine integers *)

Definition min_int64 : Z := - 2 ^ 63.
Definition max_int64 : Z := 2 ^ 63 - 1.

Definition in_int64 (z : Z) : Prop := min_int64 <= z <= max_int64.

(** Two's complement wrap-around of a mathematical result into int64. *)
Definition wrap64 (z : Z) : Z := (z + 2 ^ 63) mod 2 ^ 64 - 2 ^ 63.

Definition add64 (a b : Z) : Z := wrap64 (a + b).
Definition sub64 (a b : Z) : Z := wrap64 (a - b).

(** ** float64 *)

Definition float64_of_nonneg (z : Z) : float := PrimFloat.of_uint63 (Uint63.of_Z z).

(** [float64(v)] for an int64 [v]: the nearest binary64 value.  The
    primitive conversion takes 63-bit naturals, so the sign is handled
    apart, and [- 2 ^ 63] (whose absolute value is not a 63-bit natural,
    but is a power of two) is built exactly. *)
Definition float64_of_int64 (z : Z) : float :=
  if z <? 0 then
    if z =? min_int64
    then PrimFloat.opp (PrimFloat.mul PrimFloat.two (float64_of_nonneg (2 ^ 62)))
    else PrimFloat.opp (float64_of_nonneg (- z))
  else float64_of_nonneg z.

(** [float64(len(s))]. *)
Definition float64_of_len {A} (l : list A) : float :=
  float64_of_int64 (Z.of_nat (length l)).

(** ** Outcomes of a run *)

Inductive PanicKind : Type :=
| IndexOutOfRange
| SliceBoundsOutOfRange.

Inductive Outcome (A : Type) : Type :=
| Returned (a : A)
| Panicked (why : PanicKind)
| Exited (code : Z).
Arguments Returned {A} a.
Arguments Panicked {A} why.
Arguments Exited {A} code.

#[global] Instance Outcome_ret : MRet Outcome := fun A a => Returned a.
#[global] Instance Outcome_bind : MBind Outcome := fun A B f m =>
  match m with
  | Returned a => f a
  | Panicked why => Panicked why
  | Exited code => Exited code
  end.
#[global] Instance Outcome_fmap : FMap Outcome := fun A B f m =>
  match m with
  | Returned a => Returned (f a)
  | Panicked why => Panicked why
  | Exited code => Exited code
  end.

(** [s[i]] read. *)
Definition index {A} (s : list A) (i : nat) : Outcome A :=
  match s !! i with
  | Some x => Returned x
  | None => Panicked IndexOutOfRange
  end.

(** [s[i] = x]. *)
Definition store {A} (s : list A) (i : nat) (x : A) : Outcome (list A) :=
  match s !! i with
  | Some _ => Returned (<[i := x]> s)
  | None => Panicked IndexOutOfRange
  end.

(** [s[i].field = v], as a function on the element. *)
Definition update {A} (s : list A) (i : nat) (f : A -> A) : Outcome (list A) :=
  match s !! i with
  | Some x => Returned (<[i := f x]> s)
  | None => Panicked IndexOutOfRange
  end.

(** [append(s[:i], append([]T{x}, s[i:]...)...)]: both slice expressions
    need [i <= len(s)]. *)
Definition insert_at {A} (s : list A) (i : nat) (x : A) : Outcome (list A) :=
  if decide (i <= length s)%nat
  then Returned (take i s ++ x :: drop i s)
  else Panicked SliceBoundsOutOfRange.

(** [for i := lo; i < lo + n; i++ { body }] over a state. *)
Fixpoint for_range {St} (body : nat -> St -> Outcome St) (lo n : nat) (s : St) : Outcome St :=
  match n with
  | O => Returned s
  | S n' => s' ← body lo s; for_range body (S lo) n' s'
  end.

(** The same loop when the body may [break]. *)
Inductive Flow (St : Type) : Type :=
| Next (s : St)
| Break (s : St).
Arguments Next {St} s.
Arguments Break {St} s.

Fixpoint for_range_break {St} (body : nat -> St -> Outcome (Flow St)) (lo n : nat) (s : St)
  : Outcome St :=
  match n with
  | O => Returned s
  | S n' =>
      r ← body lo s;
      match r with
      | Next s' => for_range_break body (S lo) n' s'
      | Break s' => Returned s'
      end
  end.

(** [for j := from; j < bound; j++ { acc += 1 }] on int64s: [fuel] bounds
    the number of iterations. *)
Fixpoint count_up (fuel : nat) (j bound acc : Z) : Z :=
  match fuel with
  | O => acc
  | S fuel' => if j <? bound then count_up fuel' (j + 1) bound (add64 acc 1) else acc
  end.

(** Iterations such a loop can make. *)
Definition distance (j bound : Z) : nat := Z.to_nat (bound - j).

(** [sort.SliceStable(s, less)]: the stable sort, here by insertion.  For
    the orders used below (a field, or two fields lexicographically) the
    sorted stable permutation is unique, so the algorithm does not matter. *)
Fixpoint stable_insert {A} (less : A -> A -> bool) (x : A) (s : list A) : list A :=
  match s with
  | [] => [x]
  | y :: s' => if less y x then y :: stable_insert less x s' else x :: y :: s'
  end.

(** Elements are inserted from the last to the first: an element passes
    only the strictly smaller ones, so equal elements keep their order. *)
Fixpoint SliceStable {A} (less : A -> A -> bool) (s : list A) : list A :=
  match s with
  | [] => []
  | x :: s' => stable_insert less x (SliceStable less s')
  end.

(** ** Data *)

Record Process : Type := mkProcess {
  ProcessID : Z;
  ArrivalTime : Z;
  BurstDuration : Z;
  Priority : Z;
  startingTime : Z;
  isDone : bool;
  hasMultiple : bool;
  totalWait : Z;
  stoppingTime : Z
}.

Record TimeSlice : Type := mkTimeSlice {
  PID : Z;
  Start : Z;
  Stop : Z
}.

(** A process as [loadProcesses] builds it: the unexported fields are zero. *)
Definition process (id burst arrival priority : Z) : Process :=
  mkProcess id arrival burst priority 0 false false 0 0.

Definition set_BurstDuration (v : Z) (p : Process) : Process :=
  mkProcess (ProcessID p) (ArrivalTime p) v (Priority p)
            (startingTime p) (isDone p) (hasMultiple p) (totalWait p) (stoppingTime p).
Definition set_startingTime (v : Z) (p : Process) : Process :=
  mkProcess (ProcessID p) (ArrivalTime p) (BurstDuration p) (Priority p)
            v (isDone p) (hasMultiple p) (totalWait p) (stoppingTime p).
Definition set_isDone (v : bool) (p : Process) : Process :=
  mkProcess (ProcessID p) (ArrivalTime p) (BurstDuration p) (Priority p)
            (startingTime p) v (hasMultiple p) (totalWait p) (stoppingTime p).
Definition set_hasMultiple (v : bool) (p : Process) : Process :=
  mkProcess (ProcessID p) (ArrivalTime p) (BurstDuration p) (Priority p)
            (startingTime p) (isDone p) v (totalWait p) (stoppingTime p).
Definition set_totalWait (v : Z) (p : Process) : Process :=
  mkProcess (ProcessID p) (ArrivalTime p) (BurstDuration p) (Priority p)
            (startingTime p) (isDone p) (hasMultiple p) v (stoppingTime p).
Definition set_stoppingTime (v : Z) (p : Process) : Process :=
  mkProcess (ProcessID p) (ArrivalTime p) (BurstDuration p) (Priority p)
            (startingTime p) (isDone p) (hasMultiple p) (totalWait p) v.

(** A row of the schedule table.  The source stores seven strings, each
    [fmt.Sprint] of an int64; the row keeps the integers, in the column
    order ID, Priority, Burst, Arrival, Wait, Turnaround, Exit.  The rows
    that [make([][]string, n)] creates are nil: [blank_row]. *)
Definition Row : Type := list Z.

Definition blank_row : Row := [].

Definition table_row (p : Process) (wait turnaround completion : Z) : Row :=
  [ProcessID p; Priority p; BurstDuration p; ArrivalTime p; wait; turnaround; completion].

Definition row_id (r : Row) : option Z := r !! 0%nat.
Definition row_burst (r : Row) : option Z := r !! 2%nat.
Definition row_arrival (r : Row) : option Z := r !! 3%nat.
Definition row_wait (r : Row) : option Z := r !! 4%nat.
Definition row_turnaround (r : Row) : option Z := r !! 5%nat.
Definition row_exit (r : Row) : option Z := r !! 6%nat.

(** What a scheduler hands to [outputTitle], [outputGantt] and
    [outputSchedule]. *)
Record Report : Type := mkReport {
  title : string;
  gantt : list TimeSlice;
  schedule : list Row;
  aveWait : float;
  aveTurnaround : float;
  aveThroughput : float
}.

(** A finished call: the caller's slice as the call leaves it, and the
    report. *)
Record Run : Type := mkRun {
  processes_after : list Process;
  report : Report
}.

(** The footer's three numbers (the last statements of every scheduler). *)
Definition averages (ttl : string) (g : list TimeSlice) (rows : list Row)
    (count wait turnaround lastCompletion : float) : Report :=
  mkReport ttl g rows (PrimFloat.div wait count) (PrimFloat.div turnaround count)
           (PrimFloat.div count lastCompletion).

(** ** FCFSSchedule *)

Record FCFSVars : Type := mkFCFSVars {
  f_serviceTime : Z;
  f_totalWait : float;
  f_totalTurnaround : float;
  f_lastCompletion : float;
  f_waitingTime : Z;
  f_schedule : list Row;
  f_gantt : list TimeSlice
}.

Definition FCFS_body (processes : list Process) (i : nat) (v : FCFSVars) : Outcome FCFSVars :=
  p ← index processes i;
  let waitingTime :=
    if 0 <? ArrivalTime p then sub64 (f_serviceTime v) (ArrivalTime p) else f_waitingTime v in
  let totalWait := PrimFloat.add (f_totalWait v) (float64_of_int64 waitingTime) in
  let start := add64 waitingTime (ArrivalTime p) in
  let turnaround := add64 (BurstDuration p) waitingTime in
  let totalTurnaround := PrimFloat.add (f_totalTurnaround v) (float64_of_int64 turnaround) in
  let completion := add64 (add64 (BurstDuration p) (ArrivalTime p)) waitingTime in
  let lastCompletion := float64_of_int64 completion in
  rows ← store (f_schedule v) i (table_row p waitingTime turnaround completion);
  let serviceTime := add64 (f_serviceTime v) (BurstDuration p) in
  mret (mkFCFSVars serviceTime totalWait totalTurnaround lastCompletion waitingTime rows
          (f_gantt v ++ [mkTimeSlice (ProcessID p) start serviceTime])).

Definition FCFS_init (processes : list Process) : FCFSVars :=
  mkFCFSVars 0 0%float 0%float 0%float 0 (replicate (length processes) blank_row) [].

Definition FCFSSchedule (ttl : string) (processes : list Process) : Outcome Run :=
  v ← for_range (FCFS_body processes) 0 (length processes) (FCFS_init processes);
  mret (mkRun processes
          (averages ttl (f_gantt v) (f_schedule v) (float64_of_len processes)
             (f_totalWait v) (f_totalTurnaround v) (f_lastCompletion v))).

(** ** SJFSchedule *)

(** The comparison handed to [sort.SliceStable]: arrival time, then burst. *)
Definition SJF_less (a b : Process) : bool :=
  if ArrivalTime a =? ArrivalTime b
  then BurstDuration a <? BurstDuration b
  else ArrivalTime a <? ArrivalTime b.

(** The variables the first loop works on. *)
Record SJFVars : Type := mkSJFVars {
  s_serviceTime : Z;
  s_copyProc : list Process;
  s_readyQueue : list Process;
  s_currBurst : Z;
  s_remBurst : Z
}.

(** Third branch, body of [for j := range readyQueue]: the process at [i]
    is run to its end if the queue holds an unfinished part of it. *)
Definition SJF_resume (i j : nat) (v : SJFVars) : Outcome SJFVars :=
  r ← index (s_readyQueue v) j;
  c ← index (s_copyProc v) i;
  if (ProcessID r =? ProcessID c) && negb (isDone r) then
    let c := set_startingTime (s_serviceTime v) c in
    let c := set_stoppingTime (add64 (s_serviceTime v) (BurstDuration c)) c in
    let c := set_totalWait (sub64 (stoppingTime c) (startingTime c)) c in
    let c := set_isDone true c in
    copyProc ← store (s_copyProc v) i c;
    mret (mkSJFVars (add64 (s_serviceTime v) (BurstDuration c)) copyProc
            (s_readyQueue v ++ [c]) (s_currBurst v) (s_remBurst v))
  else mret v.

(** Second branch: the next process is shorter and arrives later, so the
    current one runs until that arrival and the two change places. *)
Definition SJF_preempt (i : nat) (c next : Process) (v : SJFVars) : Outcome SJFVars :=
  let currBurst :=
    count_up (distance (s_serviceTime v) (ArrivalTime next))
             (s_serviceTime v) (ArrivalTime next) (s_currBurst v) in
  let remBurst := BurstDuration c in
  let c := set_BurstDuration currBurst c in
  let c := set_totalWait (sub64 (s_serviceTime v) (ArrivalTime c)) c in
  let c := set_startingTime (s_serviceTime v) c in
  let c := set_stoppingTime (add64 (add64 (BurstDuration c) (ArrivalTime c)) (totalWait c)) c in
  let c := set_isDone false c in
  let serviceTime := add64 (s_serviceTime v) (BurstDuration c) in
  let readyQueue := s_readyQueue v ++ [c] in
  let c := set_BurstDuration (sub64 remBurst currBurst) c in
  (* copyProc[i], copyProc[i+1] = copyProc[i+1], copyProc[i] *)
  copyProc ← store (s_copyProc v) i next;
  copyProc ← store copyProc (i + 1) c;
  let n := set_totalWait (sub64 serviceTime (ArrivalTime next)) next in
  let n := set_startingTime serviceTime n in
  let n := set_stoppingTime (add64 (add64 serviceTime (BurstDuration n)) (totalWait n)) n in
  let n := set_isDone true n in
  copyProc ← store copyProc i n;
  mret (mkSJFVars (add64 serviceTime (BurstDuration n)) copyProc (readyQueue ++ [n])
          currBurst remBurst).

Definition SJF_body (i : nat) (v : SJFVars) : Outcome SJFVars :=
  c ← index (s_copyProc v) i;
  if (ArrivalTime c =? 0) && negb (isDone c) then
    let c := set_totalWait 0 c in
    let c := set_startingTime (ArrivalTime c) c in
    let c := set_stoppingTime (BurstDuration c) c in
    let c := set_isDone true c in
    copyProc ← store (s_copyProc v) i c;
    mret (mkSJFVars (add64 (s_serviceTime v) (BurstDuration c)) copyProc
            (s_readyQueue v ++ [c]) (s_currBurst v) (s_remBurst v))
  else
    shorter_next ←
      (if decide (i + 1 < length (s_copyProc v))%nat
       then next ← index (s_copyProc v) (i + 1);
            c ← index (s_copyProc v) i;
            Returned (BurstDuration next <? BurstDuration c)
       else Returned false);
    if (shorter_next : bool) then
      c ← index (s_copyProc v) i;
      next ← index (s_copyProc v) (i + 1);
      if ArrivalTime c <? ArrivalTime next then SJF_preempt i c next v else mret v
    else
      c ← index (s_copyProc v) i;
      if negb (isDone c)
      then for_range (SJF_resume i) 0 (length (s_readyQueue v)) v
      else mret v.

(** The variables of the loop that builds the table and the chart. *)
Record Tally : Type := mkTally {
  t_totalWait : float;
  t_totalTurnaround : float;
  t_lastCompletion : float;
  t_schedule : list Row;
  t_gantt : list TimeSlice
}.

(** [var ( ... schedule = make([][]string, len(processes)) ... )]. *)
Definition Tally_init (processes : list Process) : Tally :=
  mkTally 0%float 0%float 0%float (replicate (length processes) blank_row) [].

(** Body of the inner [for j := range readyQueue] of the report loop; [acc]
    is the variable [totalWait]. *)
Definition SJF_discount (readyQueue : list Process) (i j : nat) (acc : float)
  : Outcome float :=
  rj ← index readyQueue j;
  ri ← index readyQueue i;
  if ProcessID rj =? ProcessID ri then
    rj ← index readyQueue j;
    if isDone rj && negb (isDone ri)
    then mret (PrimFloat.sub acc (float64_of_int64 (totalWait ri)))
    else mret acc
  else mret acc.

Definition SJF_report (readyQueue : list Process) (i : nat) (t : Tally) : Outcome Tally :=
  r ← index readyQueue i;
  let turnaround := add64 (BurstDuration r) (totalWait r) in
  let completion := stoppingTime r in
  '(tta, twa) ←
    (if isDone r
     then Returned (PrimFloat.add (t_totalTurnaround t) (float64_of_int64 turnaround),
                    PrimFloat.add (t_totalWait t) (float64_of_int64 (totalWait r)))
     else tw ← for_range (SJF_discount readyQueue i) 0 (length readyQueue) (t_totalWait t);
          Returned (t_totalTurnaround t, tw));
  mret (mkTally twa tta (float64_of_int64 (stoppingTime r))
          (t_schedule t ++ [table_row r (totalWait r) turnaround completion])
          (t_gantt t ++ [mkTimeSlice (ProcessID r) (startingTime r) (stoppingTime r)])).

Definition SJFSchedule (ttl : string) (processes : list Process) : Outcome Run :=
  (* the caller's slice is sorted in place, then copied *)
  let processes := SliceStable SJF_less processes in
  let copyProc := processes in
  v ← for_range SJF_body 0 (length copyProc) (mkSJFVars 0 copyProc [] 0 0);
  t ← for_range (SJF_report (s_readyQueue v)) 0 (length (s_readyQueue v)) (Tally_init processes);
  mret (mkRun processes
          (averages ttl (t_gantt t) (t_schedule t) (float64_of_len processes)
             (t_totalWait t) (t_totalTurnaround t) (t_lastCompletion t))).

(** ** SJFPrioritySchedule *)

Definition by_arrival (a b : Process) : bool := ArrivalTime a <? ArrivalTime b.
Definition by_priority (a b : Process) : bool := Priority a <? Priority b.

(** The variables of the first loop, [for i, x := range copyProc].

    The range statement evaluates [copyProc] once and reads [x] from that
    slice header's array.  The loop body may assign [copyProc] the result of
    an [append] that inserts an element: when the array has room the
    elements move within it and the range statement sees them; when it has
    not, [append] moves to a new array and the range statement keeps
    reading the one left behind.  [p_ranged] is [None] while both share
    one array, and holds the contents of the array left behind afterwards.
    The capacity [cap] of the copy made by
    [append([]Process(nil), processes...)] is the runtime's choice (at
    least the length; exactly the length for up to twelve of these 64-byte
    structs under the gc runtime's size classes): it is a parameter. *)
Record PriorityVars : Type := mkPriorityVars {
  p_copyProc : list Process;
  p_ranged : option (list Process);
  p_readyQueue : list Process;
  p_totalBurst : Z;
  p_currBurst : Z
}.

(** [for int64(currBurst) < bound { copyProc[i].stoppingTime++; currBurst++ }],
    on the pair of the two counters. *)
Fixpoint tick_up (fuel : nat) (currBurst bound stop : Z) : Z * Z :=
  match fuel with
  | O => (currBurst, stop)
  | S fuel' =>
      if currBurst <? bound
      then tick_up fuel' (add64 currBurst 1) bound (add64 stop 1)
      else (currBurst, stop)
  end.

(** [copyProc = append(copyProc[:i], append([]Process{x}, copyProc[i:]...)...)]. *)
Definition Priority_insert (cap i : nat) (x : Process) (v : PriorityVars)
  : Outcome PriorityVars :=
  copyProc ← insert_at (p_copyProc v) i x;
  let ranged :=
    match p_ranged v with
    | Some left_behind => Some left_behind
    | None => if decide (length copyProc <= cap)%nat then None else Some (p_copyProc v)
    end in
  mret (mkPriorityVars copyProc ranged (p_readyQueue v) (p_totalBurst v) (p_currBurst v)).

(** First [if] of the loop body: the process at [i] is not the one the
    priority order has at [i]. *)
Definition Priority_split (cap : nat) (priorityQueue : list Process) (i : nat)
    (Temp x : Process) (v : PriorityVars) : Outcome (Process * PriorityVars) :=
  next ← index (p_copyProc v) (i + 1);
  c ← index (p_copyProc v) i;
  let '(currBurst, stop) :=
    tick_up (distance (p_currBurst v) (ArrivalTime next))
            (p_currBurst v) (ArrivalTime next) (stoppingTime c) in
  copyProc ← store (p_copyProc v) i (set_stoppingTime stop c);
  '(x, copyProc, readyQueue) ←
    (if currBurst <? BurstDuration Temp then
       let x := set_stoppingTime currBurst x in
       let x := set_BurstDuration currBurst x in
       c ← index copyProc i;
       let c := set_BurstDuration (sub64 (BurstDuration c) currBurst) c in
       copyProc ← store copyProc i c;
       Returned (x, copyProc, p_readyQueue v ++ [c])
     else Returned (x, copyProc, p_readyQueue v));
  let v := mkPriorityVars copyProc (p_ranged v) readyQueue (p_totalBurst v) currBurst in
  next ← index copyProc (i + 1);
  q ← index priorityQueue i;
  if ProcessID next =? ProcessID q then
    c ← index copyProc i;
    v ← (if negb (isDone c) then Priority_insert cap i x v else Returned v);
    copyProc ← store (p_copyProc v) i x;
    mret (x, mkPriorityVars copyProc (p_ranged v) (p_readyQueue v) (p_totalBurst v)
               (p_currBurst v))
  else mret (x, v).

(** Second [if] of the loop body: the two processes after [i] are out of
    priority order; they change places and the loop ends. *)
Definition Priority_swap (i : nat) (v : PriorityVars) : Outcome (Flow PriorityVars) :=
  out_of_order ←
    (if decide (i + 2 < length (p_copyProc v))%nat
     then a ← index (p_copyProc v) (i + 1);
          b ← index (p_copyProc v) (i + 2);
          Returned (Priority b <? Priority a)
     else Returned false);
  if (out_of_order : bool) then
    b ← index (p_copyProc v) (i + 2);
    copyProc ← update (p_copyProc v) (i + 1) (set_totalWait (BurstDuration b));
    x ← index copyProc (i + 1);
    b ← index copyProc (i + 2);
    copyProc ← store copyProc (i + 1) b;
    c ← index copyProc i;
    let x := if ProcessID x =? ProcessID c then set_isDone true x else x in
    copyProc ← store copyProc (i + 2) x;
    mret (Break (mkPriorityVars copyProc (p_ranged v) (p_readyQueue v) (p_totalBurst v)
                   (p_currBurst v)))
  else mret (Next v).

Definition Priority_body (cap : nat) (priorityQueue : list Process) (i : nat)
    (v : PriorityVars) : Outcome (Flow PriorityVars) :=
  x ← index (default (p_copyProc v) (p_ranged v)) i;
  c ← index (p_copyProc v) i;
  let v := mkPriorityVars (p_copyProc v) (p_ranged v) (p_readyQueue v)
             (add64 (p_totalBurst v) (BurstDuration c)) (p_currBurst v) in
  Temp ← index (p_copyProc v) i;
  displaced ←
    (if decide (i + 1 < length (p_copyProc v))%nat
     then c ← index (p_copyProc v) i;
          q ← index priorityQueue i;
          Returned (negb (ProcessID c =? ProcessID q))
     else Returned false);
  '(x, v) ← (if (displaced : bool)
             then Priority_split cap priorityQueue i Temp x v
             else Returned (x, v));
  Priority_swap i v.

(** Second loop: [for j := range copyProc], the bursts under one id. *)
Definition burstCount (pid : Z) (copyProc : list Process) : Z :=
  fold_left (fun count c => if ProcessID c =? pid then add64 count (BurstDuration c) else count)
            copyProc 0.

(** [for k := ...; k > 0; k-- { if copyProc[k].ProcessID == pid { ...; break } }]. *)
Fixpoint mark_last (pid : Z) (k : nat) (copyProc : list Process) : Outcome (list Process) :=
  match k with
  | O => mret copyProc
  | S k' =>
      c ← index copyProc k;
      if ProcessID c =? pid
      then update copyProc k (set_isDone true)
      else mark_last pid k' copyProc
  end.

(** Body of the second loop, on [copyProc] and [totalBurst]. *)
Definition Priority_mark (processes : list Process) (i : nat) (s : list Process * Z)
  : Outcome (list Process * Z) :=
  let '(copyProc, totalBurst) := s in
  p ← index processes i;
  let totalBurst := add64 totalBurst (BurstDuration p) in
  p ← index processes i;
  let count := burstCount (ProcessID p) copyProc in
  p ← index processes i;
  if count =? BurstDuration p then
    copyProc ← mark_last (ProcessID p) (length copyProc - 1) copyProc;
    mret (copyProc, totalBurst)
  else mret (copyProc, totalBurst).

(** The variables of the third loop. *)
Record PriorityReport : Type := mkPriorityReport {
  r_serviceTime : Z;
  r_waitingTime : Z;
  r_copyProc : list Process;
  r_tally : Tally
}.

Definition Priority_report (i : nat) (v : PriorityReport) : Outcome PriorityReport :=
  c ← index (r_copyProc v) i;
  '(waitingTime, copyProc) ←
    (if 0 <? ArrivalTime c then
       let waitingTime := sub64 (r_serviceTime v) (ArrivalTime c) in
       copyProc ← update (r_copyProc v) i (set_totalWait waitingTime);
       Returned (waitingTime, copyProc)
     else Returned (r_waitingTime v, r_copyProc v));
  same_id ←
    (if decide (i + 2 < length copyProc)%nat
     then b ← index copyProc (i + 2);
          c ← index copyProc i;
          Returned (ProcessID b =? ProcessID c)
     else Returned false);
  copyProc ←
    (if (same_id : bool)
     then a ← index copyProc (i + 1);
          update copyProc (i + 2) (set_totalWait (BurstDuration a))
     else Returned copyProc);
  copyProc ← update copyProc i (set_startingTime (r_serviceTime v));
  c ← index copyProc i;
  copyProc ← store copyProc i (set_stoppingTime (add64 (r_serviceTime v) (BurstDuration c)) c);
  c ← index copyProc i;
  let t := r_tally v in
  let tw := PrimFloat.add (t_totalWait t) (float64_of_int64 (totalWait c)) in
  let turnaround := add64 (BurstDuration c) (totalWait c) in
  let tta := PrimFloat.add (t_totalTurnaround t) (float64_of_int64 turnaround) in
  let completion := add64 (add64 (BurstDuration c) (ArrivalTime c)) waitingTime in
  mret (mkPriorityReport (add64 (r_serviceTime v) (BurstDuration c)) waitingTime copyProc
          (mkTally tw tta (float64_of_int64 completion)
             (t_schedule t ++ [table_row c (totalWait c) turnaround (stoppingTime c)])
             (t_gantt t ++ [mkTimeSlice (ProcessID c) (startingTime c) (stoppingTime c)]))).

Definition SJFPrioritySchedule (cap : nat) (ttl : string) (processes : list Process)
  : Outcome Run :=
  let copyProc := SliceStable by_arrival processes in
  let priorityQueue := SliceStable by_priority processes in
  v ← for_range_break (Priority_body cap priorityQueue) 0 (length copyProc)
        (mkPriorityVars copyProc None [] 0 0);
  '(copyProc, _) ← for_range (Priority_mark processes) 0 (length processes) (p_copyProc v, 0);
  r ← for_range Priority_report 0 (length copyProc)
        (mkPriorityReport 0 0 copyProc (Tally_init processes));
  let t := r_tally r in
  mret (mkRun processes
          (averages ttl (t_gantt t) (t_schedule t) (float64_of_len processes)
             (t_totalWait t) (t_totalTurnaround t) (t_lastCompletion t))).

(** ** RRSchedule *)

(** [timeQuantum]: the burst of the first process, lowered to the least
    burst by the loop over [processes]. *)
Definition RR_lower (processes : list Process) (i : nat) (timeQuantum : Z) : Outcome Z :=
  p ← index processes i;
  if BurstDuration p <? timeQuantum
  then p ← index processes i; mret (BurstDuration p)
  else mret timeQuantum.

Definition RR_quantum (processes : list Process) : Outcome Z :=
  first ← index processes 0;
  for_range (RR_lower processes) 0 (length processes) (BurstDuration first).

(** The variables of the loop that builds the ready queue,
    [for i, x := range copyQueue].  [copyQueue] is never reassigned, so the
    range statement reads [x] from the array the body writes to. *)
Record RRVars : Type := mkRRVars {
  q_copyQueue : list Process;
  q_readyQueue : list Process
}.

Definition RR_split (serviceTime timeQuantum : Z) (i : nat) (v : RRVars) : Outcome RRVars :=
  x ← index (q_copyQueue v) i;
  copyQueue ← update (q_copyQueue v) i (set_startingTime serviceTime);
  c ← index copyQueue i;
  if BurstDuration c =? timeQuantum then
    let x := set_isDone true x in
    let x := set_hasMultiple false x in
    mret (mkRRVars copyQueue (q_readyQueue v ++ [x]))
  else
    copyQueue ← update copyQueue i (set_isDone false);
    copyQueue ← update copyQueue i (set_hasMultiple true);
    let x := set_hasMultiple true x in
    let x := set_isDone true x in
    c ← index copyQueue i;
    let x := set_BurstDuration (sub64 (BurstDuration c) timeQuantum) x in
    copyQueue ← update copyQueue i (fun c => set_BurstDuration (sub64 (BurstDuration c) (BurstDuration x)) c);
    c ← index copyQueue i;
    readyQueue ← insert_at (q_readyQueue v) i c;
    mret (mkRRVars copyQueue (readyQueue ++ [x])).

(** The variables of the loop that builds the table and the chart. *)
Record RRReport : Type := mkRRReport {
  rr_serviceTime : Z;
  rr_readyQueue : list Process;
  rr_tally : Tally
}.

Definition RR_report (i : nat) (v : RRReport) : Outcome RRReport :=
  let serviceTime := rr_serviceTime v in
  readyQueue ← update (rr_readyQueue v) i
    (fun r => set_totalWait (sub64 serviceTime (ArrivalTime r)) r);
  readyQueue ← update readyQueue i (set_startingTime serviceTime);
  readyQueue ← update readyQueue i
    (fun r => set_stoppingTime (add64 serviceTime (BurstDuration r)) r);
  split ←
    (if decide (1 <= i)%nat
     then r ← index readyQueue i; Returned (hasMultiple r)
     else Returned false);
  readyQueue ←
    (if (split : bool) then
       r ← index readyQueue i;
       if isDone r then
         previous ← index readyQueue (i - 1);
         update readyQueue i (set_totalWait (sub64 serviceTime (startingTime previous)))
       else
         update readyQueue i (fun r => set_totalWait (sub64 serviceTime (ArrivalTime r)) r)
     else Returned readyQueue);
  r ← index readyQueue i;
  let t := rr_tally v in
  let tw :=
    if isDone r
    then PrimFloat.add (t_totalWait t) (float64_of_int64 (totalWait r))
    else t_totalWait t in
  let turnaround := add64 (BurstDuration r) (totalWait r) in
  let tta := PrimFloat.add (t_totalTurnaround t) (float64_of_int64 turnaround) in
  mret (mkRRReport (add64 serviceTime (BurstDuration r)) readyQueue
          (mkTally tw tta (float64_of_int64 (stoppingTime r))
             (t_schedule t ++ [table_row r (totalWait r) turnaround (stoppingTime r)])
             (t_gantt t ++ [mkTimeSlice (ProcessID r) (startingTime r) (stoppingTime r)]))).

Definition RRSchedule (ttl : string) (processes : list Process) : Outcome Run :=
  let copyQueue := processes in
  timeQuantum ← RR_quantum processes;
  v ← for_range (RR_split 0 timeQuantum) 0 (length copyQueue) (mkRRVars copyQueue []);
  r ← for_range RR_report 0 (length (q_readyQueue v))
        (mkRRReport 0 (q_readyQueue v) (Tally_init processes));
  let t := rr_tally r in
  mret (mkRun processes
          (averages ttl (t_gantt t) (t_schedule t) (float64_of_len processes)
             (t_totalWait t) (t_totalTurnaround t) (t_lastCompletion t))).

(** ** Loading processes *)

Definition is_digit (c : ascii) : bool :=
  let n := nat_of_ascii c in (48 <=? n)%nat && (n <=? 57)%nat.

Definition digit_value (c : ascii) : Z := Z.of_nat (nat_of_ascii c) - 48.

(** Decimal digits, at least one, nothing else. *)
Fixpoint digits_value (s : string) (acc : Z) : option Z :=
  match s with
  | EmptyString => Some acc
  | String c rest =>
      if is_digit c then digits_value rest (10 * acc + digit_value c) else None
  end.

(** [strconv.ParseInt(s, 10, 64)]: an optional sign, then decimal digits;
    [None] stands for the syntax error and for the range error. *)
Definition ParseInt (s : string) : option Z :=
  match s with
  | EmptyString => None
  | String c rest =>
      let '(negative, body) :=
        if Ascii.eqb c "+" then (false, rest)
        else if Ascii.eqb c "-" then (true, rest)
        else (false, s) in
      match body with
      | EmptyString => None
      | _ =>
          match digits_value body 0 with
          | None => None
          | Some n =>
              let v := if negative then - n else n in
              if (min_int64 <=? v) && (v <=? max_int64) then Some v else None
          end
      end
  end.

(** [mustStrToInt]: the error is printed and the program exits with 1. *)
Definition mustStrToInt (s : string) : Outcome Z :=
  match ParseInt s with
  | Some i => Returned i
  | None => Exited 1
  end.

(** What [csv.NewReader(r).ReadAll()] gave: the records, or an error. *)
Inductive CsvRead : Type :=
| CsvRows (rows : list (list string))
| CsvError.

(** What [loadProcesses] returns: the processes, or the wrapped error. *)
Inductive Loaded : Type :=
| Processes (processes : list Process)
| LoadError.

Definition loadProcesses_row (rows : list (list string)) (i : nat) (processes : list Process)
  : Outcome (list Process) :=
  row ← index rows i;
  field ← index row 0;
  id ← mustStrToInt field;
  processes ← update processes i
    (fun p => mkProcess id (ArrivalTime p) (BurstDuration p) (Priority p)
                (startingTime p) (isDone p) (hasMultiple p) (totalWait p) (stoppingTime p));
  row ← index rows i;
  field ← index row 1;
  burst ← mustStrToInt field;
  processes ← update processes i (set_BurstDuration burst);
  row ← index rows i;
  field ← index row 2;
  arrival ← mustStrToInt field;
  processes ← update processes i
    (fun p => mkProcess (ProcessID p) arrival (BurstDuration p) (Priority p)
                (startingTime p) (isDone p) (hasMultiple p) (totalWait p) (stoppingTime p));
  row ← index rows i;
  if decide (length row = 4%nat) then
    row ← index rows i;
    field ← index row 3;
    priority ← mustStrToInt field;
    update processes i
      (fun p => mkProcess (ProcessID p) (ArrivalTime p) (BurstDuration p) priority
                  (startingTime p) (isDone p) (hasMultiple p) (totalWait p) (stoppingTime p))
  else mret processes.

Definition loadProcesses (read : CsvRead) : Outcome Loaded :=
  match read with
  | CsvError => mret LoadError
  | CsvRows rows =>
      processes ← for_range (loadProcesses_row rows) 0 (length rows)
                    (replicate (length rows) (process 0 0 0 0));
      mret (Processes processes)
  end.

(** ** main, from the loaded processes on

    The four schedulers run one after the other on the same slice.  [cap]
    gives the capacity the runtime chooses for a copy of [n] processes. *)
Definition run_schedulers (cap : nat -> nat) (processes : list Process)
  : Outcome (list Report) :=
  fcfs ← FCFSSchedule "First-come, first-serve" processes;
  sjf ← SJFSchedule "Shortest-job-first" (processes_after fcfs);
  let processes := processes_after sjf in
  priority ← SJFPrioritySchedule (cap (length processes)) "Priority" processes;
  rr ← RRSchedule "Round-robin" (processes_after priority);
  mret [report fcfs; report sjf; report priority; report rr].

(** ** CheckPriority and tickUntilNextPriority

    Two helpers that none of the schedulers calls. *)

(** [s[i]] for an int64 index [i]: a negative index is out of range. *)
Definition index64 {A} (s : list A) (i : Z) : Outcome A :=
  if i <? 0 then Panicked IndexOutOfRange else index s (Z.to_nat i).

(** [s[i] = x] for an int64 index [i]. *)
Definition store64 {A} (s : list A) (i : Z) (x : A) : Outcome (list A) :=
  if i <? 0 then Panicked IndexOutOfRange else store s (Z.to_nat i) x.

(** [CheckPriority]: the entries at the two indices change places when the
    first has the greater priority number and the greater burst.  The slice
    it returns shares the array of its argument, so the result is also what
    the caller's slice holds after the call. *)
Definition CheckPriority (arr : list Process) (index1 index2 : Z) : Outcome (list Process) :=
  a ← index64 arr index1;
  b ← index64 arr index2;
  if Priority a <? Priority b then mret arr
  else
    a ← index64 arr index1;
    b ← index64 arr index2;
    if Priority b <? Priority a then
      b ← index64 arr index2;
      a ← index64 arr index1;
      if BurstDuration b <? BurstDuration a then
        temp ← index64 arr index1;
        b ← index64 arr index2;
        arr ← store64 arr index1 b;
        arr ← store64 arr index2 temp;
        mret arr
      else mret arr
    else mret arr.

(** [tickUntilNextPriority]: the clock runs up to the arrival of [p2]; the
    burst of [p1] is counted down, and [p1] is marked done (for one tick,
    without counting) when the burst is found to be 0.  The structs are
    passed by value.  [fuel] bounds the depth of the recursion; [None] when
    it is used up. *)
Fixpoint tickUntilNextPriority (fuel : nat) (tick : Z) (p1 p2 : Process)
  : option (Z * Process * Process) :=
  match fuel with
  | O => None
  | S fuel' =>
      if tick =? ArrivalTime p2 then Some (tick, p1, p2)
      else if (BurstDuration p1 =? 0) && negb (isDone p1) then
        let p1 := set_isDone true p1 in
        let p1 := set_stoppingTime tick p1 in
        tickUntilNextPriority fuel' (add64 tick 1) p1 p2
      else
        let p1 := set_BurstDuration (sub64 (BurstDuration p1) 1) p1 in
        tickUntilNextPriority fuel' (add64 tick 1) p1 p2
  end.

(** ** Output helpers

    [outputTitle] and [outputGantt], on the text they write.  Both ignore
    the writer's errors.  [outputSchedule] hands its arguments to the
    tablewriter package and is not rendered here. *)

(** The character of a decimal digit. *)
Definition digit_char (d : Z) : ascii := ascii_of_nat (Z.to_nat (48 + d)).

(** The decimal digits of [n >= 0] in front of [acc]; [fuel] bounds their
    number. *)
Fixpoint decimal (fuel : nat) (n : Z) (acc : string) : string :=
  match fuel with
  | O => acc
  | S fuel' =>
      let acc := String (digit_char (n mod 10)) acc in
      if n <? 10 then acc else decimal fuel' (n / 10) acc
  end.

(** [fmt.Sprint(v)] for an int64 [v]: the decimal digits, after a minus sign
    when [v] is negative.  An int64 has at most 19 digits. *)
Definition Sprint (v : Z) : string :=
  if v <? 0 then String "-" (decimal 19 (- v) "") else decimal 19 v "".

(** [n] copies of [s], one after the other. *)
Fixpoint repeat_string (s : string) (n : nat) : string :=
  match n with
  | O => ""
  | S n' => (s ++ repeat_string s n')%string
  end.

(** [strings.Repeat(s, count)] panics when [count] is negative: [None]. *)
Definition Repeat (s : string) (count : Z) : option string :=
  if count <? 0 then None else Some (repeat_string s (Z.to_nat count)).

(** [len(s)] of a string, an [int]. *)
Definition len (s : string) : Z := Z.of_nat (String.length s).

(** The tab and the newline character, as strings. *)
Definition tab : string := String (ascii_of_nat 9) "".
Definition newline : string := String (ascii_of_nat 10) "".

(** What a helper wrote to the writer: all of its text, or the text written
    before [strings.Repeat] panicked. *)
Inductive Written : Type :=
| Wrote (text : string)
| PanickedAfter (text : string).

(** [fmt.Fprintln] puts a space between its operands and a newline after
    them. *)
Definition outputTitle (ttl : string) : Written :=
  match Repeat "-" (len ttl * 2) with
  | None => PanickedAfter ""
  | Some rule =>
      let w := (rule ++ newline)%string in
      match Repeat " " (len ttl ÷ 2) with
      | None => PanickedAfter w
      | Some indent =>
          let w := (w ++ indent ++ " " ++ ttl ++ newline)%string in
          match Repeat "-" (len ttl * 2) with
          | None => PanickedAfter w
          | Some rule => Wrote (w ++ rule ++ newline)%string
          end
      end
  end.

(** First loop of [outputGantt], from the text [w] written so far: one cell
    per slice, the id between two paddings of [(8 - len(pid)) / 2] spaces
    (Go's division truncates toward zero).  [fmt.Fprint] puts no space
    between string operands. *)
Fixpoint gantt_cells (g : list TimeSlice) (w : string) : Written :=
  match g with
  | [] => Wrote w
  | s :: g' =>
      let pid := Sprint (PID s) in
      match Repeat " " ((8 - len pid) ÷ 2) with
      | None => PanickedAfter w
      | Some padding => gantt_cells g' (w ++ padding ++ pid ++ padding ++ "|")%string
      end
  end.

(** Second loop: the start of every slice, and the stop of the last one. *)
Fixpoint gantt_times (g : list TimeSlice) (w : string) : string :=
  match g with
  | [] => w
  | s :: g' =>
      let w := (w ++ Sprint (Start s) ++ tab)%string in
      gantt_times g' (match g' with [] => (w ++ Sprint (Stop s))%string | _ :: _ => w end)
  end.

(** [outputGantt]: the heading, the line of cells, the line of times and an
    empty line. *)
Definition outputGantt (g : list TimeSlice) : Written :=
  match gantt_cells g ("Gantt schedule" ++ newline ++ "|")%string with
  | PanickedAfter w => PanickedAfter w
  | Wrote w => Wrote (gantt_times g (w ++ newline) ++ newline ++ newline)%string
  end.

(** * Notions used to state the properties *)

(** ** Timelines, tables and calls *)

(** The four jobs of the spec's shortest-job-first example, as
    [process id burst arrival priority]. *)
Definition four_jobs : list Process :=
  [process 1 6 0 0; process 2 2 1 0; process 3 8 2 0; process 4 3 3 0].

(** Length of a slice. *)
Definition duration (s : TimeSlice) : Z := Stop s - Start s.

(** The slices of a timeline that bear a given process id. *)
Definition slices_of (pid : Z) (g : list TimeSlice) : list TimeSlice :=
  filter (fun s => PID s = pid) g.

(** CPU time a timeline gives to a process id. *)
Definition time_given (pid : Z) (g : list TimeSlice) : Z :=
  foldr Z.add 0 (duration <$> slices_of pid g).

(** Sum of the bursts of a list of processes or of queue entries. *)
Definition total_burst (ps : list Process) : Z :=
  foldr Z.add 0 (BurstDuration <$> ps).

(** Sum of the bursts of the processes before position [i]. *)
Definition service (ps : list Process) (i : nat) : Z := total_burst (take i ps).

(** The timeline of a finished call. *)
Definition timeline (r : Outcome Run) : Outcome (list TimeSlice) := (gantt ∘ report) <$> r.

(** The table of a finished call. *)
Definition table (r : Outcome Run) : Outcome (list Row) := (schedule ∘ report) <$> r.

(** All three footer numbers are NaN. *)
Definition averages_are_NaN (r : Report) : Prop :=
  PrimFloat.is_nan (aveWait r) = true /\
  PrimFloat.is_nan (aveTurnaround r) = true /\
  PrimFloat.is_nan (aveThroughput r) = true.

(** A row as the table prints it: the turnaround column is the sum of the
    row's own burst and wait columns. *)
Definition turnaround_adds_up (r : Row) : Prop :=
  r = blank_row \/
  exists burst wait, row_burst r = Some burst /\ row_wait r = Some wait /\
                     row_turnaround r = Some (add64 burst wait).

(** The wait column of a row is not negative. *)
Definition wait_not_negative (r : Row) : Prop :=
  r = blank_row \/ exists wait, row_wait r = Some wait /\ 0 <= wait.

(** The call returns (it neither panics nor exits), and what it returns
    satisfies [Q].  For a scheduler, whose embedding ends at its output
    calls, that is: the call gets to its output calls. *)
Definition returns {A} (m : Outcome A) (Q : A -> Prop) : Prop :=
  exists a, m = Returned a /\ Q a.

(** A descriptor as [loadProcesses] builds it, with a positive burst, that
    arrives at time 0. *)
Definition arrives_at_zero (p : Process) : Prop :=
  exists id burst priority, p = process id burst 0 priority /\ 0 < burst.

(** ** The spec's words *)

(** The timeline of section 4.1, in the spec's words: sort stably by
    arrival, start at the later of arrival and previous completion. *)
Fixpoint FCFS_spec_slices (previous_completion : Z) (sorted : list Process) : list TimeSlice :=
  match sorted with
  | [] => []
  | p :: rest =>
      let start := Z.max (ArrivalTime p) previous_completion in
      let completion := start + BurstDuration p in
      mkTimeSlice (ProcessID p) start completion :: FCFS_spec_slices completion rest
  end.

Definition FCFS_spec (processes : list Process) : list TimeSlice :=
  FCFS_spec_slices 0 (SliceStable by_arrival processes).

(** The list is in arrival order already. *)
Fixpoint in_arrival_order (ps : list Process) : Prop :=
  match ps with
  | [] => True
  | p :: rest => Forall (fun q => ArrivalTime p <= ArrivalTime q) rest /\ in_arrival_order rest
  end.

(** Round-robin in the spec's words, for one process: each time it is
    dequeued it runs for min(quantum, remaining burst), until nothing
    remains.  [fuel] bounds the number of slices. *)
Fixpoint quantum_slices (fuel : nat) (quantum remaining : Z) : list Z :=
  match fuel with
  | O => []
  | S fuel' =>
      if remaining <=? 0 then []
      else Z.min quantum remaining
             :: quantum_slices fuel' quantum (remaining - Z.min quantum remaining)
  end.

(** The burst of the input descriptor with a given id. *)
Definition original_burst (ps : list Process) (pid : Z) : option Z :=
  BurstDuration <$> head (filter (fun p => ProcessID p = pid) ps).

(** The spec's equation for a row: its turnaround is the original burst of
    its process plus its wait. *)
Definition turnaround_from_original_burst (ps : list Process) (r : Row) : bool :=
  match row_id r, row_wait r, row_turnaround r with
  | Some pid, Some wait, Some turnaround =>
      match original_burst ps pid with
      | Some burst => turnaround =? burst + wait
      | None => false
      end
  | _, _, _ => true
  end.

(** ** What the loops compute *)

(** What the first-come-first-serve scheduler emits for the process at
    position [i] when processes run back to back in input order: the slice
    starts when the processes before it have had their bursts. *)
Definition FCFS_slice (ps : list Process) (i : nat) (p : Process) : TimeSlice :=
  mkTimeSlice (ProcessID p) (service ps i) (service ps i + BurstDuration p).

(** Its row: the wait is that start minus the arrival. *)
Definition FCFS_row (ps : list Process) (i : nat) (p : Process) : Row :=
  let wait := service ps i - ArrivalTime p in
  table_row p wait (BurstDuration p + wait) (service ps i + BurstDuration p).

(** [q] is the least burst of the list. *)
Definition least_burst (ps : list Process) (q : Z) : Prop :=
  (exists p, p ∈ ps /\ BurstDuration p = q) /\ forall p, p ∈ ps -> q <= BurstDuration p.

(** The entries round-robin queues for one process [x]: the process whole when
    its burst is the quantum, else a first part and the rest. *)
Definition RR_whole (x : Process) : Process := set_hasMultiple false (set_isDone true x).
Definition RR_first (q : Z) (x : Process) : Process :=
  set_BurstDuration (sub64 (BurstDuration x) (sub64 (BurstDuration x) q))
    (set_hasMultiple true (set_isDone false (set_startingTime 0 x))).
Definition RR_rest (q : Z) (x : Process) : Process :=
  set_BurstDuration (sub64 (BurstDuration x) q) (set_isDone true (set_hasMultiple true x)).

(** The ready queue after the loop body ran for the process [x] at [i]. *)
Definition RR_enqueue (q : Z) (i : nat) (x : Process) (rq : list Process) : list Process :=
  if BurstDuration x =? q then rq ++ [RR_whole x]
  else (take i rq ++ RR_first q x :: drop i rq) ++ [RR_rest q x].

(** The ready queue after the loop ran for the processes [xs], the first of
    them at position [i]. *)
Fixpoint RR_queue (q : Z) (i : nat) (xs rq : list Process) : list Process :=
  match xs with
  | [] => rq
  | x :: xs' => RR_queue q (S i) xs' (RR_enqueue q i x rq)
  end.

(** Entries of the queue, by process id. *)
Definition entries_of (pid : Z) (rq : list Process) : list Process :=
  filter (fun e => ProcessID e = pid) rq.

(** The slice lengths of one process: the quantum, then the remainder if
    there is one. *)
Definition RR_parts (q : Z) (x : Process) : list Z :=
  if BurstDuration x =? q then [q] else [q; BurstDuration x - q].

(** A burst the quantum [q] can be taken from without overflow. *)
Definition fits (q : Z) (x : Process) : Prop := q <= BurstDuration x <= max_int64.

(** Slices that follow one another from [start], one per queue entry, each as
    long as the burst of its entry. *)
Fixpoint back_to_back (start : Z) (es : list Process) : list TimeSlice :=
  match es with
  | [] => []
  | e :: es' =>
      mkTimeSlice (ProcessID e) start (add64 start (BurstDuration e))
        :: back_to_back (add64 start (BurstDuration e)) es'
  end.

(** [serviceTime] after the entries [es], started at [start]. *)
Definition service64 (start : Z) (es : list Process) : Z :=
  fold_left (fun s e => add64 s (BurstDuration e)) es start.

(** The row round-robin prints for the entry at position [j] of its queue. *)
Definition RR_row (rq : list Process) (j : nat) (row : Row) : Prop :=
  exists e wait,
    rq !! j = Some e /\
    row = table_row e wait (add64 (BurstDuration e) wait)
            (add64 (service64 0 (take j rq)) (BurstDuration e)) /\
    (wait = sub64 (service64 0 (take j rq)) (ArrivalTime e) \/
     ((1 <= j)%nat /\
      wait = sub64 (service64 0 (take j rq)) (service64 0 (take (j - 1) rq)))).

(** ** Invariants of the loops *)

(** Invariant of the loop of [FCFSSchedule] before iteration [i]. *)
Definition FCFS_inv (ps : list Process) (i : nat) (v : FCFSVars) : Prop :=
  f_serviceTime v = service ps i /\
  length (f_schedule v) = length ps /\
  length (f_gantt v) = i /\
  (i = 0%nat -> f_waitingTime v = 0) /\
  forall j p, (j < i)%nat -> ps !! j = Some p ->
              f_gantt v !! j = Some (FCFS_slice ps j p) /\
              f_schedule v !! j = Some (FCFS_row ps j p).

(** Invariant of the report loop of [RRSchedule] before iteration [k]; [rq0]
    and [t0] are the queue and the tally the loop starts with. *)
Definition RR_report_inv (rq0 : list Process) (t0 : Tally) (k : nat) (v : RRReport) : Prop :=
  rr_serviceTime v = service64 0 (take k rq0) /\
  length (rr_readyQueue v) = length rq0 /\
  (forall j, (k <= j)%nat -> rr_readyQueue v !! j = rq0 !! j) /\
  (forall j, (j < k)%nat ->
             exists e', rr_readyQueue v !! j = Some e' /\
                        startingTime e' = service64 0 (take j rq0)) /\
  t_gantt (rr_tally v) = t_gantt t0 ++ back_to_back 0 (take k rq0) /\
  exists rows, t_schedule (rr_tally v) = t_schedule t0 ++ rows /\
               length rows = k /\
               forall j row, rows !! j = Some row -> RR_row rq0 j row.

(** Invariant of the first loop of [SJFPrioritySchedule] over [n]
    processes: the range statement's indices stay within both arrays. *)
Definition Priority_inv (n : nat) (v : PriorityVars) : Prop :=
  (n <= length (p_copyProc v))%nat /\
  match p_ranged v with
  | Some left_behind => (n <= length left_behind)%nat
  | None => True
  end.

(** What the priority scheduler keeps true of every process when all of
    them arrive at 0. *)
Definition waits_at_zero (p : Process) : Prop :=
  ArrivalTime p = 0 /\ 0 <= totalWait p /\ 0 <= BurstDuration p <= max_int64.

(** Invariant of the first loop of [SJFPrioritySchedule] when every
    process arrives at 0: nothing has run yet on the clock [currBurst]. *)
Definition Priority_zero_inv (n : nat) (v : PriorityVars) : Prop :=
  Priority_inv n v /\
  Forall waits_at_zero (p_copyProc v) /\
  Forall waits_at_zero (default [] (p_ranged v)) /\
  p_currBurst v = 0.

(** ** Notions for the loader, the helpers and the shape of the output *)

(** The descriptor a well-formed record stands for: the first three fields
    are the id, the burst and the arrival; the fourth is the priority when
    the record has exactly four fields. *)
Definition load_record (row : list string) : option Process :=
  id ← row !! 0%nat ≫= ParseInt;
  burst ← row !! 1%nat ≫= ParseInt;
  arrival ← row !! 2%nat ≫= ParseInt;
  priority ← (if decide (length row = 4%nat) then row !! 3%nat ≫= ParseInt else Some 0);
  Some (process id burst arrival priority).

(** What the body of the loop of [loadProcesses] does with one record, in
    the order of its reads. *)
Definition record_outcome (row : list string) : Outcome Process :=
  field ← index row 0;
  id ← mustStrToInt field;
  field ← index row 1;
  burst ← mustStrToInt field;
  field ← index row 2;
  arrival ← mustStrToInt field;
  priority ← (if decide (length row = 4%nat)
              then field ← index row 3; mustStrToInt field
              else Returned 0);
  mret (process id burst arrival priority).

(** The records one after the other, up to the first that fails. *)
Fixpoint records_outcome (rows : list (list string)) : Outcome (list Process) :=
  match rows with
  | [] => Returned []
  | row :: rest =>
      p ← record_outcome row;
      ps ← records_outcome rest;
      Returned (p :: ps)
  end.

(** An int64 index within the bounds of a slice. *)
Definition in_range {A} (s : list A) (i : Z) : Prop := 0 <= i < Z.of_nat (length s).

(** [strings.Repeat] panicked. *)
Definition panicked (w : Written) : bool :=
  match w with
  | Wrote _ => false
  | PanickedAfter _ => true
  end.

(** An id that [fmt.Sprint] prints with ten characters or more. *)
Definition long_id (id : Z) : Prop := id <= - 10 ^ 8 \/ 10 ^ 9 <= id.

(** A property of the id of a process. *)
Definition bears (P : Z -> Prop) (p : Process) : Prop := P (ProcessID p).

(** The id of one of the processes [ps]. *)
Definition from_input (ps : list Process) (id : Z) : Prop :=
  exists p, p ∈ ps /\ ProcessID p = id.

(** A row of seven columns that belongs to a slice: it has the id of the slice
    and its exit column is the stop of the slice. *)
Definition row_of_slice (row : Row) (s : TimeSlice) : Prop :=
  length row = 7%nat /\ row_id row = Some (PID s) /\ row_exit row = Some (Stop s).

(** The slices follow one another from [start] to [stop]: each starts where
    the one before stopped. *)
Fixpoint chained (start : Z) (g : list TimeSlice) (stop : Z) : Prop :=
  match g with
  | [] => start = stop
  | s :: g' => Start s = start /\ chained (Stop s) g' stop
  end.

(** No process of the list is less, in the order of [SJFSchedule], than one
    before it. *)
Fixpoint SJF_sorted (ps : list Process) : Prop :=
  match ps with
  | [] => True
  | p :: rest => Forall (fun q => SJF_less q p = false) rest /\ SJF_sorted rest
  end.

(** The queue entry of a process served by the first branch of the loop of
    [SJFSchedule]. *)
Definition SJF_served (p : Process) : Process :=
  set_isDone true (set_stoppingTime (BurstDuration p)
                     (set_startingTime (ArrivalTime p) (set_totalWait 0 p))).

(** Invariant of the loop of [FCFSSchedule] before iteration [i], for every
    list: the wait is the time served minus the arrival for a positive
    arrival, and otherwise the wait left by the iteration before. *)
Definition FCFS_shape (ps : list Process) (i : nat) (v : FCFSVars) : Prop :=
  f_serviceTime v = service64 0 (take i ps) /\
  length (f_schedule v) = length ps /\
  length (f_gantt v) = i /\
  match i with
  | O => f_waitingTime v = 0
  | S i' => f_schedule v !! i' ≫= row_wait = Some (f_waitingTime v)
  end /\
  forall j p, (j < i)%nat -> ps !! j = Some p ->
    exists wait,
      f_gantt v !! j
      = Some (mkTimeSlice (ProcessID p) (add64 wait (ArrivalTime p))
                          (service64 0 (take (S j) ps))) /\
      f_schedule v !! j
      = Some (table_row p wait (add64 (BurstDuration p) wait)
                        (add64 (add64 (BurstDuration p) (ArrivalTime p)) wait)) /\
      (0 < ArrivalTime p -> wait = sub64 (service64 0 (take j ps)) (ArrivalTime p)) /\
      (ArrivalTime p <= 0 ->
       match j with
       | O => wait = 0
       | S j' => f_schedule v !! j' ≫= row_wait = Some wait
       end).

(** The table is the blank rows [make] created followed by one row per
    slice, and every slice bears an id with [P]. *)
Definition Tally_shape (P : Z -> Prop) (n : nat) (t : Tally) : Prop :=
  (exists rows, t_schedule t = replicate n blank_row ++ rows /\
                Forall2 row_of_slice rows (t_gantt t)) /\
  Forall (fun s => P (PID s)) (t_gantt t).

(** The same, of the report of a finished call. *)
Definition Report_shape (P : Z -> Prop) (n : nat) (r : Report) : Prop :=
  (exists rows, schedule r = replicate n blank_row ++ rows /\
                Forall2 row_of_slice rows (gantt r)) /\
  Forall (fun s => P (PID s)) (gantt r).

(** Invariant of the first loop of [SJFPrioritySchedule] on ids. *)
Definition Priority_bears (P : Z -> Prop) (n : nat) (v : PriorityVars) : Prop :=
  Priority_inv n v /\
  Forall (bears P) (p_copyProc v) /\
  Forall (bears P) (default [] (p_ranged v)).

(** Invariant of the third loop of [SJFPrioritySchedule]. *)
Definition PriorityReport_shape (P : Z -> Prop) (n m : nat) (v : PriorityReport) : Prop :=
  length (r_copyProc v) = m /\
  Forall (bears P) (r_copyProc v) /\
  Tally_shape P n (r_tally v) /\
  chained 0 (t_gantt (r_tally v)) (r_serviceTime v).

(** The slice of a process served from time 0. *)
Definition SJF_slice (p : Process) : TimeSlice :=
  mkTimeSlice (ProcessID p) 0 (BurstDuration p).

(** The processes that arrive at time 0. *)
Definition at_zero (ps : list Process) : list Process :=
  filter (fun p => ArrivalTime p = 0) ps.

(** No process that does not arrive at 0 is followed, in the sorted slice,
    by a shorter one: the second branch of the loop of [SJFSchedule] is
    never taken. *)
Definition never_preempted (sorted : list Process) : Prop :=
  forall i p q, sorted !! i = Some p -> sorted !! S i = Some q ->
                ArrivalTime p <> 0 -> BurstDuration p <= BurstDuration q.

(** The list is in priority order already. *)
Fixpoint in_priority_order (ps : list Process) : Prop :=
  match ps with
  | [] => True
  | p :: rest => Forall (fun q => Priority p <= Priority q) rest /\ in_priority_order rest
  end.

(** Two entries with the same id and burst. *)
Definition same_id_and_burst (a b : Process) : Prop :=
  ProcessID a = ProcessID b /\ BurstDuration a = BurstDuration b.

(** Invariant of the third loop of [SJFPrioritySchedule] before iteration
    [i]: the entries of [cp], whatever else the loops wrote to them, have
    been served back to back. *)
Definition PriorityReport_serves (cp : list Process) (i : nat) (v : PriorityReport) : Prop :=
  Forall2 same_id_and_burst (r_copyProc v) cp /\
  r_serviceTime v = service64 0 (take i cp) /\
  t_gantt (r_tally v) = back_to_back 0 (take i cp).

(** ** Notions for the output calls and the rows of a process *)

(** Every id of the list prints with at most nine characters. *)
Definition short_ids (ps : list Process) : Prop :=
  Forall (fun p => ~ long_id (ProcessID p)) ps.

(** A scheduler of the embedding ends where the Go function makes its
    three output calls.  The call on [ps] gets there, with a run that
    satisfies [Q]; there [outputTitle] does not panic, and [outputGantt]
    does not panic either when the ids of [ps] all print with at most nine
    characters.  ([outputSchedule], the third call, is not rendered.) *)
Definition gets_to_output (ps : list Process) (m : Outcome Run) (Q : Run -> Prop) : Prop :=
  returns m (fun run =>
               Q run /\
               panicked (outputTitle (title (report run))) = false /\
               (short_ids ps -> panicked (outputGantt (gantt (report run))) = false)).

(** The row shows the id of the process [p] and the burst [burst], and its
    turnaround column is the int64 sum of [burst] and its wait column. *)
Definition row_of_part (p : Process) (burst : Z) (row : Row) : Prop :=
  row_id row = Some (ProcessID p) /\
  row_burst row = Some burst /\
  exists wait, row_wait row = Some wait /\ row_turnaround row = Some (add64 burst wait).

(** The row shows the process [p] with the burst of its descriptor. *)
Definition row_of_process (p : Process) (row : Row) : Prop :=
  row_of_part p (BurstDuration p) row.

(** The rows of a table that show a given process id. *)
Definition rows_of (pid : Z) (rows : list Row) : list Row :=
  filter (fun row => row_id row = Some pid) rows.

(** Invariant of the third loop of [SJFPrioritySchedule] before iteration
    [i], over a table that began with [n] blank rows: the entries of [cp]
    before [i] have their rows, each with the burst of its entry. *)
Definition PriorityReport_rows (cp : list Process) (n i : nat) (v : PriorityReport) : Prop :=
  Forall2 same_id_and_burst (r_copyProc v) cp /\
  exists rows, t_schedule (r_tally v) = replicate n blank_row ++ rows /\
               Forall2 row_of_process (take i cp) rows.

(** * Properties *)

Arguments wrap64 : simpl never.
Arguments add64 : simpl never.
Arguments sub64 : simpl never.

(** ** Arithmetic of int64 *)

Lemma wrap64_small (z : Z) : in_int64 z -> wrap64 z = z.
Proof.
  unfold in_int64, min_int64, max_int64, wrap64. intros H.
  rewrite Z.mod_small; lia.
Qed.

(** The wrapped value is an int64. *)
Lemma wrap64_in_int64 (z : Z) : in_int64 (wrap64 z).
Proof.
  unfold in_int64, min_int64, max_int64, wrap64.
  pose proof (Z.mod_pos_bound (z + 2 ^ 63) (2 ^ 64) ltac:(lia)). lia.
Qed.

(** Wrapping only sees a value modulo 2^64. *)
Lemma wrap64_eqm (a b : Z) : (a - b) mod 2 ^ 64 = 0 -> wrap64 a = wrap64 b.
Proof.
  unfold wrap64. intros H. f_equal.
  replace (a + 2 ^ 63) with ((b + 2 ^ 63) + (a - b)) by lia.
  rewrite Z.add_mod, H, Z.add_0_r, Z.mod_mod by lia. reflexivity.
Qed.

Lemma wrap64_diff (z : Z) : (wrap64 z - z) mod 2 ^ 64 = 0.
Proof.
  unfold wrap64.
  pose proof (Z.div_mod (z + 2 ^ 63) (2 ^ 64) ltac:(lia)) as E.
  replace ((z + 2 ^ 63) mod 2 ^ 64 - 2 ^ 63 - z)
    with (- ((z + 2 ^ 63) / 2 ^ 64) * 2 ^ 64) by lia.
  apply Z.mod_mul. lia.
Qed.

(** An intermediate result may wrap: only the final sum matters. *)
Lemma wrap64_add_l (a b : Z) : wrap64 (wrap64 a + b) = wrap64 (a + b).
Proof.
  apply wrap64_eqm. replace (wrap64 a + b - (a + b)) with (wrap64 a - a) by lia.
  apply wrap64_diff.
Qed.

Lemma wrap64_add_r (a b : Z) : wrap64 (a + wrap64 b) = wrap64 (a + b).
Proof. rewrite Z.add_comm, wrap64_add_l. f_equal. lia. Qed.

(** Go's [+] and [-] are the mathematical ones when the result fits. *)
Lemma add64_small (a b : Z) : in_int64 (a + b) -> add64 a b = a + b.
Proof. apply wrap64_small. Qed.

Lemma sub64_small (a b : Z) : in_int64 (a - b) -> sub64 a b = a - b.
Proof. apply wrap64_small. Qed.

(** ** Reading and writing slices *)

Lemma index_Returned {A} (s : list A) (i : nat) (x : A) :
  s !! i = Some x -> index s i = Returned x.
Proof. unfold index. intros ->. reflexivity. Qed.

(** An index below the length reads an element. *)
Lemma index_lt {A} (s : list A) (i : nat) :
  (i < length s)%nat -> exists x, s !! i = Some x /\ index s i = Returned x.
Proof.
  intros H. destruct (lookup_lt_is_Some_2 s i H) as [x Hx].
  exists x. split; [exact Hx | apply index_Returned, Hx].
Qed.

Lemma store_Returned {A} (s : list A) (i : nat) (x : A) :
  (i < length s)%nat -> store s i x = Returned (<[i := x]> s).
Proof.
  intros H. unfold store. destruct (lookup_lt_is_Some_2 s i H) as [y ->]. reflexivity.
Qed.

Lemma update_Returned {A} (s : list A) (i : nat) (f : A -> A) (x : A) :
  s !! i = Some x -> update s i f = Returned (<[i := f x]> s).
Proof. unfold update. intros ->. reflexivity. Qed.

Lemma insert_at_Returned {A} (s : list A) (i : nat) (x : A) :
  (i <= length s)%nat -> insert_at s i x = Returned (take i s ++ x :: drop i s).
Proof. intros H. unfold insert_at. rewrite decide_True by exact H. reflexivity. Qed.

Lemma length_insert_at {A} (s : list A) (i : nat) (x : A) :
  (i <= length s)%nat -> length (take i s ++ x :: drop i s) = S (length s).
Proof.
  intros H. rewrite length_app, length_take. simpl. rewrite length_drop. lia.
Qed.

(** ** Loops *)

(** A loop whose body keeps an invariant returns, in a state where the
    invariant holds. *)
Lemma for_range_invariant {St} (body : nat -> St -> Outcome St)
    (Inv : nat -> St -> Prop) (n lo : nat) (s : St) :
  Inv lo s ->
  (forall i t, (lo <= i < lo + n)%nat -> Inv i t ->
               exists t', body i t = Returned t' /\ Inv (S i) t') ->
  exists s', for_range body lo n s = Returned s' /\ Inv (lo + n)%nat s'.
Proof.
  revert lo s. induction n as [|n IH]; intros lo s Hs Hbody; simpl.
  - exists s. rewrite Nat.add_0_r. auto.
  - destruct (Hbody lo s ltac:(lia) Hs) as (t & -> & Ht). simpl.
    destruct (IH (S lo) t Ht) as (s' & E & Hs').
    + intros i u Hi. apply Hbody. lia.
    + exists s'. rewrite E. replace (lo + S n)%nat with (S lo + n)%nat by lia. auto.
Qed.

(** The same for a loop that may break: the invariant is on the state the
    loop is left with. *)
Lemma for_range_break_invariant {St} (body : nat -> St -> Outcome (Flow St))
    (Inv : St -> Prop) (n lo : nat) (s : St) :
  Inv s ->
  (forall i t, (lo <= i < lo + n)%nat -> Inv t ->
               exists t', (body i t = Returned (Next t') \/ body i t = Returned (Break t'))
                          /\ Inv t') ->
  exists s', for_range_break body lo n s = Returned s' /\ Inv s'.
Proof.
  revert lo s. induction n as [|n IH]; intros lo s Hs Hbody; simpl.
  - exists s. auto.
  - destruct (Hbody lo s ltac:(lia) Hs) as (t & [-> | ->] & Ht); simpl.
    + apply IH; [exact Ht|]. intros i u Hi. apply Hbody. lia.
    + exists t. auto.
Qed.

(** ** The counting loops and the sort *)

(** With the fuel the schedulers give it, the counting loop of [SJFSchedule]
    runs until its condition fails: more fuel changes nothing, and the
    counter has grown by the distance to the bound. *)
Lemma count_up_enough (fuel : nat) (j bound acc : Z) :
  in_int64 acc -> (distance j bound <= fuel)%nat ->
  count_up fuel j bound acc = wrap64 (acc + Z.max 0 (bound - j)).
Proof.
  unfold distance. revert j acc. induction fuel as [|fuel IH]; intros j acc Hacc Hfuel; simpl.
  - rewrite Z.max_l by lia. rewrite Z.add_0_r, wrap64_small by exact Hacc. reflexivity.
  - destruct (Z.ltb_spec j bound).
    + rewrite IH by (try apply wrap64_in_int64; lia).
      unfold add64. rewrite wrap64_add_l. f_equal. lia.
    + rewrite Z.max_l by lia. rewrite Z.add_0_r, wrap64_small by exact Hacc. reflexivity.
Qed.

(** The same for the loop of [SJFPrioritySchedule] that moves the clock
    [currBurst] to the next arrival. *)
Lemma tick_up_enough (fuel : nat) (currBurst bound stop : Z) :
  in_int64 currBurst -> bound <= max_int64 -> in_int64 stop ->
  (distance currBurst bound <= fuel)%nat ->
  tick_up fuel currBurst bound stop
  = (Z.max currBurst bound, wrap64 (stop + Z.max 0 (bound - currBurst))).
Proof.
  unfold distance. revert currBurst stop.
  induction fuel as [|fuel IH]; intros currBurst stop Hc Hb Hs Hfuel; simpl.
  - rewrite !Z.max_l by lia. rewrite Z.add_0_r, wrap64_small by exact Hs. reflexivity.
  - destruct (Z.ltb_spec currBurst bound).
    + assert (add64 currBurst 1 = currBurst + 1) as ->.
      { apply add64_small. unfold in_int64, min_int64, max_int64 in *. lia. }
      rewrite IH; try apply wrap64_in_int64; try lia.
      * unfold add64. rewrite wrap64_add_l. f_equal; [lia|]. f_equal. lia.
      * unfold in_int64, min_int64, max_int64 in *. lia.
    + rewrite !Z.max_l by lia. rewrite Z.add_0_r, wrap64_small by exact Hs. reflexivity.
Qed.

(** The sort rearranges the slice and loses nothing. *)
Lemma stable_insert_Permutation {A} (less : A -> A -> bool) (x : A) (s : list A) :
  stable_insert less x s ≡ₚ x :: s.
Proof.
  induction s as [|y s IH]; simpl; [reflexivity|].
  destruct (less y x); [|reflexivity]. rewrite IH. apply Permutation_swap.
Qed.

Lemma SliceStable_Permutation {A} (less : A -> A -> bool) (s : list A) :
  SliceStable less s ≡ₚ s.
Proof.
  induction s as [|x s IH]; simpl; [reflexivity|].
  rewrite stable_insert_Permutation, IH. reflexivity.
Qed.

(** Sorted by arrival, the slice is in arrival order. *)
Lemma stable_insert_in_arrival_order (x : Process) (s : list Process) :
  in_arrival_order s -> in_arrival_order (stable_insert by_arrival x s).
Proof.
  induction s as [|y s IH]; intros Hs; simpl; [split; constructor|].
  destruct Hs as [Hy Hs]. unfold by_arrival at 1.
  destruct (Z.ltb_spec (ArrivalTime y) (ArrivalTime x)) as [Hlt | Hge].
  - split; [|apply IH, Hs].
    rewrite stable_insert_Permutation. constructor; [lia | exact Hy].
  - split; [|split; assumption].
    constructor; [lia|]. eapply Forall_impl; [exact Hy|]. simpl. intros; lia.
Qed.

Lemma SliceStable_by_arrival_in_order (ps : list Process) :
  in_arrival_order (SliceStable by_arrival ps).
Proof.
  induction ps as [|p ps IH]; simpl; [exact I|].
  apply stable_insert_in_arrival_order, IH.
Qed.

(** ** Calls that return

    [returns m Q] is proved along the code of [m]: one rule per operation,
    applied by the tactic [wp]. *)

Lemma returns_ret {A} (a : A) (Q : A -> Prop) : Q a -> returns (Returned a) Q.
Proof. intros H. exists a. auto. Qed.

Lemma returns_bind {A B} (m : Outcome A) (f : A -> Outcome B) (Q : B -> Prop) :
  returns m (fun a => returns (f a) Q) -> returns (m ≫= f) Q.
Proof. intros (a & -> & H). exact H. Qed.

Lemma returns_weaken {A} (m : Outcome A) (P Q : A -> Prop) :
  returns m P -> (forall a, P a -> Q a) -> returns m Q.
Proof. intros (a & -> & H) HPQ. exists a. auto. Qed.

Lemma returns_index {A} (s : list A) (i : nat) (Q : A -> Prop) :
  (i < length s)%nat -> (forall x, s !! i = Some x -> Q x) -> returns (index s i) Q.
Proof. intros Hi HQ. destruct (index_lt s i Hi) as (x & Hx & ->). exists x. auto. Qed.

Lemma returns_store {A} (s : list A) (i : nat) (x : A) (Q : list A -> Prop) :
  (i < length s)%nat -> Q (<[i := x]> s) -> returns (store s i x) Q.
Proof. intros Hi HQ. rewrite store_Returned by exact Hi. eexists. eauto. Qed.

Lemma returns_update {A} (s : list A) (i : nat) (f : A -> A) (Q : list A -> Prop) :
  (i < length s)%nat -> (forall x, s !! i = Some x -> Q (<[i := f x]> s)) ->
  returns (update s i f) Q.
Proof.
  intros Hi HQ. destruct (lookup_lt_is_Some_2 s i Hi) as [x Hx].
  rewrite (update_Returned _ _ _ _ Hx). eexists. eauto.
Qed.

Lemma returns_insert_at {A} (s : list A) (i : nat) (x : A) (Q : list A -> Prop) :
  (i <= length s)%nat -> Q (take i s ++ x :: drop i s) -> returns (insert_at s i x) Q.
Proof. intros Hi HQ. rewrite insert_at_Returned by exact Hi. eexists. eauto. Qed.

Lemma returns_for_range {St} (body : nat -> St -> Outcome St) (Inv : nat -> St -> Prop)
    (n lo : nat) (s : St) (Q : St -> Prop) :
  Inv lo s ->
  (forall i t, (lo <= i < lo + n)%nat -> Inv i t -> returns (body i t) (Inv (S i))) ->
  (forall s', Inv (lo + n)%nat s' -> Q s') ->
  returns (for_range body lo n s) Q.
Proof.
  intros Hs Hbody HQ.
  destruct (for_range_invariant body Inv n lo s Hs Hbody) as (s' & E & Hs').
  exists s'. auto.
Qed.

Lemma returns_for_range_break {St} (body : nat -> St -> Outcome (Flow St))
    (Inv : St -> Prop) (n lo : nat) (s : St) (Q : St -> Prop) :
  Inv s ->
  (forall i t, (lo <= i < lo + n)%nat -> Inv t ->
               returns (body i t) (fun r => match r with Next t' | Break t' => Inv t' end)) ->
  (forall s', Inv s' -> Q s') ->
  returns (for_range_break body lo n s) Q.
Proof.
  intros Hs Hbody HQ.
  destruct (for_range_break_invariant body Inv n lo s Hs) as (s' & E & Hs').
  - intros i t Hi Ht. destruct (Hbody i t Hi Ht) as ([t' | t'] & E & Ht'); eauto.
  - exists s'. auto.
Qed.

Create Rewrite HintDb lengths.
#[local] Hint Rewrite @length_insert @length_app @length_take @length_drop @length_replicate
  @length_cons : lengths.

Ltac lengths := simpl in *; autorewrite with lengths in *; simpl in *; lia.

Ltac wp :=
  cbn beta iota;
  lazymatch goal with
  | |- returns (mbind _ _) _ => apply returns_bind
  | |- returns (index _ _) _ => apply returns_index; [lengths | intros ? ?]
  | |- returns (store _ _ _) _ => apply returns_store; [lengths | ]
  | |- returns (update _ _ _) _ => apply returns_update; [lengths | intros ? ?]
  | |- returns (insert_at _ _ _) _ => apply returns_insert_at; [lengths | ]
  | |- returns (Returned _) _ => apply returns_ret
  | |- returns (mret _) _ => apply returns_ret
  | |- returns (if decide ?P then _ else _) _ => destruct (decide P)
  | |- returns (if ?b then _ else _) _ => destruct b eqn:?
  | |- returns (match ?p with (_, _) => _ end) _ => destruct p eqn:?
  end.

(** ** The empty process list *)

(** C1, as stated, fails: on the empty list the round-robin scheduler
    panics at [processes[0]], and the first-come-first-serve scheduler
    returns with every footer number NaN. *)
Lemma empty_list_is_not_reported_undefined :
  RRSchedule "Round-robin" [] = Panicked IndexOutOfRange /\
  exists run, FCFSSchedule "First-come, first-serve" [] = Returned run /\
              averages_are_NaN (report run).
Proof.
  split; [reflexivity|]. eexists. split; [reflexivity|].
  repeat split; vm_compute; reflexivity.
Qed.

(** C1, amended: on the empty process list the first-come-first-serve,
    shortest-job-first and priority schedulers return without a panic, with
    an empty timeline, and hand the three footer numbers to the table as
    the quotient 0/0 of float64, that is NaN; there is no "undefined"
    report. *)
Theorem empty_list_averages_are_NaN (cap : nat) (ttl : string) :
  Forall (fun scheduler : list Process -> Outcome Run =>
            exists run, scheduler [] = Returned run /\
                        gantt (report run) = [] /\
                        averages_are_NaN (report run))
         [FCFSSchedule ttl; SJFSchedule ttl; SJFPrioritySchedule cap ttl].
Proof.
  repeat constructor; eexists; (split; [reflexivity|]);
    (split; [reflexivity|]); repeat split; vm_compute; reflexivity.
Qed.

(** ** The caller's slice *)

(** C2: the shortest-job-first scheduler sorts the caller's slice itself,
    before copying it; a list given out of arrival order comes back
    reordered. *)
Theorem SJF_reorders_the_callers_slice :
  processes_after <$> SJFSchedule "Shortest-job-first" [process 1 5 3 0; process 2 2 0 0]
  = Returned [process 2 2 0 0; process 1 5 3 0].
Proof. vm_compute. reflexivity. Qed.

(** The other three schedulers work on copies. *)
Lemma other_schedulers_keep_the_callers_slice (cap : nat) (ttl : string)
    (processes : list Process) (run : Run) :
  FCFSSchedule ttl processes = Returned run \/
  SJFPrioritySchedule cap ttl processes = Returned run \/
  RRSchedule ttl processes = Returned run ->
  processes_after run = processes.
Proof.
  unfold FCFSSchedule, SJFPrioritySchedule, RRSchedule.
  intros [H | [H | H]].
  - destruct (for_range _ _ _ _) in H; simpl in H; [|discriminate..].
    injection H as <-. reflexivity.
  - destruct (for_range_break _ _ _ _) in H; simpl in H; [|discriminate..].
    destruct (for_range _ _ _ _) as [[copyProc totalBurst]| |] in H; simpl in H;
      [|discriminate..].
    destruct (for_range _ _ _ _) in H; simpl in H; [|discriminate..].
    injection H as <-. reflexivity.
  - destruct (RR_quantum _) in H; simpl in H; [|discriminate..].
    destruct (for_range _ _ _ _) in H; simpl in H; [|discriminate..].
    destruct (for_range _ _ _ _) in H; simpl in H; [|discriminate..].
    injection H as <-. reflexivity.
Qed.

(** In [main] the reordering reaches the schedulers that run later: the
    priority and round-robin schedulers receive the sorted slice. *)
Lemma later_schedulers_see_the_sorted_slice :
  (fcfs ← FCFSSchedule "First-come, first-serve" [process 1 5 3 0; process 2 2 0 0];
   sjf ← SJFSchedule "Shortest-job-first" (processes_after fcfs);
   mret (ProcessID <$> processes_after fcfs, ProcessID <$> processes_after sjf))
  = Returned ([1; 2], [2; 1]).
Proof. vm_compute. reflexivity. Qed.

(** ** Shortest-job-first on the four jobs of the spec *)

(** C4: on [(1,6,0), (2,2,1), (3,8,2), (4,3,3)] the scheduler emits the
    slices (1: 0-6), (3: 6-6), (4: 6-12), (3: 9-17), not the slices
    (1: 0-6), (2: 6-8), (4: 8-11), (3: 11-19) of the claim. *)
Theorem SJF_timeline_of_four_jobs :
  timeline (SJFSchedule "Shortest-job-first" four_jobs)
  = Returned [mkTimeSlice 1 0 6; mkTimeSlice 3 6 6; mkTimeSlice 4 6 12; mkTimeSlice 3 9 17].
Proof. vm_compute. reflexivity. Qed.

(** C3: on the same four jobs the timeline has no slice for process 2
    (arrived at 1, burst 2, the shortest job at the decision point 6), two
    slices for process 3, and a slice for process 4 twice as long as its
    burst: not one slice per process, and not the shortest job first. *)
Theorem SJF_is_not_one_slice_per_process :
  (fun g => (length (slices_of 1 g), length (slices_of 2 g),
             length (slices_of 3 g), length (slices_of 4 g), time_given 4 g))
    <$> timeline (SJFSchedule "Shortest-job-first" four_jobs)
  = Returned (1%nat, 0%nat, 2%nat, 1%nat, 6).
Proof. vm_compute. reflexivity. Qed.

(** ** CPU time per process *)

(** C7: with three jobs of falling priority number arriving at 0, 1 and 2
    the priority scheduler cuts the first job's burst from 5 to 4 and never
    schedules the part it cut off: the slices of process 1 add up to 4.
    The same sum is wrong in the first-come-first-serve scheduler when two
    jobs arrive at time 0 (process 2, burst 3, gets 8), and in the
    shortest-job-first scheduler on the four jobs above (process 2, burst
    2, gets 0). *)
Theorem slices_do_not_add_up_to_the_burst (cap : nat) :
  time_given 1 <$> timeline (SJFPrioritySchedule cap "Priority"
                               [process 1 5 0 3; process 2 3 1 2; process 3 2 2 1])
  = Returned 4 /\
  time_given 2 <$> timeline (FCFSSchedule "First-come, first-serve"
                               [process 1 5 0 0; process 2 3 0 0])
  = Returned 8 /\
  time_given 2 <$> timeline (SJFSchedule "Shortest-job-first" four_jobs)
  = Returned 0.
Proof. repeat split; vm_compute; reflexivity. Qed.

(** ** Loading processes *)

Lemma mustStrToInt_Some (s : string) (v : Z) :
  ParseInt s = Some v -> mustStrToInt s = Returned v.
Proof. unfold mustStrToInt. intros ->. reflexivity. Qed.

(** C10, as stated, fails: a record of one field that is not a number
    takes the format-error exit (it does not panic), and an input without
    records returns the empty list. *)
Lemma short_records_need_not_panic :
  loadProcesses (CsvRows [["abc"%string]]) = Exited 1 /\
  loadProcesses (CsvRows [["7"%string; "x"%string]]) = Exited 1 /\
  loadProcesses (CsvRows []) = Returned (Processes []).
Proof. repeat split; vm_compute; reflexivity. Qed.

(** C10, amended: when the first record of the CSV input has one or two
    fields and each of them is a decimal int64, [loadProcesses] panics with
    an index out of range at [rows[0][1]] or [rows[0][2]]; it returns
    neither an error nor a list and does not take the exit of
    [mustStrToInt]. *)
Theorem short_first_record_panics (first : list string) (rest : list (list string)) :
  (1 <= length first < 3)%nat ->
  Forall (fun field => is_Some (ParseInt field)) first ->
  loadProcesses (CsvRows (first :: rest)) = Panicked IndexOutOfRange.
Proof.
  intros Hlen Hok.
  destruct first as [|a [|b [|c more]]]; simpl in Hlen; try lia.
  - inversion Hok as [|? ? [va Ea] _]; subst.
    unfold loadProcesses. simpl. unfold loadProcesses_row. simpl.
    rewrite (mustStrToInt_Some _ _ Ea). reflexivity.
  - inversion Hok as [|? ? [va Ea] Hok']; subst.
    inversion Hok' as [|? ? [vb Eb] _]; subst.
    unfold loadProcesses. simpl. unfold loadProcesses_row. simpl.
    rewrite (mustStrToInt_Some _ _ Ea). simpl.
    rewrite (mustStrToInt_Some _ _ Eb). reflexivity.
Qed.

(** Two records of two numbers each. *)
Lemma short_first_record_panics_witness :
  loadProcesses (CsvRows [["1"%string; "5"%string]; ["2"%string; "3"%string]])
  = Panicked IndexOutOfRange.
Proof.
  apply (short_first_record_panics ["1"%string; "5"%string] [["2"%string; "3"%string]]).
  - simpl. lia.
  - repeat constructor; vm_compute; eexists; reflexivity.
Defined.

(** ** First-come-first-serve, process by process *)

Lemma total_burst_app (a b : list Process) :
  total_burst (a ++ b) = total_burst a + total_burst b.
Proof.
  unfold total_burst. rewrite fmap_app, foldr_app.
  induction (BurstDuration <$> a) as [|z l IH]; simpl; [reflexivity|].
  rewrite IH. lia.
Qed.

(** Sums of bursts that are not negative. *)
Lemma total_burst_nonneg (ps : list Process) :
  Forall (fun p => 0 <= BurstDuration p) ps -> 0 <= total_burst ps.
Proof.
  unfold total_burst. induction 1 as [|p ps Hp _ IH]; csimpl; lia.
Qed.

(** The service time grows by the burst of the process served. *)
Lemma service_S (ps : list Process) (i : nat) (p : Process) :
  ps !! i = Some p -> service ps (S i) = service ps i + BurstDuration p.
Proof.
  intros H. unfold service. rewrite (take_S_r _ _ _ H), total_burst_app.
  unfold total_burst. simpl. lia.
Qed.

(** With bursts that are not negative, every partial sum lies between 0 and
    the total. *)
Lemma service_bounds (ps : list Process) (i : nat) :
  Forall (fun p => 0 <= BurstDuration p) ps ->
  0 <= service ps i <= total_burst ps.
Proof.
  intros H. unfold service.
  rewrite <- (take_drop i ps) at 3. rewrite total_burst_app.
  assert (0 <= total_burst (take i ps)) by (apply total_burst_nonneg, Forall_take, H).
  assert (0 <= total_burst (drop i ps)) by (apply total_burst_nonneg, Forall_drop, H).
  lia.
Qed.

Section FCFS.
Variable ttl : string.
Variable ps : list Process.
Hypothesis bursts : Forall (fun p => 0 <= BurstDuration p) ps.
Hypothesis total : total_burst ps <= max_int64.
Hypothesis arrivals :
  forall i p, ps !! i = Some p ->
              0 < ArrivalTime p <= max_int64 \/ (i = 0%nat /\ ArrivalTime p = 0).

(** One iteration of the loop of [FCFSSchedule] returns and keeps the
    invariant: under the section's hypotheses no addition wraps. *)
Lemma FCFS_body_keeps_inv (i : nat) (v : FCFSVars) :
  (i < length ps)%nat -> FCFS_inv ps i v ->
  exists v', FCFS_body ps i v = Returned v' /\ FCFS_inv ps (S i) v'.
Proof.
  intros Hi (Hs & Hrows & Hg & Hw & Hdone).
  destruct (index_lt ps i Hi) as (p & Hp & Ep).
  unfold FCFS_body. rewrite Ep. simpl.
  rewrite store_Returned by lia. simpl.
  pose proof (service_bounds ps i bursts) as Bi.
  pose proof (service_bounds ps (S i) bursts) as BSi.
  rewrite (service_S _ _ _ Hp) in BSi.
  assert (0 <= BurstDuration p) as Bp.
  { rewrite Forall_forall in bursts. apply bursts. eapply list_elem_of_lookup_2, Hp. }
  unfold max_int64 in *.
  assert ((if 0 <? ArrivalTime p then sub64 (f_serviceTime v) (ArrivalTime p)
           else f_waitingTime v) = service ps i - ArrivalTime p
          /\ 0 <= ArrivalTime p <= 2 ^ 63 - 1) as [-> Ha].
  { destruct (arrivals i p Hp) as [Ha | [-> Ha]].
    - destruct (Z.ltb_spec 0 (ArrivalTime p)); [|lia]. rewrite Hs.
      split; [|lia]. apply sub64_small. unfold in_int64, min_int64, max_int64. lia.
    - rewrite Ha. simpl. rewrite (Hw eq_refl). unfold service. simpl. unfold total_burst. simpl. lia. }
  eexists. split; [reflexivity|].
  assert (add64 (service ps i - ArrivalTime p) (ArrivalTime p) = service ps i) as Estart.
  { rewrite add64_small; unfold in_int64, min_int64, max_int64; lia. }
  assert (add64 (BurstDuration p) (service ps i - ArrivalTime p)
          = BurstDuration p + (service ps i - ArrivalTime p)) as Eturn.
  { rewrite add64_small; unfold in_int64, min_int64, max_int64; lia. }
  assert (add64 (add64 (BurstDuration p) (ArrivalTime p)) (service ps i - ArrivalTime p)
          = service ps i + BurstDuration p) as Ecompl.
  { unfold add64. rewrite wrap64_add_l. rewrite wrap64_small; unfold in_int64, min_int64, max_int64; lia. }
  assert (add64 (f_serviceTime v) (BurstDuration p) = service ps i + BurstDuration p) as Eserv.
  { rewrite Hs, add64_small; unfold in_int64, min_int64, max_int64; lia. }
  rewrite Estart, Eturn, Ecompl, Eserv.
  unfold FCFS_inv. simpl. repeat split.
  - rewrite (service_S _ _ _ Hp). reflexivity.
  - rewrite length_insert. exact Hrows.
  - rewrite length_app. simpl. lia.
  - discriminate.
  - destruct (decide (j = i)) as [-> | Hne].
    + rewrite lookup_app_r by lia. rewrite Hg, Nat.sub_diag. simpl.
      rewrite Hp in H0. injection H0 as <-. reflexivity.
    + rewrite lookup_app_l by lia. apply Hdone; [lia | assumption].
  - destruct (decide (j = i)) as [-> | Hne].
    + rewrite list_lookup_insert_eq by lia.
      rewrite Hp in H0. injection H0 as <-. reflexivity.
    + rewrite list_lookup_insert_ne by lia. apply Hdone; [lia | assumption].
Qed.

(** The scheduler returns; slice and row [i] are those of the process at
    position [i] of the input. *)
Lemma FCFS_in_input_order :
  exists run, FCFSSchedule ttl ps = Returned run /\
    processes_after run = ps /\
    length (gantt (report run)) = length ps /\
    length (schedule (report run)) = length ps /\
    forall i p, ps !! i = Some p ->
                gantt (report run) !! i = Some (FCFS_slice ps i p) /\
                schedule (report run) !! i = Some (FCFS_row ps i p).
Proof.
  destruct (for_range_invariant (FCFS_body ps) (FCFS_inv ps) (length ps) 0 (FCFS_init ps))
    as (v & E & Hs & Hrows & Hg & _ & Hall).
  - unfold FCFS_inv, FCFS_init. simpl.
    repeat split; try lia; [apply length_replicate | intros; lia ..].
  - intros i t Hi. apply FCFS_body_keeps_inv. lia.
  - unfold FCFSSchedule. rewrite E. simpl. eexists. split; [reflexivity|]. simpl.
    repeat split; try assumption.
    + apply Hall; [|assumption]. apply lookup_lt_Some in H. lia.
    + apply Hall; [|assumption]. apply lookup_lt_Some in H. lia.
Qed.
End FCFS.

(** Sorting a list that is in arrival order changes nothing. *)
Lemma SliceStable_in_arrival_order (ps : list Process) :
  in_arrival_order ps -> SliceStable by_arrival ps = ps.
Proof.
  induction ps as [|p rest IH]; intros H; simpl; [reflexivity|].
  destruct H as [Hp Hrest]. rewrite (IH Hrest).
  destruct rest as [|q rest']; simpl; [reflexivity|].
  apply Forall_cons in Hp as [Hq _]. unfold by_arrival.
  destruct (Z.ltb_spec (ArrivalTime q) (ArrivalTime p)); [lia | reflexivity].
Qed.

Lemma FCFS_spec_slices_length (ps : list Process) (previous : Z) :
  length (FCFS_spec_slices previous ps) = length ps.
Proof. revert previous. induction ps as [|p ps IH]; intros previous; simpl; [|rewrite IH]; reflexivity. Qed.

(** When every process has arrived by the completion of its predecessor,
    the spec's start is that completion. *)
Lemma FCFS_spec_slices_lookup (ps : list Process) (previous : Z) (k : nat) (p : Process) :
  (forall k p, ps !! k = Some p -> ArrivalTime p <= previous + total_burst (take k ps)) ->
  ps !! k = Some p ->
  FCFS_spec_slices previous ps !! k
  = Some (mkTimeSlice (ProcessID p) (previous + total_burst (take k ps))
            (previous + total_burst (take k ps) + BurstDuration p)).
Proof.
  revert previous k. induction ps as [|p0 ps IH]; intros previous k Harr Hk; [inversion Hk|].
  pose proof (Harr 0%nat p0 eq_refl) as H0. unfold total_burst in H0. simpl in H0.
  destruct k as [|k]; simpl in *.
  - injection Hk as <-. unfold total_burst. simpl.
    rewrite Z.max_r by lia. f_equal. f_equal; lia.
  - rewrite Z.max_r by lia.
    assert (forall j, total_burst (take (S j) (p0 :: ps))
                      = BurstDuration p0 + total_burst (take j ps)) as Hcons.
    { intros j. unfold total_burst. reflexivity. }
    rewrite (IH (previous + BurstDuration p0) k).
    + change (total_burst (p0 :: take k ps)) with (total_burst (take (S k) (p0 :: ps))).
      rewrite Hcons. f_equal. f_equal; lia.
    + intros j pj Hj. specialize (Harr (S j) pj Hj). rewrite Hcons in Harr. lia.
    + exact Hk.
Qed.

(** Then a timeline with the slices of the code is the timeline of the
    spec. *)
Lemma FCFS_slice_list (ps : list Process) (g : list TimeSlice) :
  length g = length ps ->
  (forall i p, ps !! i = Some p -> ArrivalTime p <= service ps i) ->
  (forall i p, ps !! i = Some p -> g !! i = Some (FCFS_slice ps i p)) ->
  g = FCFS_spec_slices 0 ps.
Proof.
  intros Hlen Harr Hg. apply list_eq. intros i.
  destruct (ps !! i) as [p|] eqn:Hp.
  - rewrite (Hg i p Hp), (FCFS_spec_slices_lookup ps 0 i p); [reflexivity | | exact Hp].
    intros k q Hq. specialize (Harr k q Hq). unfold service in Harr. lia.
  - apply lookup_ge_None in Hp.
    rewrite !(proj2 (lookup_ge_None _ _)); [reflexivity | |]; rewrite ?FCFS_spec_slices_length; lia.
Qed.

(** C6, as stated, fails.  A lone process that arrives at 10 is started at
    0, where the claim starts it at max(10, 0); and two processes given
    out of arrival order are served in the order given, not sorted. *)
Lemma FCFS_is_not_the_timeline_of_the_spec :
  timeline (FCFSSchedule "First-come, first-serve" [process 1 5 10 0])
  = Returned [mkTimeSlice 1 0 5] /\
  FCFS_spec [process 1 5 10 0] = [mkTimeSlice 1 10 15] /\
  timeline (FCFSSchedule "First-come, first-serve" [process 1 5 2 0; process 2 2 1 0])
  = Returned [mkTimeSlice 1 0 5; mkTimeSlice 2 5 7] /\
  FCFS_spec [process 1 5 2 0; process 2 2 1 0] = [mkTimeSlice 2 1 3; mkTimeSlice 1 3 8].
Proof. repeat split; vm_compute; reflexivity. Qed.

(** C6, amended: the first-come-first-serve scheduler does not sort; it
    takes the processes in the order of the input list.  When the bursts
    are not negative and their sum fits an int64, and every process either
    arrives after time 0 or is the first of the list and arrives at 0, then
    for each process in that order: start = completion of the previous
    process (the sum of the bursts before it, 0 for the first), wait =
    start - arrival_time, completion = start + burst_duration, and exactly
    one slice (start, completion) is emitted per process.  The start is the
    claim's max(arrival_time, previous completion) only when the process
    has arrived by then: if moreover the list is in arrival order and every
    process has arrived when its predecessor completes, the timeline is the
    one of the claim. *)
Theorem FCFS_serves_in_input_order (ttl : string) (ps : list Process) :
  Forall (fun p => 0 <= BurstDuration p) ps ->
  total_burst ps <= max_int64 ->
  (forall i p, ps !! i = Some p ->
               0 < ArrivalTime p <= max_int64 \/ (i = 0%nat /\ ArrivalTime p = 0)) ->
  exists run,
    FCFSSchedule ttl ps = Returned run /\
    length (gantt (report run)) = length ps /\
    (forall i p, ps !! i = Some p ->
       let start := service ps i in
       let wait := start - ArrivalTime p in
       let completion := start + BurstDuration p in
       gantt (report run) !! i = Some (mkTimeSlice (ProcessID p) start completion) /\
       schedule (report run) !! i
       = Some (table_row p wait (BurstDuration p + wait) completion)) /\
    (in_arrival_order ps ->
     (forall i p, ps !! i = Some p -> ArrivalTime p <= service ps i) ->
     gantt (report run) = FCFS_spec ps).
Proof.
  intros Hbursts Htotal Harrivals.
  destruct (FCFS_in_input_order ttl ps Hbursts Htotal Harrivals)
    as (run & E & _ & Hg & _ & Hall).
  exists run. repeat split; try assumption; try (apply (Hall i p); assumption).
  intros Hsorted Harrived. unfold FCFS_spec.
  rewrite (SliceStable_in_arrival_order ps Hsorted).
  apply FCFS_slice_list; [exact Hg | exact Harrived |].
  intros i p Hp. apply (Hall i p Hp).
Qed.

(** The input of the spec's own first-come-first-serve example. *)
Lemma FCFS_serves_in_input_order_witness :
  exists run,
    FCFSSchedule "First-come, first-serve" [process 1 5 0 0; process 2 3 2 0; process 3 1 4 0]
    = Returned run /\
    length (gantt (report run)) = 3%nat /\
    gantt (report run) = [mkTimeSlice 1 0 5; mkTimeSlice 2 5 8; mkTimeSlice 3 8 9].
Proof.
  destruct (FCFS_serves_in_input_order "First-come, first-serve"
              [process 1 5 0 0; process 2 3 2 0; process 3 1 4 0])
    as (run & E & Hlen & _ & Hspec).
  - repeat constructor; simpl; lia.
  - vm_compute. discriminate.
  - intros [|[|[|i]]] p Hp; simpl in Hp; try discriminate;
      injection Hp as <-; simpl; unfold max_int64; lia.
  - exists run. split; [exact E|]. split; [exact Hlen|].
    rewrite Hspec; [reflexivity | repeat constructor; simpl; lia |].
    intros [|[|[|i]]] p Hp; simpl in Hp; try discriminate;
      injection Hp as <-; vm_compute; discriminate.
Defined.

(** ** Round-robin *)

Lemma RR_quantum_least (ps : list Process) :
  ps <> [] -> exists q, RR_quantum ps = Returned q /\ least_burst ps q.
Proof.
  intros Hne.
  assert (exists p0, ps !! 0%nat = Some p0) as [p0 H0].
  { destruct ps as [|p0 ps']; [congruence | eauto]. }
  unfold RR_quantum. rewrite (index_Returned _ _ _ H0). simpl.
  destruct (for_range_invariant (RR_lower ps)
              (fun i q => (exists p, p ∈ ps /\ BurstDuration p = q) /\
                          forall j p, (j < i)%nat -> ps !! j = Some p -> q <= BurstDuration p)
              (length ps) 0 (BurstDuration p0)) as (q & E & Hin & Hle).
  - split; [|intros; lia]. exists p0. split; [eapply list_elem_of_lookup_2, H0 | reflexivity].
  - intros i q Hi [(p & Hp & Hq) Hle].
    destruct (index_lt ps i ltac:(lia)) as (pi & Hpi & Epi).
    unfold RR_lower. rewrite Epi. simpl.
    destruct (Z.ltb_spec (BurstDuration pi) q).
    + eexists. split; [reflexivity|]. split.
      * exists pi. split; [eapply list_elem_of_lookup_2, Hpi | reflexivity].
      * intros j p' Hj Hp'. destruct (decide (j = i)) as [-> | Hne'].
        -- rewrite Hpi in Hp'. injection Hp' as <-. lia.
        -- specialize (Hle j p' ltac:(lia) Hp'). lia.
    + eexists. split; [reflexivity|]. split.
      * exists p. auto.
      * intros j p' Hj Hp'. destruct (decide (j = i)) as [-> | Hne'].
        -- rewrite Hpi in Hp'. injection Hp' as <-. lia.
        -- apply (Hle j); [lia | assumption].
  - exists q. split; [exact E|]. split; [exact Hin|].
    intros p Hp. apply list_elem_of_lookup in Hp as [j Hj].
    apply (Hle j p); [|exact Hj]. apply lookup_lt_Some in Hj. simpl. lia.
Qed.

(** One iteration of the loop that builds the ready queue, as a function:
    it returns whenever the queue is at least [i] long. *)
Lemma RR_split_step (q : Z) (i : nat) (v : RRVars) (x : Process) :
  q_copyQueue v !! i = Some x -> (i <= length (q_readyQueue v))%nat ->
  exists c, RR_split 0 q i v
            = Returned (mkRRVars (<[i := c]> (q_copyQueue v)) (RR_enqueue q i x (q_readyQueue v))).
Proof.
  intros Hx Hi. unfold RR_split, RR_enqueue.
  assert (i < length (q_copyQueue v))%nat as Hlt by (eapply lookup_lt_Some, Hx).
  rewrite (index_Returned _ _ _ Hx). simpl.
  rewrite (update_Returned _ _ _ _ Hx). simpl.
  rewrite (index_Returned _ _ (set_startingTime 0 x)) by (apply list_lookup_insert_eq, Hlt).
  simpl. destruct (BurstDuration x =? q).
  - eexists. reflexivity.
  - repeat (erewrite update_Returned by (apply list_lookup_insert_eq; rewrite ?length_insert; exact Hlt); simpl).
    rewrite !list_insert_insert_eq.
    erewrite index_Returned by (apply list_lookup_insert_eq; exact Hlt). simpl.
    erewrite update_Returned by (apply list_lookup_insert_eq; exact Hlt). simpl.
    rewrite !list_insert_insert_eq.
    erewrite index_Returned by (apply list_lookup_insert_eq; exact Hlt). simpl.
    rewrite insert_at_Returned by exact Hi. simpl.
    eexists. reflexivity.
Qed.

(** Every iteration adds at least one entry, so position [i] exists when
    iteration [i] inserts there. *)
Lemma RR_enqueue_length (q : Z) (i : nat) (x : Process) (rq : list Process) :
  (i <= length rq)%nat -> (S i <= length (RR_enqueue q i x rq))%nat.
Proof.
  intros H. unfold RR_enqueue. destruct (_ =? _).
  - rewrite length_app. simpl. lia.
  - rewrite length_app, length_insert_at by exact H. simpl. lia.
Qed.

(** The loop returns, with the queue [RR_queue] computes. *)
Lemma RR_split_loop (q : Z) (ps : list Process) :
  exists v, for_range (RR_split 0 q) 0 (length ps) (mkRRVars ps []) = Returned v /\
            q_readyQueue v = RR_queue q 0 ps [].
Proof.
  destruct (for_range_invariant (RR_split 0 q)
              (fun i v => length (q_copyQueue v) = length ps /\
                          (forall j, (i <= j)%nat -> q_copyQueue v !! j = ps !! j) /\
                          (i <= length (q_readyQueue v))%nat /\
                          RR_queue q i (drop i ps) (q_readyQueue v) = RR_queue q 0 ps [])
              (length ps) 0 (mkRRVars ps [])) as (v & E & _ & _ & _ & Hq).
  - simpl. rewrite drop_0. auto with lia.
  - intros i v Hi (Hlen & Hrest & Hrq & Hq).
    destruct (lookup_lt_is_Some_2 ps i ltac:(lia)) as [x Hx].
    destruct (RR_split_step q i v x) as [c ->]; [rewrite Hrest by lia; exact Hx | exact Hrq |].
    eexists. split; [reflexivity|]. simpl. repeat split.
    + rewrite length_insert. exact Hlen.
    + intros j Hj. rewrite list_lookup_insert_ne by lia. apply Hrest. lia.
    + apply RR_enqueue_length, Hrq.
    + rewrite <- Hq, (drop_S _ _ _ Hx). reflexivity.
  - exists v. split; [exact E|]. simpl in Hq. rewrite drop_all in Hq. simpl in Hq. exact Hq.
Qed.

Section RR_queue_facts.
Variable q : Z.
Hypothesis q_positive : 0 < q.

(** The two parts of a split burst. *)
Lemma RR_first_burst (x : Process) : fits q x -> BurstDuration (RR_first q x) = q.
Proof.
  unfold fits, max_int64. intros H. unfold RR_first. simpl.
  rewrite (sub64_small _ q) by (unfold in_int64, min_int64, max_int64; lia).
  rewrite sub64_small by (unfold in_int64, min_int64, max_int64; lia). lia.
Qed.

Lemma RR_rest_burst (x : Process) : fits q x -> BurstDuration (RR_rest q x) = BurstDuration x - q.
Proof.
  unfold fits, max_int64. intros H. unfold RR_rest. simpl.
  apply sub64_small. unfold in_int64, min_int64, max_int64. lia.
Qed.

(** Queueing a process leaves the entries of the other ids as they are. *)
Lemma RR_enqueue_other (i : nat) (x : Process) (rq : list Process) (pid : Z) :
  ProcessID x <> pid -> entries_of pid (RR_enqueue q i x rq) = entries_of pid rq.
Proof.
  intros Hne. unfold entries_of, RR_enqueue. destruct (_ =? _).
  - rewrite filter_app, filter_cons_False by (simpl; exact Hne).
    rewrite filter_nil, app_nil_r. reflexivity.
  - rewrite !filter_app, filter_cons_False by (simpl; exact Hne).
    rewrite filter_cons_False by (simpl; exact Hne).
    rewrite filter_nil, app_nil_r, <- filter_app, take_drop. reflexivity.
Qed.

(** Queueing a process whose id is not in the queue yet puts its parts
    there, the first before the rest. *)
Lemma RR_enqueue_own (i : nat) (x : Process) (rq : list Process) :
  fits q x -> entries_of (ProcessID x) rq = [] ->
  BurstDuration <$> entries_of (ProcessID x) (RR_enqueue q i x rq) = RR_parts q x.
Proof.
  intros Hx Hnone.
  assert (entries_of (ProcessID x) (take i rq) = [] /\
          entries_of (ProcessID x) (drop i rq) = []) as [Ht Hd].
  { apply app_eq_nil. unfold entries_of. rewrite <- filter_app, take_drop. exact Hnone. }
  unfold RR_enqueue, RR_parts. destruct (Z.eqb_spec (BurstDuration x) q) as [E | E].
  - unfold entries_of in *. rewrite filter_app, Hnone, filter_cons_True by reflexivity.
    simpl. rewrite E. reflexivity.
  - unfold entries_of in *.
    rewrite !filter_app, Ht, filter_cons_True by reflexivity.
    rewrite Hd, (filter_cons_True _ (RR_rest q x)) by reflexivity.
    rewrite filter_nil. cbn [app fmap list_fmap].
    rewrite RR_first_burst, RR_rest_burst by exact Hx. reflexivity.
Qed.

Lemma RR_queue_other (xs : list Process) (i : nat) (rq : list Process) (pid : Z) :
  pid ∉ ProcessID <$> xs -> entries_of pid (RR_queue q i xs rq) = entries_of pid rq.
Proof.
  revert i rq. induction xs as [|x xs IH]; intros i rq Hpid; simpl; [reflexivity|].
  rewrite fmap_cons, not_elem_of_cons in Hpid. destruct Hpid as [Hne Hpid].
  rewrite IH by exact Hpid. apply RR_enqueue_other. congruence.
Qed.

(** With distinct ids, the entries of a process in the final queue are its
    parts. *)
Lemma RR_queue_parts (xs : list Process) (i : nat) (rq : list Process) (x : Process) :
  NoDup (ProcessID <$> xs) -> Forall (fits q) xs ->
  (forall y, y ∈ xs -> entries_of (ProcessID y) rq = []) ->
  x ∈ xs ->
  BurstDuration <$> entries_of (ProcessID x) (RR_queue q i xs rq) = RR_parts q x.
Proof.
  revert i rq. induction xs as [|y xs IH]; intros i rq Hnodup Hfits Hnone Hx.
  - inversion Hx.
  - rewrite fmap_cons, NoDup_cons in Hnodup. destruct Hnodup as [Hy Hnodup].
    apply Forall_cons in Hfits as [Hfy Hfits]. simpl.
    apply elem_of_cons in Hx as [-> | Hx].
    + rewrite RR_queue_other by exact Hy.
      apply RR_enqueue_own; [exact Hfy | apply Hnone; left].
    + apply IH; try assumption.
      intros z Hz. rewrite RR_enqueue_other.
      * apply Hnone. right. exact Hz.
      * intros E. apply Hy. rewrite E. apply list_elem_of_fmap_2. exact Hz.
Qed.

(** The parts of a process add up to its burst, and none is negative. *)
Lemma RR_enqueue_total (i : nat) (x : Process) (rq : list Process) :
  fits q x -> total_burst (RR_enqueue q i x rq) = total_burst rq + BurstDuration x.
Proof.
  intros Hx. unfold RR_enqueue. destruct (Z.eqb_spec (BurstDuration x) q) as [E | E].
  - rewrite total_burst_app. unfold total_burst. simpl. lia.
  - rewrite total_burst_app.
    change (take i rq ++ RR_first q x :: drop i rq) with (take i rq ++ [RR_first q x] ++ drop i rq).
    rewrite !total_burst_app. rewrite <- (take_drop i rq) at 3. rewrite total_burst_app.
    unfold total_burst at 2 4. simpl.
    change (sub64 (BurstDuration x) (sub64 (BurstDuration x) q))
      with (BurstDuration (RR_first q x)).
    change (sub64 (BurstDuration x) q) with (BurstDuration (RR_rest q x)).
    rewrite RR_first_burst, RR_rest_burst by exact Hx. lia.
Qed.

Lemma RR_enqueue_nonneg (i : nat) (x : Process) (rq : list Process) :
  fits q x -> Forall (fun e => 0 <= BurstDuration e) rq ->
  Forall (fun e => 0 <= BurstDuration e) (RR_enqueue q i x rq).
Proof.
  intros Hx Hrq. pose proof (RR_first_burst x Hx). pose proof (RR_rest_burst x Hx).
  unfold fits in Hx. unfold RR_enqueue. destruct (_ =? _).
  - apply Forall_app. split; [exact Hrq|]. repeat constructor. simpl. lia.
  - apply Forall_app. split; [|repeat constructor; lia].
    apply Forall_app. split; [apply Forall_take, Hrq|].
    constructor; [lia | apply Forall_drop, Hrq].
Qed.

Lemma RR_queue_total (xs : list Process) (i : nat) (rq : list Process) :
  Forall (fits q) xs ->
  Forall (fun e => 0 <= BurstDuration e) rq ->
  total_burst (RR_queue q i xs rq) = total_burst rq + total_burst xs /\
  Forall (fun e => 0 <= BurstDuration e) (RR_queue q i xs rq).
Proof.
  revert i rq. induction xs as [|x xs IH]; intros i rq Hfits Hrq; simpl.
  - unfold total_burst at 3. simpl. split; [lia | exact Hrq].
  - apply Forall_cons in Hfits as [Hx Hfits].
    destruct (IH (S i) (RR_enqueue q i x rq) Hfits (RR_enqueue_nonneg i x rq Hx Hrq))
      as [-> Hall].
    split; [|exact Hall]. rewrite RR_enqueue_total by exact Hx.
    change (x :: xs) with ([x] ++ xs). rewrite (total_burst_app [x]).
    unfold total_burst at 4. simpl. lia.
Qed.
End RR_queue_facts.

(** Reading and updating the element just written. *)
Lemma index_insert {A} (s : list A) (i : nat) (a : A) :
  (i < length s)%nat -> index (<[i := a]> s) i = Returned a.
Proof. intros H. apply index_Returned, list_lookup_insert_eq, H. Qed.

Lemma update_insert {A} (s : list A) (i : nat) (a : A) (f : A -> A) :
  (i < length s)%nat -> update (<[i := a]> s) i f = Returned (<[i := f a]> s).
Proof.
  intros H. rewrite (update_Returned _ _ _ a) by (apply list_lookup_insert_eq, H).
  rewrite list_insert_insert_eq. reflexivity.
Qed.

(** The slice of one more entry starts at the service time so far. *)
Lemma back_to_back_snoc (start : Z) (es : list Process) (e : Process) :
  back_to_back start (es ++ [e])
  = back_to_back start es
      ++ [mkTimeSlice (ProcessID e) (service64 start es)
            (add64 (service64 start es) (BurstDuration e))].
Proof.
  revert start. induction es as [|x es IH]; intros start; simpl; [reflexivity|].
  rewrite IH. reflexivity.
Qed.

Lemma service64_snoc (start : Z) (es : list Process) (e : Process) :
  service64 start (es ++ [e]) = add64 (service64 start es) (BurstDuration e).
Proof. unfold service64. rewrite fold_left_app. reflexivity. Qed.

(** One iteration of the report loop, as a function of the entry [e] it
    reads: the slice starts at the service time and lasts the burst of the
    entry; the wait is the service time minus the arrival time, or, for
    the finished part of a split process, minus the start of the entry
    before it. *)
Lemma RR_report_step (i : nat) (v : RRReport) (e : Process) :
  rr_readyQueue v !! i = Some e ->
  let s := rr_serviceTime v in
  exists e' wait tw tta lc,
    RR_report i v
    = Returned (mkRRReport (add64 s (BurstDuration e)) (<[i := e']> (rr_readyQueue v))
                  (mkTally tw tta lc
                     (t_schedule (rr_tally v)
                        ++ [table_row e wait (add64 (BurstDuration e) wait)
                              (add64 s (BurstDuration e))])
                     (t_gantt (rr_tally v)
                        ++ [mkTimeSlice (ProcessID e) s (add64 s (BurstDuration e))]))) /\
    startingTime e' = s /\
    (wait = sub64 s (ArrivalTime e) \/
     exists previous, (1 <= i)%nat /\ rr_readyQueue v !! (i - 1)%nat = Some previous /\
                      wait = sub64 s (startingTime previous)).
Proof.
  intros He s. subst s.
  assert (i < length (rr_readyQueue v))%nat as Hlt by (eapply lookup_lt_Some, He).
  unfold RR_report.
  rewrite (update_Returned _ _ _ _ He). simpl.
  rewrite update_insert by exact Hlt. simpl.
  rewrite update_insert by exact Hlt. simpl.
  rewrite !index_insert by exact Hlt.
  destruct (decide (1 <= i)%nat) as [Hi | Hi]; simpl;
    [destruct (hasMultiple e) eqn:Hm; simpl; [destruct (isDone e) eqn:Hd; simpl|]|].
  - destruct (lookup_lt_is_Some_2 (rr_readyQueue v) (i - 1) ltac:(lia)) as [prev Hprev].
    rewrite (index_Returned _ _ prev)
      by (rewrite list_lookup_insert_ne by lia; exact Hprev). simpl.
    rewrite update_insert by exact Hlt. simpl.
    rewrite index_insert by exact Hlt. simpl. rewrite Hd.
    do 5 eexists. split; [reflexivity|]. simpl. split; [reflexivity|].
    right. exists prev. auto.
  - rewrite update_insert by exact Hlt. simpl.
    rewrite index_insert by exact Hlt. simpl. rewrite Hd.
    do 5 eexists. split; [reflexivity|]. simpl. auto.
  - rewrite ?index_insert by exact Hlt. simpl.
    do 5 eexists. split; [reflexivity|]. simpl. auto.
  - rewrite ?index_insert by exact Hlt. simpl.
    do 5 eexists. split; [reflexivity|]. simpl. auto.
Qed.

(** The report loop keeps its invariant. *)
Lemma RR_report_keeps_inv (rq0 : list Process) (t0 : Tally) (k : nat) (v : RRReport) :
  (k < length rq0)%nat -> RR_report_inv rq0 t0 k v ->
  exists v', RR_report k v = Returned v' /\ RR_report_inv rq0 t0 (S k) v'.
Proof.
  intros Hk (Hs & Hlen & Hrest & Hdone & Hg & rows & Hrows & Hn & Hall).
  destruct (lookup_lt_is_Some_2 rq0 k Hk) as [e He].
  destruct (RR_report_step k v e ltac:(rewrite Hrest by lia; exact He))
    as (e' & wait & tw & tta & lc & -> & He' & Hwait).
  eexists. split; [reflexivity|]. unfold RR_report_inv. simpl.
  rewrite (take_S_r _ _ _ He), service64_snoc, back_to_back_snoc, <- Hs.
  split; [reflexivity|]. split; [rewrite length_insert; exact Hlen|].
  split; [intros j Hj; rewrite list_lookup_insert_ne by lia; apply Hrest; lia|].
  split; [|split].
  - intros j Hj. destruct (decide (j = k)) as [-> | Hne].
    + exists e'. rewrite list_lookup_insert_eq by lia. rewrite He', Hs. auto.
    + rewrite list_lookup_insert_ne by lia. apply Hdone. lia.
  - rewrite Hg, app_assoc. reflexivity.
  - eexists. split; [rewrite Hrows, <- app_assoc; reflexivity|].
    split; [rewrite length_app; simpl; lia|].
    intros j row Hj. destruct (decide (j = k)) as [-> | Hne].
    + rewrite lookup_app_r in Hj by lia. rewrite Hn, Nat.sub_diag in Hj.
      injection Hj as <-. exists e, wait. split; [exact He|].
      rewrite <- Hs. split; [reflexivity|].
      destruct Hwait as [-> | (prev & Hk1 & Hprev & ->)]; [left; reflexivity|].
      right. split; [exact Hk1|].
      destruct (Hdone (k - 1)%nat ltac:(lia)) as (p' & Hp' & <-).
      rewrite Hprev in Hp'. injection Hp' as ->. reflexivity.
    + assert (j < k)%nat.
      { apply lookup_lt_Some in Hj. rewrite length_app in Hj. simpl in Hj. lia. }
      rewrite lookup_app_l in Hj by lia. apply Hall, Hj.
Qed.

(** The report loop returns: one slice and one row per queue entry. *)
Lemma RR_report_loop (rq0 : list Process) (t0 : Tally) :
  exists v, for_range RR_report 0 (length rq0) (mkRRReport 0 rq0 t0) = Returned v /\
            t_gantt (rr_tally v) = t_gantt t0 ++ back_to_back 0 rq0 /\
            exists rows, t_schedule (rr_tally v) = t_schedule t0 ++ rows /\
                         length rows = length rq0 /\
                         forall j row, rows !! j = Some row -> RR_row rq0 j row.
Proof.
  destruct (for_range_invariant RR_report (RR_report_inv rq0 t0) (length rq0) 0
              (mkRRReport 0 rq0 t0)) as (v & E & _ & _ & _ & _ & Hg & Hrows).
  - unfold RR_report_inv. simpl. rewrite app_nil_r.
    repeat split; try reflexivity; try (intros; lia).
    exists []. rewrite app_nil_r. repeat split. intros j row Hj. inversion Hj.
  - intros k v Hk. apply RR_report_keeps_inv. lia.
  - exists v. simpl in *. rewrite firstn_all in *. auto.
Qed.

(** [RRSchedule] on a list that is not empty: it returns, the quantum is
    the least burst, the timeline is the queue served back to back. *)
Lemma RR_core (ttl : string) (ps : list Process) :
  ps <> [] ->
  exists run q,
    RRSchedule ttl ps = Returned run /\
    RR_quantum ps = Returned q /\
    least_burst ps q /\
    gantt (report run) = back_to_back 0 (RR_queue q 0 ps []) /\
    exists rows,
      schedule (report run) = replicate (length ps) blank_row ++ rows /\
      length rows = length (RR_queue q 0 ps []) /\
      forall j row, rows !! j = Some row -> RR_row (RR_queue q 0 ps []) j row.
Proof.
  intros Hne. destruct (RR_quantum_least ps Hne) as (q & Eq & Hq).
  destruct (RR_split_loop q ps) as (v & Ev & Hv).
  destruct (RR_report_loop (q_readyQueue v) (Tally_init ps)) as (r & Er & Hg & Hrows).
  unfold RRSchedule. rewrite Eq. simpl. rewrite Ev. simpl. rewrite Er. simpl.
  rewrite Hv in *. eexists _, q. split; [reflexivity|]. simpl. auto.
Qed.

(** A burst is at most the sum of all of them. *)
Lemma burst_le_total (ps : list Process) (p : Process) :
  Forall (fun p => 0 <= BurstDuration p) ps -> p ∈ ps -> BurstDuration p <= total_burst ps.
Proof.
  intros Hall Hp. apply list_elem_of_lookup in Hp as [i Hi].
  pose proof (service_bounds ps i Hall). pose proof (service_bounds ps (S i) Hall) as H'.
  rewrite (service_S _ _ _ Hi) in H'. lia.
Qed.

(** Without overflow the slices of an id last as long as the bursts of
    its entries. *)
Lemma back_to_back_durations (pid : Z) (es : list Process) (start : Z) :
  Forall (fun e => 0 <= BurstDuration e) es ->
  0 <= start -> start + total_burst es <= max_int64 ->
  duration <$> slices_of pid (back_to_back start es) = BurstDuration <$> entries_of pid es.
Proof.
  unfold slices_of, entries_of, max_int64.
  revert start. induction es as [|e es IH]; intros start Hall H0 Hmax; [reflexivity|].
  apply Forall_cons in Hall as [He Hall].
  change (e :: es) with ([e] ++ es) in Hmax. rewrite total_burst_app in Hmax.
  pose proof (total_burst_nonneg es Hall) as Hes.
  unfold total_burst at 1 in Hmax. simpl in Hmax.
  assert (add64 start (BurstDuration e) = start + BurstDuration e) as E.
  { apply add64_small. unfold in_int64, min_int64, max_int64. lia. }
  simpl. rewrite E.
  destruct (decide (ProcessID e = pid)) as [Hp | Hp].
  - rewrite !filter_cons_True by (simpl; exact Hp). rewrite !fmap_cons. f_equal.
    + unfold duration. simpl. lia.
    + apply IH; [exact Hall | lia | lia].
  - rewrite !filter_cons_False by (simpl; exact Hp). apply IH; [exact Hall | lia | lia].
Qed.

(** C5, as stated, fails: with bursts 2 and 10 the quantum is 2 and the
    second process gets two slices, of 2 and then of all the remaining 8;
    the claim's min(quantum, remaining) gives it five slices of 2. *)
Lemma RR_remainder_is_one_slice :
  RR_quantum [process 1 2 0 0; process 2 10 0 0] = Returned 2 /\
  (fun g => duration <$> slices_of 2 g)
    <$> timeline (RRSchedule "Round-robin" [process 1 2 0 0; process 2 10 0 0])
  = Returned [2; 8] /\
  quantum_slices 10 2 10 = [2; 2; 2; 2; 2].
Proof. repeat split; vm_compute; reflexivity. Qed.

(** The slice lengths of every process under round-robin. *)
Lemma RR_slice_lengths (ttl : string) (ps : list Process) :
  ps <> [] ->
  NoDup (ProcessID <$> ps) ->
  Forall (fun p => 0 < BurstDuration p) ps ->
  total_burst ps <= max_int64 ->
  exists run q,
    RRSchedule ttl ps = Returned run /\
    RR_quantum ps = Returned q /\
    least_burst ps q /\
    forall p, p ∈ ps ->
              duration <$> slices_of (ProcessID p) (gantt (report run)) = RR_parts q p.
Proof.
  intros Hne Hnodup Hpos Htotal.
  destruct (RR_core ttl ps Hne) as (run & q & Erun & Eq & Hq & Hg & _).
  exists run, q. repeat split; try assumption; try apply Hq.
  intros p Hp. rewrite Hg.
  assert (Forall (fun p => 0 <= BurstDuration p) ps) as Hnonneg.
  { eapply Forall_impl; [exact Hpos|]. simpl. intros; lia. }
  assert (0 < q) as Hq0.
  { destruct Hq as [(p0 & Hp0 & <-) _]. rewrite Forall_forall in Hpos. apply Hpos, Hp0. }
  assert (Forall (fits q) ps) as Hfits.
  { apply Forall_forall. intros x Hx. split; [apply Hq, Hx|].
    pose proof (burst_le_total ps x Hnonneg Hx). lia. }
  destruct (RR_queue_total q Hq0 ps 0 [] Hfits ltac:(constructor)) as [Ht Hall].
  rewrite back_to_back_durations.
  - apply RR_queue_parts; try assumption. reflexivity.
  - exact Hall.
  - lia.
  - rewrite Ht. unfold total_burst at 1. simpl. lia.
Qed.

(** C5, amended: for a non-empty list of processes with distinct ids and
    positive bursts whose sum fits an int64, the quantum is the least
    burst of the list, a process whose burst is the quantum gets one slice
    of that length, and every other process gets exactly two slices: the
    first as long as the quantum, the second as long as all that remains
    of its burst.  So only the last slice of a process can be longer than
    the quantum. *)
Theorem RR_slices_are_quantum_then_remainder (ttl : string) (ps : list Process) :
  ps <> [] ->
  NoDup (ProcessID <$> ps) ->
  Forall (fun p => 0 < BurstDuration p) ps ->
  total_burst ps <= max_int64 ->
  exists run q,
    RRSchedule ttl ps = Returned run /\
    RR_quantum ps = Returned q /\
    least_burst ps q /\
    forall p, p ∈ ps ->
              duration <$> slices_of (ProcessID p) (gantt (report run)) = RR_parts q p.
Proof. apply RR_slice_lengths. Qed.

(** The two processes of the counterexample: bursts 2 and 10. *)
Lemma RR_slices_are_quantum_then_remainder_witness :
  exists run q,
    RRSchedule "Round-robin" [process 1 2 0 0; process 2 10 0 0] = Returned run /\
    RR_quantum [process 1 2 0 0; process 2 10 0 0] = Returned q /\
    least_burst [process 1 2 0 0; process 2 10 0 0] q /\
    forall p, p ∈ [process 1 2 0 0; process 2 10 0 0] ->
              duration <$> slices_of (ProcessID p) (gantt (report run)) = RR_parts q p.
Proof.
  apply (RR_slices_are_quantum_then_remainder "Round-robin"
           [process 1 2 0 0; process 2 10 0 0]).
  - discriminate.
  - apply (bool_decide_unpack _). vm_compute. exact I.
  - repeat constructor.
  - vm_compute. discriminate.
Defined.

(** ** Turnaround in the table *)

Lemma table_row_adds_up (p : Process) (wait completion : Z) :
  turnaround_adds_up (table_row p wait (add64 (BurstDuration p) wait) completion).
Proof. right. exists (BurstDuration p), wait. auto. Qed.

(** The rows [make] creates are blank. *)
Lemma blank_rows_add_up (n : nat) : Forall turnaround_adds_up (replicate n blank_row).
Proof. apply Forall_replicate. left. reflexivity. Qed.

(** First-come-first-serve: the call returns for every list, and every row
    adds up. *)
Lemma FCFS_rows_add_up (ttl : string) (ps : list Process) :
  returns (FCFSSchedule ttl ps)
          (fun run => Forall turnaround_adds_up (schedule (report run))).
Proof.
  unfold FCFSSchedule. wp.
  apply (returns_for_range _ (fun _ v => length (f_schedule v) = length ps /\
                                         Forall turnaround_adds_up (f_schedule v))).
  - simpl. split; [apply length_replicate | apply blank_rows_add_up].
  - intros i v Hi [Hlen Hrows]. unfold FCFS_body. repeat wp. simpl.
    split; [lengths|]. apply Forall_insert; [exact Hrows | apply table_row_adds_up].
  - intros v [_ Hrows]. wp. exact Hrows.
Qed.

(** Shortest-job-first: no iteration of the first loop leaves the bounds
    of [copyProc] or of [readyQueue]. *)
Lemma SJF_resume_keeps_lengths (n m i j : nat) (v : SJFVars) :
  (i < n)%nat -> (j < m)%nat ->
  length (s_copyProc v) = n /\ (m <= length (s_readyQueue v))%nat ->
  returns (SJF_resume i j v)
          (fun v' => length (s_copyProc v') = n /\ (m <= length (s_readyQueue v'))%nat).
Proof.
  intros Hi Hj [Hn Hm]. unfold SJF_resume. repeat wp; simpl; split; lengths.
Qed.

Lemma SJF_body_keeps_length (n i : nat) (v : SJFVars) :
  (i < n)%nat -> length (s_copyProc v) = n ->
  returns (SJF_body i v) (fun v' => length (s_copyProc v') = n).
Proof.
  intros Hi Hn. unfold SJF_body, SJF_preempt. repeat wp.
  all: simpl; try lengths.
  all: apply (returns_for_range _
                (fun _ v' => length (s_copyProc v') = n /\
                             (length (s_readyQueue v) <= length (s_readyQueue v'))%nat));
    [ split; [exact Hn | lia]
    | intros j t Hj Ht; apply (SJF_resume_keeps_lengths n); [exact Hi | lia | exact Ht]
    | intros t Ht; apply Ht ].
Qed.

(** The report loop appends a row that adds up. *)
Lemma SJF_report_adds_up (rq : list Process) (i : nat) (t : Tally) :
  (i < length rq)%nat -> Forall turnaround_adds_up (t_schedule t) ->
  returns (SJF_report rq i t) (fun t' => Forall turnaround_adds_up (t_schedule t')).
Proof.
  intros Hi Hrows. unfold SJF_report. repeat wp.
  - simpl. apply Forall_app. split; [exact Hrows|]. constructor; [apply table_row_adds_up | constructor].
  - apply (returns_for_range _ (fun _ _ => True)); [exact I | |].
    + intros j acc Hj _. unfold SJF_discount. repeat wp; exact I.
    + intros acc _. repeat wp. simpl.
      apply Forall_app. split; [exact Hrows|]. constructor; [apply table_row_adds_up | constructor].
Qed.

(** The call returns for every list, and every row adds up. *)
Lemma SJF_rows_add_up (ttl : string) (ps : list Process) :
  returns (SJFSchedule ttl ps)
          (fun run => Forall turnaround_adds_up (schedule (report run))).
Proof.
  unfold SJFSchedule. wp.
  apply (returns_for_range _ (fun _ v => length (s_copyProc v) = length (SliceStable SJF_less ps))).
  - reflexivity.
  - intros i v Hi Hv. apply SJF_body_keeps_length; [lia | exact Hv].
  - intros v _. wp.
    apply (returns_for_range _ (fun _ t => Forall turnaround_adds_up (t_schedule t))).
    + apply blank_rows_add_up.
    + intros i t Hi Ht. apply SJF_report_adds_up; [lia | exact Ht].
    + intros t Ht. wp. exact Ht.
Qed.

(** Sorting keeps the length. *)
Lemma length_stable_insert {A} (less : A -> A -> bool) (x : A) (s : list A) :
  length (stable_insert less x s) = S (length s).
Proof. induction s as [|y s IH]; simpl; [reflexivity|]. destruct (less y x); simpl; lia. Qed.

Lemma length_SliceStable {A} (less : A -> A -> bool) (s : list A) :
  length (SliceStable less s) = length s.
Proof. induction s as [|x s IH]; simpl; [reflexivity|]. rewrite length_stable_insert. lia. Qed.

(** Priority: the three parts of the body of the first loop stay within
    the bounds of [copyProc], of the array the range statement reads, and
    of [priorityQueue], whatever the capacity of the copy. *)
Lemma Priority_swap_keeps_inv (n i : nat) (v : PriorityVars) :
  (i < n)%nat -> Priority_inv n v ->
  returns (Priority_swap i v)
          (fun r => match r with Next v' | Break v' => Priority_inv n v' end).
Proof.
  intros Hi [Hn Hr]. unfold Priority_swap. repeat wp.
  all: try discriminate; split; simpl; try lengths; try exact Hr.
Qed.

Lemma Priority_split_keeps_inv (cap n i : nat) (pq : list Process) (Temp x : Process)
    (v : PriorityVars) :
  (i < n)%nat -> length pq = n -> (i + 1 < length (p_copyProc v))%nat -> Priority_inv n v ->
  returns (Priority_split cap pq i Temp x v) (fun xv => Priority_inv n xv.2).
Proof.
  intros Hi Hpq Hnext [Hn Hr]. unfold Priority_split, Priority_insert. repeat wp.
  all: simpl; try split; simpl; try lengths; try exact Hr.
  all: destruct (p_ranged v); [exact Hr|]; destruct (decide _); simpl; [exact I | lengths].
Qed.

(** So does the whole body. *)
Lemma Priority_body_keeps_inv (cap n i : nat) (pq : list Process) (v : PriorityVars) :
  (i < n)%nat -> length pq = n -> Priority_inv n v ->
  returns (Priority_body cap pq i v)
          (fun r => match r with Next v' | Break v' => Priority_inv n v' end).
Proof.
  intros Hi Hpq [Hn Hr]. unfold Priority_body.
  apply returns_bind, returns_index.
  { destruct (p_ranged v); simpl; lia. }
  intros x Hx. repeat wp.
  - apply (returns_weaken _ (fun xv => Priority_inv n xv.2)).
    + apply Priority_split_keeps_inv; try assumption. split; assumption.
    + intros [x' v'] Hv'. apply Priority_swap_keeps_inv; assumption.
  - apply Priority_swap_keeps_inv; [exact Hi | split; assumption].
  - apply Priority_swap_keeps_inv; [exact Hi | split; assumption].
Qed.


(** The second loop only sets [isDone]. *)
Lemma mark_last_keeps_length (pid : Z) (k : nat) (copyProc : list Process) :
  (k < length copyProc)%nat \/ k = 0%nat ->
  returns (mark_last pid k copyProc) (fun c => length c = length copyProc).
Proof.
  induction k as [|k IH]; intros Hk; simpl.
  - wp. reflexivity.
  - repeat wp; [lengths|]. apply IH. lia.
Qed.

Lemma Priority_mark_keeps_length (ps : list Process) (n i : nat) (s : list Process * Z) :
  (i < length ps)%nat -> length s.1 = n ->
  returns (Priority_mark ps i s) (fun s' => length s'.1 = n).
Proof.
  intros Hi Hn. unfold Priority_mark. destruct s as [copyProc totalBurst]. simpl in Hn.
  repeat wp; simpl; try exact Hn.
  apply (returns_weaken _ (fun c => length c = length copyProc)).
  - apply mark_last_keeps_length. lia.
  - intros c Hc. wp. simpl. lia.
Qed.

(** The third loop appends a row that adds up. *)
Lemma Priority_report_adds_up (n i : nat) (v : PriorityReport) :
  (i < n)%nat -> length (r_copyProc v) = n ->
  Forall turnaround_adds_up (t_schedule (r_tally v)) ->
  returns (Priority_report i v)
          (fun v' => length (r_copyProc v') = n /\
                     Forall turnaround_adds_up (t_schedule (r_tally v'))).
Proof.
  intros Hi Hn Hrows. unfold Priority_report. repeat wp.
  all: simpl; (split; [lengths|]).
  all: apply Forall_app; (split; [exact Hrows|]).
  all: constructor; [apply table_row_adds_up | constructor].
Qed.

(** The call returns for every list, and every row adds up. *)
Lemma Priority_rows_add_up (cap : nat) (ttl : string) (ps : list Process) :
  returns (SJFPrioritySchedule cap ttl ps)
          (fun run => Forall turnaround_adds_up (schedule (report run))).
Proof.
  unfold SJFPrioritySchedule. wp.
  apply (returns_for_range_break _ (Priority_inv (length ps))).
  - split; simpl; [rewrite length_SliceStable; lia | exact I].
  - intros i v Hi Hv. rewrite length_SliceStable in Hi.
    apply Priority_body_keeps_inv; [lia | apply length_SliceStable | exact Hv].
  - intros v _. wp.
    apply (returns_for_range _ (fun _ s => length s.1 = length (p_copyProc v))).
    + reflexivity.
    + intros i s Hi Hs. apply Priority_mark_keeps_length; [lia | exact Hs].
    + intros [copyProc totalBurst] Hc. simpl in Hc. wp.
      apply (returns_for_range _
               (fun _ r => length (r_copyProc r) = length copyProc /\
                           Forall turnaround_adds_up (t_schedule (r_tally r)))).
      * split; [reflexivity | apply blank_rows_add_up].
      * intros i r Hi [Hr Hrows]. apply Priority_report_adds_up; [lia | exact Hr | exact Hrows].
      * intros r [_ Hrows]. wp. exact Hrows.
Qed.

(** Round-robin: every row is that of a queue entry, which adds up. *)
Lemma RR_rows_add_up (ttl : string) (ps : list Process) :
  ps <> [] ->
  returns (RRSchedule ttl ps)
          (fun run => Forall turnaround_adds_up (schedule (report run))).
Proof.
  intros Hne.
  destruct (RR_core ttl ps Hne) as (run & q & E & _ & _ & _ & rows & Hrows & _ & Hall).
  exists run. split; [exact E|]. rewrite Hrows.
  apply Forall_app. split; [apply blank_rows_add_up|].
  apply Forall_lookup. intros j row Hj.
  destruct (Hall j row Hj) as (e & wait & _ & -> & _). apply table_row_adds_up.
Qed.

(** C8, as stated, fails: round-robin prints one row per slice, with the
    burst of the slice.  With bursts 2 and 10 the rows of process 2 have
    burst 2, wait 2, turnaround 4 and burst 8, wait 2, turnaround 10;
    neither turnaround is the original burst 10 plus the wait. *)
Lemma turnaround_is_not_from_the_original_burst :
  table (RRSchedule "Round-robin" [process 1 2 0 0; process 2 10 0 0])
  = Returned [blank_row; blank_row; [1; 0; 2; 0; 0; 2; 2]; [2; 0; 2; 0; 2; 4; 4];
              [2; 0; 8; 0; 2; 10; 12]] /\
  (fun rows : list Row =>
     turnaround_from_original_burst [process 1 2 0 0; process 2 10 0 0] <$> rows)
    <$> table (RRSchedule "Round-robin" [process 1 2 0 0; process 2 10 0 0])
  = Returned [true; true; true; false; false].
Proof. split; vm_compute; reflexivity. Qed.

(** ** Waits when every process arrives at time 0 *)

Lemma table_row_wait (p : Process) (wait turnaround completion : Z) :
  0 <= wait -> wait_not_negative (table_row p wait turnaround completion).
Proof. intros H. right. exists wait. auto. Qed.

(** Blank rows have no wait. *)
Lemma blank_rows_wait (n : nat) : Forall wait_not_negative (replicate n blank_row).
Proof. apply Forall_replicate. left. reflexivity. Qed.

(** First-come-first-serve: [waitingTime] stays 0. *)
Lemma FCFS_waits_at_zero (ttl : string) (ps : list Process) :
  Forall (fun p => ArrivalTime p = 0) ps ->
  returns (FCFSSchedule ttl ps)
          (fun run => Forall wait_not_negative (schedule (report run))).
Proof.
  intros Hzero. unfold FCFSSchedule. wp.
  apply (returns_for_range _ (fun _ v => f_waitingTime v = 0 /\
                                         length (f_schedule v) = length ps /\
                                         Forall wait_not_negative (f_schedule v))).
  - simpl. split; [reflexivity|]. split; [apply length_replicate | apply blank_rows_wait].
  - intros i v Hi (Hw & Hlen & Hrows). unfold FCFS_body. repeat wp.
    pose proof (Forall_lookup_1 _ _ _ _ Hzero H) as Ha. simpl in Ha.
    rewrite Ha, Hw. simpl.
    split; [reflexivity|]. split; [lengths|].
    apply Forall_insert; [exact Hrows | apply table_row_wait; lia].
  - intros v (_ & _ & Hrows). wp. exact Hrows.
Qed.

(** Sorting keeps what holds of every element. *)
Lemma stable_insert_Forall {A} (P : A -> Prop) (less : A -> A -> bool) (x : A) (s : list A) :
  P x -> Forall P s -> Forall P (stable_insert less x s).
Proof.
  intros Hx. induction 1 as [|y s Hy Hs IH]; simpl; [repeat constructor; exact Hx|].
  destruct (less y x); repeat constructor; assumption.
Qed.

Lemma SliceStable_Forall {A} (P : A -> Prop) (less : A -> A -> bool) (s : list A) :
  Forall P s -> Forall P (SliceStable less s).
Proof.
  induction 1 as [|x s Hx Hs IH]; simpl; [constructor|].
  apply stable_insert_Forall; assumption.
Qed.

(** Shortest-job-first: every iteration takes the first branch, which sets
    the wait to 0. *)
Lemma SJF_body_at_zero (sorted : list Process) (i : nat) (v : SJFVars) :
  Forall (fun p => ArrivalTime p = 0 /\ isDone p = false) sorted ->
  (i < length sorted)%nat ->
  length (s_copyProc v) = length sorted /\
  (forall j, (i <= j)%nat -> s_copyProc v !! j = sorted !! j) /\
  Forall (fun e => totalWait e = 0) (s_readyQueue v) ->
  returns (SJF_body i v)
          (fun v' => length (s_copyProc v') = length sorted /\
                     (forall j, (S i <= j)%nat -> s_copyProc v' !! j = sorted !! j) /\
                     Forall (fun e => totalWait e = 0) (s_readyQueue v')).
Proof.
  intros Hzero Hi (Hlen & Hrest & Hrq). unfold SJF_body. wp. wp.
  rewrite Hrest in H by lia.
  destruct (Forall_lookup_1 _ _ _ _ Hzero H) as [Ha Hd]. rewrite Ha, Hd. simpl.
  repeat wp. simpl. split; [lengths|]. split.
  - intros j Hj. rewrite list_lookup_insert_ne by lia. apply Hrest. lia.
  - apply Forall_app. split; [exact Hrq|]. repeat constructor.
Qed.

(** The report loop prints that wait. *)
Lemma SJF_report_waits (rq : list Process) (i : nat) (t : Tally) :
  Forall (fun e => totalWait e = 0) rq ->
  (i < length rq)%nat -> Forall wait_not_negative (t_schedule t) ->
  returns (SJF_report rq i t) (fun t' => Forall wait_not_negative (t_schedule t')).
Proof.
  intros Hrq Hi Hrows. unfold SJF_report. wp. wp.
  pose proof (Forall_lookup_1 _ _ _ _ Hrq H) as Hw. simpl in Hw.
  assert (Forall wait_not_negative
            (t_schedule t ++ [table_row x (totalWait x)
                                (add64 (BurstDuration x) (totalWait x)) (stoppingTime x)])).
  { apply Forall_app. split; [exact Hrows|].
    constructor; [apply table_row_wait; lia | constructor]. }
  repeat wp; [assumption|].
  apply (returns_for_range _ (fun _ _ => True)); [exact I | |].
  - intros j acc Hj _. unfold SJF_discount. repeat wp; exact I.
  - intros acc _. repeat wp. assumption.
Qed.

(** So every wait is 0. *)
Lemma SJF_waits_at_zero (ttl : string) (ps : list Process) :
  Forall (fun p => ArrivalTime p = 0 /\ isDone p = false) ps ->
  returns (SJFSchedule ttl ps)
          (fun run => Forall wait_not_negative (schedule (report run))).
Proof.
  intros Hzero. apply (SliceStable_Forall _ SJF_less) in Hzero.
  unfold SJFSchedule. wp.
  apply (returns_for_range _
           (fun i v => length (s_copyProc v) = length (SliceStable SJF_less ps) /\
                       (forall j, (i <= j)%nat ->
                                  s_copyProc v !! j = SliceStable SJF_less ps !! j) /\
                       Forall (fun e => totalWait e = 0) (s_readyQueue v))).
  - simpl. auto.
  - intros i v Hi Hv. apply SJF_body_at_zero; [exact Hzero | lia | exact Hv].
  - intros v (_ & _ & Hrq). wp.
    apply (returns_for_range _ (fun _ t => Forall wait_not_negative (t_schedule t))).
    + apply blank_rows_wait.
    + intros i t Hi Ht. apply SJF_report_waits; [exact Hrq | lia | exact Ht].
    + intros t Ht. wp. exact Ht.
Qed.

(** Without overflow [serviceTime] is the sum of the bursts served. *)
Lemma service64_total (es : list Process) (start : Z) :
  Forall (fun e => 0 <= BurstDuration e) es ->
  0 <= start -> start + total_burst es <= max_int64 ->
  service64 start es = start + total_burst es.
Proof.
  unfold max_int64. revert start.
  induction es as [|e es IH]; intros start Hall H0 Hmax.
  - unfold total_burst. simpl. lia.
  - apply Forall_cons in Hall as [He Hall].
    change (e :: es) with ([e] ++ es) in Hmax. rewrite total_burst_app in Hmax.
    change (total_burst (e :: es)) with (BurstDuration e + total_burst es).
    pose proof (total_burst_nonneg es Hall).
    unfold total_burst at 1 in Hmax. simpl in Hmax.
    change (service64 start (e :: es)) with (service64 (add64 start (BurstDuration e)) es).
    rewrite add64_small by (unfold in_int64, min_int64, max_int64; lia).
    rewrite IH; [lia | exact Hall | lia | lia].
Qed.

(** Round-robin: queue entries keep the arrival time of their process. *)
Lemma RR_enqueue_arrival (q : Z) (i : nat) (x : Process) (rq : list Process) :
  ArrivalTime x = 0 -> Forall (fun e => ArrivalTime e = 0) rq ->
  Forall (fun e => ArrivalTime e = 0) (RR_enqueue q i x rq).
Proof.
  intros Hx Hrq. unfold RR_enqueue. destruct (_ =? _).
  - apply Forall_app. split; [exact Hrq | repeat constructor; exact Hx].
  - apply Forall_app. split; [|repeat constructor; exact Hx].
    apply Forall_app. split; [apply Forall_take, Hrq|].
    constructor; [exact Hx | apply Forall_drop, Hrq].
Qed.

Lemma RR_queue_arrival (q : Z) (xs : list Process) (i : nat) (rq : list Process) :
  Forall (fun e => ArrivalTime e = 0) xs -> Forall (fun e => ArrivalTime e = 0) rq ->
  Forall (fun e => ArrivalTime e = 0) (RR_queue q i xs rq).
Proof.
  revert i rq. induction xs as [|x xs IH]; intros i rq Hxs Hrq; simpl; [exact Hrq|].
  apply Forall_cons in Hxs as [Hx Hxs]. apply IH; [exact Hxs|].
  apply RR_enqueue_arrival; assumption.
Qed.

(** A wait is a service time, or the difference of two service times in
    their order. *)
Lemma RR_waits_at_zero (ttl : string) (ps : list Process) :
  ps <> [] ->
  Forall (fun p => ArrivalTime p = 0 /\ 0 < BurstDuration p) ps ->
  total_burst ps <= max_int64 ->
  returns (RRSchedule ttl ps)
          (fun run => Forall wait_not_negative (schedule (report run))).
Proof.
  intros Hne Hzero Htotal.
  destruct (RR_core ttl ps Hne) as (run & q & E & _ & Hq & _ & rows & Hrows & _ & Hall).
  exists run. split; [exact E|]. rewrite Hrows.
  apply Forall_app. split; [apply blank_rows_wait|].
  assert (Forall (fun p => 0 <= BurstDuration p) ps) as Hnonneg.
  { eapply Forall_impl; [exact Hzero|]. simpl. intros; lia. }
  assert (0 < q) as Hq0.
  { destruct Hq as [(p0 & Hp0 & <-) _]. rewrite Forall_forall in Hzero. apply Hzero, Hp0. }
  assert (Forall (fits q) ps) as Hfits.
  { apply Forall_forall. intros x Hx. split; [apply Hq, Hx|].
    pose proof (burst_le_total ps x Hnonneg Hx). lia. }
  destruct (RR_queue_total q Hq0 ps 0 [] Hfits ltac:(constructor)) as [Ht Hqueue].
  unfold total_burst at 2 in Ht. simpl in Ht.
  set (rq := RR_queue q 0 ps []) in *.
  assert (Forall (fun e => ArrivalTime e = 0) rq) as Harr.
  { apply RR_queue_arrival; [|constructor].
    eapply Forall_impl; [exact Hzero|]. simpl. intros ? [? _]. assumption. }
  assert (forall j, service64 0 (take j rq) = service rq j /\
                    0 <= service rq j <= max_int64) as Hservice.
  { intros j. pose proof (service_bounds rq j Hqueue) as Hb. unfold service in *.
    rewrite service64_total; [split; lia | apply Forall_take, Hqueue | lia | lia]. }
  apply Forall_lookup. intros j row Hj.
  destruct (Hall j row Hj) as (e & wait & He & -> & Hwait).
  apply table_row_wait.
  destruct (Hservice j) as [Ej Hj']. rewrite Ej in Hwait.
  destruct Hwait as [-> | [Hj1 ->]].
  - rewrite (Forall_lookup_1 _ _ _ _ Harr He).
    rewrite sub64_small; unfold in_int64, min_int64, max_int64 in *; lia.
  - destruct (Hservice (j - 1)%nat) as [Ej1 Hj1']. rewrite Ej1.
    destruct (lookup_lt_is_Some_2 rq (j - 1)) as [e1 He1].
    { apply lookup_lt_Some in He. lia. }
    pose proof (service_S rq (j - 1) e1 He1) as HS.
    replace (S (j - 1)) with j in HS by lia.
    pose proof (Forall_lookup_1 _ _ _ _ Hqueue He1) as Hb. simpl in Hb.
    rewrite sub64_small; unfold in_int64, min_int64, max_int64 in *; lia.
Qed.

(** Nothing has run when a process is cut: its burst stays. *)
Lemma sub64_0 (b : Z) : 0 <= b <= max_int64 -> sub64 b 0 = b.
Proof.
  intros H. rewrite sub64_small; [lia|]. unfold in_int64, min_int64, max_int64 in *. lia.
Qed.

Ltac solve_waits :=
  unfold waits_at_zero in *; simpl;
  repeat match goal with
         | H : _ /\ _ |- _ => destruct H
         end;
  rewrite ?sub64_0 by (split; assumption);
  repeat split; first [assumption | lia | unfold max_int64; lia].

Ltac solve_Forall :=
  repeat first
    [ assumption
    | apply Forall_insert
    | apply Forall_app_2
    | apply Forall_cons_2
    | apply Forall_take
    | apply Forall_drop
    | apply Forall_nil_2
    | match goal with |- waits_at_zero (if ?b then _ else _) => destruct b end
    | solve [solve_waits] ].

Ltac derive_waits :=
  repeat match goal with
         | H : ?l !! ?i = Some ?x |- _ =>
             lazymatch goal with
             | _ : waits_at_zero x |- _ => fail
             | _ => assert (waits_at_zero x)
                      by (eapply (Forall_lookup_1 waits_at_zero); [|exact H]; solve_Forall)
             end
         end.

(** Priority: the parts of the body of the first loop keep the invariant. *)
Lemma Priority_swap_at_zero (n i : nat) (v : PriorityVars) :
  (i < n)%nat -> Priority_zero_inv n v ->
  returns (Priority_swap i v)
          (fun r => match r with Next v' | Break v' => Priority_zero_inv n v' end).
Proof.
  intros Hi ([Hn Hr] & Hc & Hra & Hcb). unfold Priority_swap. repeat wp.
  all: try discriminate.
  all: derive_waits.
  all: unfold Priority_zero_inv, Priority_inv; simpl.
  all: repeat split; try lengths; try assumption.
  all: solve_Forall.
Qed.

(** The clock does not move: the next process has arrived. *)
Lemma tick_up_at_bound (currBurst stop : Z) :
  tick_up (distance currBurst currBurst) currBurst currBurst stop = (currBurst, stop).
Proof. unfold distance. rewrite Z.sub_diag. reflexivity. Qed.

Lemma Priority_split_at_zero (cap n i : nat) (pq : list Process) (Temp x : Process)
    (v : PriorityVars) :
  (i < n)%nat -> length pq = n -> (i + 1 < length (p_copyProc v))%nat ->
  waits_at_zero x -> Priority_zero_inv n v ->
  returns (Priority_split cap pq i Temp x v) (fun xv => Priority_zero_inv n xv.2).
Proof.
  intros Hi Hpq Hnext Hx ([Hn Hr] & Hc & Hra & Hcb).
  unfold Priority_split, Priority_insert. wp. wp. wp. wp.
  derive_waits.
  assert (ArrivalTime x0 = 0) as Ha
    by (match goal with Hw : waits_at_zero x0 |- _ => exact (proj1 Hw) end).
  rewrite Hcb, Ha, tick_up_at_bound.
  repeat wp.
  all: derive_waits.
  all: unfold Priority_zero_inv, Priority_inv; simpl.
  all: repeat split; try lengths; try assumption.
  all: try solve [solve_Forall].
  all: destruct (p_ranged v); simpl in *; try assumption.
  all: destruct (decide _); simpl; try exact I; try lengths; try solve [solve_Forall].
Qed.

Lemma Priority_body_at_zero (cap n i : nat) (pq : list Process) (v : PriorityVars) :
  (i < n)%nat -> length pq = n -> Priority_zero_inv n v ->
  returns (Priority_body cap pq i v)
          (fun r => match r with Next v' | Break v' => Priority_zero_inv n v' end).
Proof.
  intros Hi Hpq Hv. pose proof Hv as ([Hn Hr] & Hc & Hra & Hcb). unfold Priority_body.
  apply returns_bind, returns_index.
  { destruct (p_ranged v); simpl; lia. }
  intros x Hx.
  assert (waits_at_zero x) as Hwx.
  { eapply (Forall_lookup_1 waits_at_zero); [|exact Hx].
    destruct (p_ranged v); simpl in *; assumption. }
  assert (Priority_zero_inv n
            {| p_copyProc := p_copyProc v; p_ranged := p_ranged v;
               p_readyQueue := p_readyQueue v;
               p_totalBurst := add64 (p_totalBurst v)
                                 (BurstDuration (default x (p_copyProc v !! i)));
               p_currBurst := p_currBurst v |}) as Hv'.
  { repeat split; assumption. }
  repeat wp.
  - match goal with H : p_copyProc v !! i = Some _ |- _ => rewrite H in Hv'; simpl in Hv' end.
    apply (returns_weaken _ (fun xv => Priority_zero_inv n xv.2)).
    + apply Priority_split_at_zero; try assumption.
    + intros [x' v'] Hxv. apply Priority_swap_at_zero; assumption.
  - match goal with H : p_copyProc v !! i = Some _ |- _ => rewrite H in Hv'; simpl in Hv' end.
    apply Priority_swap_at_zero; assumption.
  - match goal with H : p_copyProc v !! i = Some _ |- _ => rewrite H in Hv'; simpl in Hv' end.
    apply Priority_swap_at_zero; assumption.
Qed.


(** The second loop. *)
Lemma mark_last_at_zero (pid : Z) (k : nat) (copyProc : list Process) :
  (k < length copyProc)%nat \/ k = 0%nat -> Forall waits_at_zero copyProc ->
  returns (mark_last pid k copyProc)
          (fun c => length c = length copyProc /\ Forall waits_at_zero c).
Proof.
  induction k as [|k IH]; intros Hk Hc; simpl.
  - wp. auto.
  - repeat wp.
    + derive_waits. split; [lengths | solve_Forall].
    + apply IH; [lia | exact Hc].
Qed.

Lemma Priority_mark_at_zero (ps : list Process) (n i : nat) (s : list Process * Z) :
  (i < length ps)%nat -> length s.1 = n /\ Forall waits_at_zero s.1 ->
  returns (Priority_mark ps i s) (fun s' => length s'.1 = n /\ Forall waits_at_zero s'.1).
Proof.
  intros Hi [Hn Hc]. unfold Priority_mark. destruct s as [copyProc totalBurst]. simpl in *.
  repeat wp; simpl; auto.
  apply (returns_weaken _ (fun c => length c = length copyProc /\ Forall waits_at_zero c)).
  - apply mark_last_at_zero; [lia | exact Hc].
  - intros c [Hlen Hc']. wp. simpl. split; [lia | exact Hc'].
Qed.

(** The third loop never takes [serviceTime - ArrivalTime]: the wait it
    prints is 0 or a burst. *)
Lemma Priority_report_at_zero (n i : nat) (v : PriorityReport) :
  (i < n)%nat ->
  length (r_copyProc v) = n /\ Forall waits_at_zero (r_copyProc v) /\
  Forall wait_not_negative (t_schedule (r_tally v)) ->
  returns (Priority_report i v)
          (fun v' => length (r_copyProc v') = n /\ Forall waits_at_zero (r_copyProc v') /\
                     Forall wait_not_negative (t_schedule (r_tally v'))).
Proof.
  intros Hi (Hn & Hc & Hrows). unfold Priority_report. wp. wp.
  derive_waits.
  assert ((0 <? ArrivalTime x) = false) as ->.
  { match goal with Hw : waits_at_zero x |- _ => rewrite (proj1 Hw) end. reflexivity. }
  repeat wp.
  all: derive_waits.
  all: simpl; (split; [lengths|]); split; [solve_Forall|].
  all: apply Forall_app; (split; [exact Hrows|]).
  all: constructor; [|constructor].
  all: apply table_row_wait.
  all: match goal with Hw : waits_at_zero ?c |- 0 <= totalWait ?c => apply Hw end.
Qed.

(** So every wait is at least 0. *)
Lemma Priority_waits_at_zero (cap : nat) (ttl : string) (ps : list Process) :
  Forall waits_at_zero ps ->
  returns (SJFPrioritySchedule cap ttl ps)
          (fun run => Forall wait_not_negative (schedule (report run))).
Proof.
  intros Hzero. unfold SJFPrioritySchedule. wp.
  apply (returns_for_range_break _ (Priority_zero_inv (length ps))).
  - repeat split; simpl; try exact I; [rewrite length_SliceStable; lia | | constructor].
    apply SliceStable_Forall, Hzero.
  - intros i v Hi Hv. rewrite length_SliceStable in Hi.
    apply Priority_body_at_zero; [lia | apply length_SliceStable | exact Hv].
  - intros v (_ & Hc & _ & _). wp.
    apply (returns_for_range _ (fun _ s => length s.1 = length (p_copyProc v) /\
                                           Forall waits_at_zero s.1)).
    + split; [reflexivity | exact Hc].
    + intros i s Hi Hs. apply Priority_mark_at_zero; [lia | exact Hs].
    + intros [copyProc totalBurst] [Hlen Hc']. simpl in *. wp.
      apply (returns_for_range _
               (fun _ r => length (r_copyProc r) = length copyProc /\
                           Forall waits_at_zero (r_copyProc r) /\
                           Forall wait_not_negative (t_schedule (r_tally r)))).
      * split; [reflexivity|]. split; [exact Hc' | apply blank_rows_wait].
      * intros i r Hi Hr. apply Priority_report_at_zero; [lia | exact Hr].
      * intros r (_ & _ & Hrows). wp. exact Hrows.
Qed.

(** C9, as stated, fails: the second process arrives at 5, after the first
    has finished at 1, and its row has wait -4 (and turnaround -3). *)
Lemma FCFS_wait_is_negative_after_idle_time :
  table (FCFSSchedule "First-come, first-serve" [process 1 1 0 0; process 2 1 5 0])
  = Returned [[1; 0; 1; 0; 0; 1; 1]; [2; 0; 1; 5; -4; -3; 2]].
Proof. vm_compute. reflexivity. Qed.

(** The fields of a loaded descriptor that arrives at 0. *)
Lemma arrives_at_zero_fields (p : Process) :
  arrives_at_zero p ->
  ArrivalTime p = 0 /\ isDone p = false /\ totalWait p = 0 /\ 0 < BurstDuration p.
Proof. intros (id & burst & priority & -> & H). simpl. auto. Qed.

(** C9, amended.  No scheduler accounts for idle time: a wait is the time
    served so far minus the arrival time.  So (1) when every process
    arrives at time 0 (descriptors as loaded, positive bursts whose sum
    fits an int64), every row of each of the four schedulers has wait >= 0
    (round-robin: for a list that is not empty); and (2) in
    first-come-first-serve, for a list as in C6, the wait of a process is
    the sum of the bursts before it minus its arrival time, which is >= 0
    exactly when the process has arrived by the time the processes before
    it have run. *)
Theorem wait_is_not_negative_without_late_arrivals (cap : nat) (ttl : string)
    (ps : list Process) :
  total_burst ps <= max_int64 ->
  (Forall arrives_at_zero ps ->
   Forall (fun scheduler : list Process -> Outcome Run =>
             returns (scheduler ps)
                     (fun run => Forall wait_not_negative (schedule (report run))))
          [FCFSSchedule ttl; SJFSchedule ttl; SJFPrioritySchedule cap ttl] /\
   (ps <> [] ->
    returns (RRSchedule ttl ps)
            (fun run => Forall wait_not_negative (schedule (report run))))) /\
  (Forall (fun p => 0 <= BurstDuration p) ps ->
   (forall i p, ps !! i = Some p ->
                0 < ArrivalTime p <= max_int64 \/ (i = 0%nat /\ ArrivalTime p = 0)) ->
   returns (FCFSSchedule ttl ps)
           (fun run =>
              forall i p, ps !! i = Some p ->
                exists row,
                  schedule (report run) !! i = Some row /\
                  row_wait row = Some (service ps i - ArrivalTime p) /\
                  (wait_not_negative row <-> ArrivalTime p <= service ps i))).
Proof.
  intros Htotal. split.
  - intros Hzero.
    assert (Forall (fun p => ArrivalTime p = 0 /\ isDone p = false /\
                             totalWait p = 0 /\ 0 < BurstDuration p) ps) as Hfields.
    { eapply Forall_impl; [exact Hzero | exact arrives_at_zero_fields]. }
    assert (Forall (fun p => 0 <= BurstDuration p) ps) as Hnonneg.
    { eapply Forall_impl; [exact Hfields|]. simpl. intros p (_ & _ & _ & H). lia. }
    split; [repeat constructor|].
    + apply FCFS_waits_at_zero.
      eapply Forall_impl; [exact Hfields|]. simpl. tauto.
    + apply SJF_waits_at_zero.
      eapply Forall_impl; [exact Hfields|]. simpl. tauto.
    + apply Priority_waits_at_zero. apply Forall_forall. intros p Hp.
      pose proof (burst_le_total ps p Hnonneg Hp) as Hle.
      rewrite Forall_forall in Hfields. destruct (Hfields p Hp) as (Ha & _ & Hw & Hb).
      unfold waits_at_zero. lia.
    + intros Hne. apply RR_waits_at_zero; [exact Hne | | exact Htotal].
      eapply Forall_impl; [exact Hfields|]. simpl. tauto.
  - intros Hbursts Harrivals.
    destruct (FCFS_in_input_order ttl ps Hbursts Htotal Harrivals)
      as (run & E & _ & _ & _ & Hall).
    exists run. split; [exact E|]. intros i p Hp.
    exists (FCFS_row ps i p). split; [apply (Hall i p Hp)|]. split; [reflexivity|].
    split.
    + intros [Hblank | (wait & Hwait & H0)]; [discriminate|].
      injection Hwait as <-. lia.
    + intros H. right. eexists. split; [reflexivity | lia].
Qed.

(** Three loaded processes that arrive at 0, under round-robin. *)
Lemma wait_is_not_negative_without_late_arrivals_witness :
  returns (RRSchedule "Round-robin" [process 1 5 0 2; process 2 3 0 1; process 3 8 0 3])
          (fun run => Forall wait_not_negative (schedule (report run))).
Proof.
  apply (wait_is_not_negative_without_late_arrivals 3 "Round-robin"
           [process 1 5 0 2; process 2 3 0 1; process 3 8 0 3]).
  - vm_compute. discriminate.
  - repeat constructor; eexists _, _, _; (split; [reflexivity | lia]).
  - discriminate.
Defined.

(** ** Loading, record by record *)

(** One iteration on a fresh descriptor does what [record_outcome] does
    with the record. *)
Lemma loadProcesses_row_outcome (rows : list (list string)) (i : nat) (procs : list Process)
    (row : list string) :
  rows !! i = Some row -> procs !! i = Some (process 0 0 0 0) ->
  loadProcesses_row rows i procs = (p ← record_outcome row; Returned (<[i := p]> procs)).
Proof.
  intros Hrow Hp. pose proof (lookup_lt_Some _ _ _ Hp) as Hi.
  unfold loadProcesses_row, record_outcome.
  rewrite (index_Returned _ _ _ Hrow). cbn [mbind Outcome_bind].
  destruct (index row 0) as [a| |]; cbn [mbind Outcome_bind]; [|reflexivity..].
  destruct (mustStrToInt a) as [id| |]; cbn [mbind Outcome_bind]; [|reflexivity..].
  rewrite (update_Returned _ _ _ _ Hp). cbn [mbind Outcome_bind].
  destruct (index row 1) as [b| |]; cbn [mbind Outcome_bind]; [|reflexivity..].
  destruct (mustStrToInt b) as [burst| |]; cbn [mbind Outcome_bind]; [|reflexivity..].
  rewrite update_insert by exact Hi. cbn [mbind Outcome_bind].
  destruct (index row 2) as [c| |]; cbn [mbind Outcome_bind]; [|reflexivity..].
  destruct (mustStrToInt c) as [arrival| |]; cbn [mbind Outcome_bind]; [|reflexivity..].
  rewrite update_insert by exact Hi. cbn [mbind Outcome_bind].
  destruct (decide (length row = 4%nat)); cbn [mbind Outcome_bind mret Outcome_ret].
  - destruct (index row 3) as [d| |]; cbn [mbind Outcome_bind]; [|reflexivity..].
    destruct (mustStrToInt d) as [priority| |]; cbn [mbind Outcome_bind]; [|reflexivity..].
    rewrite update_insert by exact Hi. reflexivity.
  - reflexivity.
Qed.

Lemma loadProcesses_loop (before rest : list (list string)) (done : list Process) :
  length done = length before ->
  for_range (loadProcesses_row (before ++ rest)) (length before) (length rest)
            (done ++ replicate (length rest) (process 0 0 0 0))
  = (ps ← records_outcome rest; Returned (done ++ ps)).
Proof.
  revert before done. induction rest as [|row rest IH]; intros before done Hlen.
  - reflexivity.
  - cbn [length for_range records_outcome replicate].
    rewrite (loadProcesses_row_outcome _ _ _ row).
    + destruct (record_outcome row) as [p| |]; cbn [mbind Outcome_bind]; [|reflexivity..].
      replace (<[length before := p]> (done ++ process 0 0 0 0 :: replicate (length rest) (process 0 0 0 0)))
        with ((done ++ [p]) ++ replicate (length rest) (process 0 0 0 0)).
      2:{ rewrite <- Hlen, insert_app_r_alt, Nat.sub_diag by lia. simpl.
          rewrite <- app_assoc. reflexivity. }
      replace (before ++ row :: rest) with ((before ++ [row]) ++ rest)
        by (rewrite <- app_assoc; reflexivity).
      replace (S (length before)) with (length (before ++ [row]))
        by (rewrite length_app; simpl; lia).
      rewrite IH by (rewrite !length_app; simpl; lia).
      destruct (records_outcome rest); cbn [mbind Outcome_bind]; [|reflexivity..].
      rewrite <- app_assoc. reflexivity.
    + rewrite lookup_app_r, Nat.sub_diag by lia. reflexivity.
    + rewrite lookup_app_r, Hlen, Nat.sub_diag by lia. reflexivity.
Qed.

(** The loop is the records one after the other. *)
Lemma loadProcesses_records (rows : list (list string)) :
  loadProcesses (CsvRows rows) = Processes <$> records_outcome rows.
Proof.
  unfold loadProcesses.
  pose proof (loadProcesses_loop [] rows [] eq_refl) as H. simpl in H. rewrite H.
  destruct (records_outcome rows); reflexivity.
Qed.

(** A well-formed record gives its descriptor; another one exits with 1, or
    (only if it has fewer than three fields) panics. *)
Lemma record_outcome_load (row : list string) :
  match load_record row with
  | Some p => record_outcome row = Returned p
  | None => record_outcome row = Exited 1 \/
            ((length row < 3)%nat /\ record_outcome row = Panicked IndexOutOfRange)
  end.
Proof.
  unfold load_record, record_outcome, index, mustStrToInt.
  destruct row as [|a [|b [|c [|d [|e row]]]]]; simpl.
  all: repeat match goal with
         | |- context [ParseInt ?s] => destruct (ParseInt s); simpl
         end.
  all: auto with lia.
Qed.

Lemma records_outcome_Returned (rows : list (list string)) (ps : list Process) :
  records_outcome rows = Returned ps <-> Forall2 (fun row p => load_record row = Some p) rows ps.
Proof.
  revert ps. induction rows as [|row rows IH]; intros ps; simpl.
  - split; [intros [= <-]; constructor | intros H; inversion H; reflexivity].
  - pose proof (record_outcome_load row) as Hrow. split.
    + destruct (load_record row) as [p|] eqn:E.
      * rewrite Hrow. simpl. destruct (records_outcome rows) as [ps'| |] eqn:E'; simpl; try discriminate.
        intros [= <-]. constructor; [exact E | apply IH; reflexivity].
      * destruct Hrow as [-> | [_ ->]]; discriminate.
    + intros H. inversion H as [|? p ? ps' Hp Hps]; subst.
      rewrite Hp in Hrow. rewrite Hrow. simpl.
      apply IH in Hps. rewrite Hps. reflexivity.
Qed.

Lemma records_outcome_app (good rest : list (list string)) (ps : list Process) :
  Forall2 (fun row p => load_record row = Some p) good ps ->
  records_outcome (good ++ rest) = (qs ← records_outcome rest; Returned (ps ++ qs)).
Proof.
  induction 1 as [|row p good ps Hp Hps IH]; simpl.
  - destruct (records_outcome rest); reflexivity.
  - pose proof (record_outcome_load row) as Hrow. rewrite Hp in Hrow. rewrite Hrow. simpl.
    rewrite IH. destruct (records_outcome rest); reflexivity.
Qed.

(** X1.  [loadProcesses] returns a list exactly when every record is well
    formed (at least three fields, the first three decimal int64s, and the
    fourth too when the record has exactly four), and the list then holds
    the descriptors of the records in order: priority 0 unless the record
    has exactly four fields, the unexported fields zero, the fields after
    the third of a longer record never read. *)
Theorem loadProcesses_returns_the_records (rows : list (list string)) (ps : list Process) :
  loadProcesses (CsvRows rows) = Returned (Processes ps)
  <-> Forall2 (fun row p => load_record row = Some p) rows ps.
Proof.
  rewrite loadProcesses_records, <- records_outcome_Returned.
  destruct (records_outcome rows); simpl; split; congruence.
Qed.

(** X2.  The first record that is not well formed decides how
    [loadProcesses] ends: the records after it are not looked at, and the
    call ends as it does on that record alone, with exit status 1 or, only
    for a record of fewer than three fields, with an index out of range. *)
Theorem loadProcesses_stops_at_the_first_bad_record
    (good : list (list string)) (bad : list string) (rest : list (list string))
    (ps : list Process) :
  Forall2 (fun row p => load_record row = Some p) good ps ->
  load_record bad = None ->
  loadProcesses (CsvRows (good ++ bad :: rest)) = loadProcesses (CsvRows [bad]) /\
  (loadProcesses (CsvRows [bad]) = Exited 1 \/
   ((length bad < 3)%nat /\ loadProcesses (CsvRows [bad]) = Panicked IndexOutOfRange)).
Proof.
  intros Hgood Hbad. rewrite !loadProcesses_records, (records_outcome_app _ _ ps Hgood).
  simpl. pose proof (record_outcome_load bad) as H. rewrite Hbad in H.
  destruct H as [-> | [Hlen ->]]; simpl; auto.
Qed.

(** A good record, one with a burst that is no number, one never read. *)
Lemma loadProcesses_stops_at_the_first_bad_record_witness :
  loadProcesses (CsvRows [["1"; "5"; "0"]; ["2"; "x"; "3"]; ["zzz"]]%string)
  = loadProcesses (CsvRows [["2"; "x"; "3"]]%string) /\
  (loadProcesses (CsvRows [["2"; "x"; "3"]]%string) = Exited 1 \/
   ((length ["2"; "x"; "3"]%string < 3)%nat /\
    loadProcesses (CsvRows [["2"; "x"; "3"]]%string) = Panicked IndexOutOfRange)).
Proof.
  apply (loadProcesses_stops_at_the_first_bad_record
           [["1"; "5"; "0"]]%string ["2"; "x"; "3"]%string [["zzz"]]%string [process 1 5 0 0]).
  - repeat constructor.
  - reflexivity.
Defined.

(** X3.  When every record has at least three fields [loadProcesses] does
    not panic: it exits with status 1, or returns one descriptor per
    record. *)
Theorem loadProcesses_exits_or_loads (rows : list (list string)) :
  Forall (fun row => (3 <= length row)%nat) rows ->
  loadProcesses (CsvRows rows) = Exited 1 \/
  exists ps, loadProcesses (CsvRows rows) = Returned (Processes ps) /\ length ps = length rows.
Proof.
  intros Hrows. rewrite loadProcesses_records.
  induction Hrows as [|row rows Hrow Hrows IH]; simpl.
  - right. exists []. auto.
  - pose proof (record_outcome_load row) as H. destruct (load_record row) as [p|].
    + rewrite H. simpl. destruct IH as [IH | (ps & IH & Hlen)].
      * left. destruct (records_outcome rows); simpl in *; congruence.
      * right. exists (p :: ps). destruct (records_outcome rows); simpl in *; try discriminate.
        injection IH as <-. simpl. auto.
    + left. destruct H as [-> | [Hlt _]]; [reflexivity | lia].
Qed.

(** A record of three fields and one of four. *)
Lemma loadProcesses_exits_or_loads_witness :
  loadProcesses (CsvRows [["1"; "5"; "0"]; ["2"; "3"; "1"; "7"]]%string) = Exited 1 \/
  exists ps, loadProcesses (CsvRows [["1"; "5"; "0"]; ["2"; "3"; "1"; "7"]]%string)
             = Returned (Processes ps) /\
             length ps = length [["1"; "5"; "0"]; ["2"; "3"; "1"; "7"]]%string.
Proof.
  apply (loadProcesses_exits_or_loads [["1"; "5"; "0"]; ["2"; "3"; "1"; "7"]]%string).
  repeat constructor; simpl; lia.
Defined.

(** ** Printing and reading integers *)

Lemma digit_char_digit (d : Z) :
  0 <= d <= 9 -> is_digit (digit_char d) = true /\ digit_value (digit_char d) = d.
Proof.
  intros H. unfold is_digit, digit_value, digit_char.
  rewrite nat_ascii_embedding by lia.
  split; [apply andb_true_intro; split; apply Nat.leb_le; lia | lia].
Qed.

Lemma is_digit_no_sign (c : ascii) :
  is_digit c = true -> Ascii.eqb c "+" = false /\ Ascii.eqb c "-" = false.
Proof.
  unfold is_digit. intros H. apply andb_prop in H as [H1 H2].
  apply Nat.leb_le in H1, H2.
  split; apply Ascii.eqb_neq; intros ->; vm_compute in H1; lia.
Qed.

(** The digits written are those of [n]. *)
Lemma decimal_value (fuel : nat) (n : Z) (acc : string) :
  0 <= n < 10 ^ Z.of_nat fuel ->
  digits_value (decimal fuel n acc) 0 = digits_value acc n.
Proof.
  revert n acc. induction fuel as [|fuel IH]; intros n acc Hn.
  - simpl in *. replace n with 0 by lia. reflexivity.
  - cbn [decimal]. destruct (Z.ltb_spec n 10) as [Hlt | Hge].
    + rewrite Z.mod_small by lia. cbn [digits_value].
      destruct (digit_char_digit n) as [-> ->]; [lia|]. reflexivity.
    + rewrite IH.
      * cbn [digits_value].
        destruct (digit_char_digit (n mod 10)) as [-> ->];
          [pose proof (Z.mod_pos_bound n 10); lia|].
        f_equal. rewrite (Z.div_mod n 10) at 3 by lia. reflexivity.
      * rewrite Nat2Z.inj_succ, Z.pow_succ_r in Hn by lia.
        split; [apply Z.div_pos; lia | apply Z.div_lt_upper_bound; lia].
Qed.

(** The first character written is a digit. *)
Lemma decimal_head (fuel : nat) (n : Z) (acc : string) :
  0 <= n < 10 ^ Z.of_nat fuel -> (1 <= fuel)%nat ->
  exists c rest, decimal fuel n acc = String c rest /\ is_digit c = true.
Proof.
  revert n acc. induction fuel as [|fuel IH]; intros n acc Hn Hf; [lia|].
  cbn [decimal]. destruct (Z.ltb_spec n 10) as [Hlt | Hge].
  - eexists _, _. split; [reflexivity|]. apply digit_char_digit.
    pose proof (Z.mod_pos_bound n 10). lia.
  - rewrite Nat2Z.inj_succ, Z.pow_succ_r in Hn by lia.
    assert (1 <= n / 10 < 10 ^ Z.of_nat fuel) as Hd.
    { split; [apply Z.div_le_lower_bound; lia | apply Z.div_lt_upper_bound; lia]. }
    apply IH; [lia|]. destruct fuel; [simpl in Hd; lia | lia].
Qed.

Lemma ParseInt_Sprint (v : Z) : in_int64 v -> ParseInt (Sprint v) = Some v.
Proof.
  unfold in_int64, min_int64, max_int64. intros Hv. unfold Sprint.
  destruct (Z.ltb_spec v 0) as [Hneg | Hpos].
  - destruct (decimal_head 19 (- v) "") as (c & rest & E & Hc); [simpl; lia | lia |].
    pose proof (decimal_value 19 (- v) "" ltac:(simpl; lia)) as Hd.
    unfold ParseInt. change (Ascii.eqb "-" "+") with false. change (Ascii.eqb "-" "-") with true.
    cbv iota beta. rewrite E in *. rewrite Hd. cbn [digits_value].
    rewrite Z.opp_involutive.
    unfold min_int64, max_int64.
    destruct (Z.leb_spec (- 2 ^ 63) v), (Z.leb_spec v (2 ^ 63 - 1)); try lia. reflexivity.
  - destruct (decimal_head 19 v "") as (c & rest & E & Hc); [simpl; lia | lia |].
    pose proof (decimal_value 19 v "" ltac:(simpl; lia)) as Hd.
    unfold ParseInt. rewrite E in *. destruct (is_digit_no_sign c Hc) as [-> ->].
    rewrite Hd. cbn [digits_value]. unfold min_int64, max_int64.
    destruct (Z.leb_spec (- 2 ^ 63) v), (Z.leb_spec v (2 ^ 63 - 1)); try lia. reflexivity.
Qed.

(** X4.  [mustStrToInt] reads back what [fmt.Sprint] prints for an int64:
    it returns the number and does not exit. *)
Theorem mustStrToInt_reads_back_Sprint (v : Z) :
  in_int64 v -> mustStrToInt (Sprint v) = Returned v.
Proof. intros Hv. apply mustStrToInt_Some, ParseInt_Sprint, Hv. Qed.

Lemma mustStrToInt_reads_back_Sprint_witness :
  mustStrToInt (Sprint (- 42)) = Returned (- 42).
Proof.
  apply (mustStrToInt_reads_back_Sprint (- 42)).
  unfold in_int64, min_int64, max_int64. lia.
Defined.

Lemma decimal_length_min (fuel : nat) (n : Z) (acc : string) :
  (1 <= fuel)%nat -> (1 + String.length acc <= String.length (decimal fuel n acc))%nat.
Proof.
  revert n acc. induction fuel as [|fuel IH]; intros n acc Hf; [lia|].
  cbn [decimal]. destruct (n <? 10); [simpl; lia|].
  destruct fuel as [|fuel]; [simpl; lia|].
  etransitivity; [|apply IH; lia]. simpl. lia.
Qed.

(** At most [k] digits are written exactly for the numbers below [10 ^ k]. *)
Lemma decimal_length (fuel : nat) (n : Z) (acc : string) (k : nat) :
  0 <= n -> (1 <= k < fuel)%nat ->
  (String.length (decimal fuel n acc) <= k + String.length acc)%nat <-> n < 10 ^ Z.of_nat k.
Proof.
  revert n acc k. induction fuel as [|fuel IH]; intros n acc k Hn Hk; [lia|].
  cbn [decimal]. destruct (Z.ltb_spec n 10) as [Hlt | Hge].
  - simpl. split; [intros _ | lia].
    assert (10 ^ 1 <= 10 ^ Z.of_nat k) by (apply Z.pow_le_mono_r; lia). lia.
  - destruct (decide (k = 1%nat)) as [-> | Hk1].
    + pose proof (decimal_length_min fuel (n / 10) (String (digit_char (n mod 10)) acc)
                    ltac:(lia)) as Hmin.
      simpl in Hmin. simpl. split; lia.
    + pose proof (IH (n / 10) (String (digit_char (n mod 10)) acc) (k - 1)%nat
                    ltac:(apply Z.div_pos; lia) ltac:(lia)) as Hk'.
      cbn [String.length] in Hk'.
      assert (10 ^ Z.of_nat k = 10 * 10 ^ Z.of_nat (k - 1)) as Epow.
      { replace (Z.of_nat k) with (Z.succ (Z.of_nat (k - 1))) by lia.
        apply Z.pow_succ_r. lia. }
      pose proof (Z.div_mod n 10 ltac:(lia)). pose proof (Z.mod_pos_bound n 10 ltac:(lia)).
      split; intros Hl.
      * assert (n / 10 < 10 ^ Z.of_nat (k - 1)) by (apply Hk'; lia). lia.
      * assert (n / 10 < 10 ^ Z.of_nat (k - 1)) as Hlt by (apply Z.div_lt_upper_bound; lia).
        apply Hk' in Hlt. lia.
Qed.

Lemma len_Sprint_short (v : Z) : len (Sprint v) <= 9 <-> ~ long_id v.
Proof.
  unfold len, Sprint, long_id. destruct (Z.ltb_spec v 0) as [Hneg | Hpos].
  - pose proof (decimal_length 19 (- v) "" 8 ltac:(lia) ltac:(lia)) as H.
    cbn [String.length] in *. change (Z.of_nat 8) with 8 in H. lia.
  - pose proof (decimal_length 19 v "" 9 ltac:(lia) ltac:(lia)) as H.
    cbn [String.length] in *. change (Z.of_nat 9) with 9 in H. lia.
Qed.

(** ** CheckPriority *)

Lemma index64_Returned {A} (s : list A) (i : Z) (x : A) :
  0 <= i -> s !! Z.to_nat i = Some x -> index64 s i = Returned x.
Proof.
  intros Hi Hx. unfold index64. destruct (Z.ltb_spec i 0); [lia|]. apply index_Returned, Hx.
Qed.

Lemma index64_out_of_range {A} (s : list A) (i : Z) :
  ~ in_range s i -> index64 s i = Panicked IndexOutOfRange.
Proof.
  unfold in_range, index64, index. intros H. destruct (Z.ltb_spec i 0); [reflexivity|].
  rewrite lookup_ge_None_2; [reflexivity | lia].
Qed.

Lemma store64_Returned {A} (s : list A) (i : Z) (x : A) :
  in_range s i -> store64 s i x = Returned (<[Z.to_nat i := x]> s).
Proof.
  unfold in_range, store64. intros H. destruct (Z.ltb_spec i 0); [lia|].
  apply store_Returned. lia.
Qed.

Lemma replace_Permutation {A} (s : list A) (j : nat) (a b : A) :
  s !! j = Some b -> b :: <[j := a]> s ≡ₚ a :: s.
Proof.
  revert j. induction s as [|x s IH]; intros j Hj; [discriminate|].
  destruct j as [|j]; simpl in *.
  - injection Hj as ->. apply perm_swap.
  - rewrite (perm_swap x b), (IH j Hj). apply perm_swap.
Qed.

(** Two entries that change places: a permutation. *)
Lemma swap_Permutation {A} (s : list A) (i j : nat) (a b : A) :
  s !! i = Some a -> s !! j = Some b -> <[j := a]> (<[i := b]> s) ≡ₚ s.
Proof.
  revert i j. induction s as [|x s IH]; intros i j Ha Hb; [discriminate|].
  destruct i as [|i], j as [|j]; simpl in *.
  - injection Ha as ->. reflexivity.
  - injection Ha as ->. apply replace_Permutation, Hb.
  - injection Hb as ->. apply replace_Permutation, Ha.
  - f_equiv. apply IH; assumption.
Qed.

(** The result of [CheckPriority] on indices in range. *)
Lemma CheckPriority_Returned (arr : list Process) (index1 index2 : Z) (a b : Process) :
  0 <= index1 -> 0 <= index2 ->
  arr !! Z.to_nat index1 = Some a -> arr !! Z.to_nat index2 = Some b ->
  CheckPriority arr index1 index2
  = Returned (if (Priority b <? Priority a) && (BurstDuration b <? BurstDuration a)
              then <[Z.to_nat index2 := a]> (<[Z.to_nat index1 := b]> arr)
              else arr).
Proof.
  intros H1 H2 Ha Hb. unfold CheckPriority.
  rewrite !(index64_Returned _ _ _ H1 Ha), !(index64_Returned _ _ _ H2 Hb).
  cbn [mbind Outcome_bind mret Outcome_ret].
  destruct (Z.ltb_spec (Priority a) (Priority b)) as [Hlt | Hge].
  - destruct (Z.ltb_spec (Priority b) (Priority a)); [lia | reflexivity].
  - destruct (Priority b <? Priority a); [|reflexivity].
    destruct (BurstDuration b <? BurstDuration a); [|reflexivity].
    rewrite store64_Returned by (apply lookup_lt_Some in Ha; unfold in_range; lia).
    cbn [mbind Outcome_bind].
    rewrite store64_Returned
      by (apply lookup_lt_Some in Hb; unfold in_range; rewrite length_insert; lia).
    reflexivity.
Qed.

(** An index outside the slice: the first read of it panics. *)
Lemma CheckPriority_Panicked (arr : list Process) (index1 index2 : Z) :
  ~ (in_range arr index1 /\ in_range arr index2) ->
  CheckPriority arr index1 index2 = Panicked IndexOutOfRange.
Proof.
  intros Hout. unfold CheckPriority.
  destruct (decide (in_range arr index1)) as [H1 | H1].
  - assert (~ in_range arr index2) as H2 by tauto.
    destruct (lookup_lt_is_Some_2 arr (Z.to_nat index1)) as [a Ha]; [unfold in_range in H1; lia|].
    rewrite (index64_Returned _ _ _ (proj1 H1) Ha), (index64_out_of_range _ _ H2). reflexivity.
  - rewrite (index64_out_of_range _ _ H1). reflexivity.
Qed.

(** X5.  [CheckPriority] returns when both indices are within the slice,
    and panics with an index out of range otherwise.  What it returns is
    a permutation of its argument that differs from it at most at the two
    indices. *)
Theorem CheckPriority_permutes_two_entries (arr : list Process) (index1 index2 : Z) :
  (in_range arr index1 /\ in_range arr index2 ->
   exists arr', CheckPriority arr index1 index2 = Returned arr' /\
                arr' ≡ₚ arr /\
                forall j, j <> Z.to_nat index1 -> j <> Z.to_nat index2 -> arr' !! j = arr !! j) /\
  (~ (in_range arr index1 /\ in_range arr index2) ->
   CheckPriority arr index1 index2 = Panicked IndexOutOfRange).
Proof.
  split.
  - intros [H1 H2].
    destruct (lookup_lt_is_Some_2 arr (Z.to_nat index1)) as [a Ha]; [unfold in_range in H1; lia|].
    destruct (lookup_lt_is_Some_2 arr (Z.to_nat index2)) as [b Hb]; [unfold in_range in H2; lia|].
    eexists. split; [apply (CheckPriority_Returned _ _ _ a b); (assumption || apply H1 || apply H2)|].
    destruct (_ && _).
    + split; [apply swap_Permutation; assumption|].
      intros j Hj1 Hj2. rewrite !list_lookup_insert_ne by congruence. reflexivity.
    + split; reflexivity.
  - apply CheckPriority_Panicked.
Qed.

Lemma CheckPriority_permutes_two_entries_witness :
  exists arr', CheckPriority [process 1 5 0 3; process 2 3 1 2] 0 1 = Returned arr' /\
               arr' ≡ₚ [process 1 5 0 3; process 2 3 1 2] /\
               forall j, j <> Z.to_nat 0 -> j <> Z.to_nat 1 ->
                         arr' !! j = [process 1 5 0 3; process 2 3 1 2] !! j.
Proof.
  apply (proj1 (CheckPriority_permutes_two_entries [process 1 5 0 3; process 2 3 1 2] 0 1)).
  unfold in_range. simpl. lia.
Defined.

(** X6.  A second call of [CheckPriority] on the result of a call, with the
    same indices, changes nothing: after a call the entry at the first
    index no longer has both the greater priority number and the greater
    burst. *)
Theorem CheckPriority_twice (arr arr' : list Process) (index1 index2 : Z) :
  CheckPriority arr index1 index2 = Returned arr' ->
  CheckPriority arr' index1 index2 = Returned arr'.
Proof.
  intros E.
  destruct (decide (in_range arr index1 /\ in_range arr index2)) as [[H1 H2] | Hout].
  2:{ rewrite (CheckPriority_Panicked arr index1 index2 Hout) in E. discriminate. }
  destruct (lookup_lt_is_Some_2 arr (Z.to_nat index1)) as [a Ha]; [unfold in_range in H1; lia|].
  destruct (lookup_lt_is_Some_2 arr (Z.to_nat index2)) as [b Hb]; [unfold in_range in H2; lia|].
  pose proof (lookup_lt_Some _ _ _ Ha) as Hi1. pose proof (lookup_lt_Some _ _ _ Hb) as Hi2.
  rewrite (CheckPriority_Returned _ _ _ a b) in E by (assumption || apply H1 || apply H2).
  injection E as <-.
  destruct (Z.ltb_spec (Priority b) (Priority a)) as [Hp | Hp]; cbn [andb].
  2:{ rewrite (CheckPriority_Returned _ _ _ a b) by (assumption || apply H1 || apply H2).
      destruct (Z.ltb_spec (Priority b) (Priority a)); [lia | reflexivity]. }
  destruct (Z.ltb_spec (BurstDuration b) (BurstDuration a)) as [Hb' | Hb'].
  2:{ rewrite (CheckPriority_Returned _ _ _ a b) by (assumption || apply H1 || apply H2).
      destruct (Z.ltb_spec (BurstDuration b) (BurstDuration a)); [lia|].
      rewrite andb_false_r. reflexivity. }
  assert (Z.to_nat index1 <> Z.to_nat index2) as Hne
    by (intros Heq; rewrite Heq in Ha; assert (a = b) by congruence; subst; lia).
  rewrite (CheckPriority_Returned _ _ _ b a); try (apply H1 || apply H2).
  - destruct (Z.ltb_spec (Priority a) (Priority b)); [lia | reflexivity].
  - rewrite list_lookup_insert_ne by congruence. apply list_lookup_insert_eq. lia.
  - apply list_lookup_insert_eq. rewrite length_insert. lia.
Qed.

(** The call that swaps the two entries, and the call after it. *)
Lemma CheckPriority_twice_witness :
  CheckPriority [process 2 3 1 2; process 1 5 0 3] 0 1
  = Returned [process 2 3 1 2; process 1 5 0 3].
Proof.
  apply (CheckPriority_twice [process 1 5 0 3; process 2 3 1 2]
           [process 2 3 1 2; process 1 5 0 3] 0 1).
  reflexivity.
Defined.

(** ** tickUntilNextPriority *)

(** A process marked done: every tick takes one more from its burst. *)
Lemma tick_finished (fuel : nat) (tick : Z) (p1 p2 : Process) :
  isDone p1 = true ->
  0 <= tick <= ArrivalTime p2 -> ArrivalTime p2 <= max_int64 ->
  min_int64 <= BurstDuration p1 - (ArrivalTime p2 - tick) -> BurstDuration p1 <= max_int64 ->
  (Z.to_nat (ArrivalTime p2 - tick) < fuel)%nat ->
  tickUntilNextPriority fuel tick p1 p2
  = Some (ArrivalTime p2, set_BurstDuration (BurstDuration p1 - (ArrivalTime p2 - tick)) p1, p2).
Proof.
  unfold min_int64, max_int64.
  revert tick p1. induction fuel as [|fuel IH]; intros tick p1 Hdone Htick Hmax Hmin Hb Hfuel; [lia|].
  cbn [tickUntilNextPriority]. destruct (Z.eqb_spec tick (ArrivalTime p2)) as [-> | Hne].
  - rewrite Z.sub_diag, Z.sub_0_r. destruct p1; reflexivity.
  - rewrite Hdone, andb_false_r.
    rewrite add64_small, sub64_small by (unfold in_int64, min_int64, max_int64; lia).
    rewrite IH; [| simpl; first [exact Hdone | lia] ..].
    destruct p1; unfold set_BurstDuration; simpl. f_equal. f_equal. f_equal. f_equal. lia.
Qed.

(** X7.  Started at a tick not after the arrival of [p2], with a process
    [p1] that is not done and has a burst of at least 0,
    [tickUntilNextPriority] returns (given fuel for the ticks) at the
    arrival of [p2] and leaves [p2] as it is.  If the burst of [p1] lasts
    until then, the ticks are taken from it and [p1] is not marked done,
    not even when nothing is left.  Otherwise [p1] is marked done with the
    tick at which its burst ended as stopping time, and every tick after
    the one that marked it is still taken from the burst, which ends
    below 0. *)
Theorem tickUntilNextPriority_runs_to_the_arrival (fuel : nat) (tick : Z) (p1 p2 : Process) :
  0 <= tick <= ArrivalTime p2 -> ArrivalTime p2 <= max_int64 ->
  0 <= BurstDuration p1 <= max_int64 -> isDone p1 = false ->
  (Z.to_nat (ArrivalTime p2 - tick) < fuel)%nat ->
  tickUntilNextPriority fuel tick p1 p2
  = Some (ArrivalTime p2,
          (if ArrivalTime p2 - tick <=? BurstDuration p1
           then set_BurstDuration (BurstDuration p1 - (ArrivalTime p2 - tick)) p1
           else set_BurstDuration (BurstDuration p1 + 1 - (ArrivalTime p2 - tick))
                  (set_stoppingTime (tick + BurstDuration p1) (set_isDone true p1))),
          p2).
Proof.
  unfold max_int64.
  revert tick p1. induction fuel as [|fuel IH]; intros tick p1 Htick Hmax Hb Hdone Hfuel; [lia|].
  cbn [tickUntilNextPriority]. destruct (Z.eqb_spec tick (ArrivalTime p2)) as [-> | Hne].
  - rewrite Z.sub_diag, Z.sub_0_r. destruct (Z.leb_spec 0 (BurstDuration p1)); [|lia].
    destruct p1; reflexivity.
  - rewrite Hdone. cbn [negb]. rewrite andb_true_r.
    rewrite add64_small by (unfold in_int64, min_int64, max_int64; lia).
    destruct (Z.eqb_spec (BurstDuration p1) 0) as [E0 | Hpos].
    + rewrite tick_finished;
        [| simpl; unfold min_int64, max_int64; first [reflexivity | lia] ..].
      simpl. rewrite E0. destruct (Z.leb_spec (ArrivalTime p2 - tick) 0); [lia|].
      destruct p1; unfold set_BurstDuration, set_stoppingTime, set_isDone; simpl.
      f_equal. f_equal. f_equal. f_equal; lia.
    + rewrite sub64_small by (unfold in_int64, min_int64, max_int64; lia).
      rewrite IH; [| simpl; first [exact Hdone | lia] ..].
      simpl.
      destruct (Z.leb_spec (ArrivalTime p2 - (tick + 1)) (BurstDuration p1 - 1)),
               (Z.leb_spec (ArrivalTime p2 - tick) (BurstDuration p1)); try lia.
      all: destruct p1; unfold set_BurstDuration, set_stoppingTime, set_isDone; simpl.
      all: f_equal; f_equal; f_equal; f_equal; lia.
Qed.

(** A burst of 2 and five ticks: done at 2, the burst ends at -2. *)
Lemma tickUntilNextPriority_runs_to_the_arrival_witness :
  tickUntilNextPriority 6 0 (process 1 2 0 0) (process 2 4 5 0)
  = Some (5, set_BurstDuration (- 2) (set_stoppingTime 2 (set_isDone true (process 1 2 0 0))),
          process 2 4 5 0).
Proof.
  apply (tickUntilNextPriority_runs_to_the_arrival 6 0 (process 1 2 0 0) (process 2 4 5 0)).
  - simpl. lia.
  - simpl. unfold max_int64. lia.
  - simpl. unfold max_int64. lia.
  - reflexivity.
  - simpl. lia.
Defined.

(** ** The title and the chart *)

Lemma length_repeat_string (c : ascii) (n : nat) :
  String.length (repeat_string (String c "") n) = n.
Proof. induction n as [|n IH]; simpl; [reflexivity | rewrite IH; reflexivity]. Qed.

(** X8.  [outputTitle] never panics.  It writes three lines: a rule of
    twice as many dashes as the title has bytes, the title after half as
    many spaces (rounded down) and the space [fmt.Fprintln] puts between
    its operands, and the rule again. *)
Theorem outputTitle_never_panics (ttl : string) :
  let rule := repeat_string "-" (2 * String.length ttl) in
  let indent := repeat_string " " (String.length ttl / 2) in
  outputTitle ttl
  = Wrote (((rule ++ newline) ++ indent ++ " " ++ ttl ++ newline) ++ rule ++ newline)%string /\
  String.length rule = (2 * String.length ttl)%nat /\
  String.length indent = (String.length ttl / 2)%nat.
Proof.
  cbv zeta. rewrite !length_repeat_string. split; [|split; reflexivity].
  unfold outputTitle, Repeat, len.
  destruct (Z.ltb_spec (Z.of_nat (String.length ttl) * 2) 0) as [H | _]; [lia|].
  destruct (Z.ltb_spec (Z.of_nat (String.length ttl) ÷ 2) 0) as [H | _].
  { pose proof (Z.quot_pos (Z.of_nat (String.length ttl)) 2). lia. }
  replace (Z.to_nat (Z.of_nat (String.length ttl) * 2)) with (2 * String.length ttl)%nat by lia.
  replace (Z.to_nat (Z.of_nat (String.length ttl) ÷ 2)) with (String.length ttl / 2)%nat.
  - reflexivity.
  - rewrite Z.quot_div_nonneg by lia. change 2 with (Z.of_nat 2).
    rewrite <- Nat2Z.inj_div, Nat2Z.id. reflexivity.
Qed.

(** The padding count is negative from an id of ten characters on. *)
Lemma padding_count_negative (l : Z) : (8 - l) ÷ 2 < 0 <-> 10 <= l.
Proof. Z.to_euclidean_division_equations. lia. Qed.

Lemma Repeat_None (s : string) (count : Z) : Repeat s count = None <-> count < 0.
Proof. unfold Repeat. destruct (Z.ltb_spec count 0); split; (discriminate || lia || reflexivity). Qed.

Lemma gantt_cells_panicked (g : list TimeSlice) (w : string) :
  panicked (gantt_cells g w) = true <-> Exists (fun s => long_id (PID s)) g.
Proof.
  revert w. induction g as [|s g IH]; intros w; cbn [gantt_cells].
  - rewrite Exists_nil. simpl. split; [discriminate | tauto].
  - rewrite Exists_cons.
    destruct (Repeat " " _) as [padding|] eqn:E.
    + rewrite IH. split; [tauto|]. intros [Hs | Hg]; [|exact Hg].
      exfalso. assert (Repeat " " ((8 - len (Sprint (PID s))) ÷ 2) <> None) as Hne by congruence.
      apply Hne, Repeat_None, padding_count_negative.
      destruct (Z.le_gt_cases (len (Sprint (PID s))) 9) as [Hle | Hgt]; [|lia].
      apply len_Sprint_short in Hle. contradiction.
    + simpl. split; [intros _ | reflexivity]. left.
      apply Repeat_None, padding_count_negative in E.
      pose proof (len_Sprint_short (PID s)) as H. unfold long_id in *.
      destruct (Z.le_gt_cases (PID s) (- 10 ^ 8)) as [Hl | Hl]; [left; exact Hl|].
      destruct (Z.le_gt_cases (10 ^ 9) (PID s)) as [Hr | Hr]; [right; exact Hr|].
      assert (len (Sprint (PID s)) <= 9) by (apply H; lia). lia.
Qed.

Lemma outputGantt_panicked (g : list TimeSlice) :
  panicked (outputGantt g)
  = panicked (gantt_cells g ("Gantt schedule" ++ newline ++ "|")%string).
Proof. unfold outputGantt. destruct (gantt_cells _ _); reflexivity. Qed.

(** X9.  [outputGantt] panics (in [strings.Repeat], on a negative count)
    exactly when the timeline has a slice whose id prints with ten
    characters or more: an id of at least 10^9 or at most -10^8. *)
Theorem outputGantt_panics_on_long_ids (g : list TimeSlice) :
  panicked (outputGantt g) = true <-> Exists (fun s => long_id (PID s)) g.
Proof. rewrite outputGantt_panicked. apply gantt_cells_panicked. Qed.

Lemma short_ids_are_drawn (g : list TimeSlice) :
  Forall (fun s => ~ long_id (PID s)) g -> panicked (outputGantt g) = false.
Proof.
  intros H. destruct (panicked (outputGantt g)) eqn:E; [|reflexivity].
  rewrite outputGantt_panicked in E.
  apply gantt_cells_panicked, Exists_exists in E as (s & Hs & Hlong).
  rewrite Forall_forall in H. destruct (H s Hs Hlong).
Qed.

(** ** First-come-first-serve on every list *)

Lemma chained_snoc (start : Z) (g : list TimeSlice) (stop : Z) (s : TimeSlice) :
  chained start g stop -> Start s = stop -> chained start (g ++ [s]) (Stop s).
Proof.
  revert start. induction g as [|s' g IH]; intros start; simpl.
  - intros -> Hs. auto.
  - intros [Hs' Hg] Hs. split; [exact Hs' | apply IH; assumption].
Qed.

Lemma chained_snoc_slice (start : Z) (g : list TimeSlice) (stop stop' id : Z) :
  chained start g stop -> chained start (g ++ [mkTimeSlice id stop stop']) stop'.
Proof. intros H. apply (chained_snoc _ _ _ (mkTimeSlice id stop stop') H). reflexivity. Qed.

Lemma service64_take_S (start : Z) (ps : list Process) (i : nat) (p : Process) :
  ps !! i = Some p ->
  service64 start (take (S i) ps) = add64 (service64 start (take i ps)) (BurstDuration p).
Proof.
  intros Hp. rewrite (take_S_r _ _ _ Hp). apply service64_snoc.
Qed.

Lemma FCFS_body_keeps_shape (ps : list Process) (i : nat) (v : FCFSVars) :
  (i < length ps)%nat -> FCFS_shape ps i v ->
  returns (FCFS_body ps i v) (FCFS_shape ps (S i)).
Proof.
  intros Hi (Hs & Hlen & Hg & Hw & Hall). unfold FCFS_body. repeat wp.
  rename x into p, H into Hp. unfold FCFS_shape. cbn [f_serviceTime f_schedule f_gantt f_waitingTime].
  split; [rewrite (service64_take_S _ _ _ _ Hp), Hs; reflexivity|].
  split; [lengths|]. split; [lengths|].
  split; [rewrite list_lookup_insert_eq by lia; reflexivity|].
  intros j q Hj Hq. destruct (decide (j = i)) as [-> | Hne].
  - assert (q = p) as -> by congruence.
    eexists. rewrite lookup_app_r, Hg, Nat.sub_diag by lia.
    rewrite list_lookup_insert_eq by lia.
    rewrite (service64_take_S _ _ _ _ Hp), Hs.
    split; [reflexivity|]. split; [reflexivity|]. split.
    + intros Ha. destruct (Z.ltb_spec 0 (ArrivalTime p)); [reflexivity | lia].
    + intros Ha. destruct (Z.ltb_spec 0 (ArrivalTime p)); [lia|].
      destruct i as [|i']; [exact Hw|].
      rewrite list_lookup_insert_ne by lia. exact Hw.
  - destruct (Hall j q ltac:(lia) Hq) as (wait & Hgj & Hrj & Hpos & Hcarry).
    exists wait. rewrite lookup_app_l by lia.
    rewrite list_lookup_insert_ne by lia.
    split; [exact Hgj|]. split; [exact Hrj|]. split; [exact Hpos|].
    intros Ha. specialize (Hcarry Ha). destruct j as [|j']; [exact Hcarry|].
    rewrite list_lookup_insert_ne by lia. exact Hcarry.
Qed.

(** [FCFSSchedule] returns for every list, in the state the invariant
    describes. *)
Lemma FCFS_returns_shape (ttl : string) (ps : list Process) :
  returns (FCFSSchedule ttl ps)
    (fun run => processes_after run = ps /\
                exists v, FCFS_shape ps (length ps) v /\
                          gantt (report run) = f_gantt v /\
                          schedule (report run) = f_schedule v).
Proof.
  unfold FCFSSchedule. wp.
  apply (returns_for_range _ (FCFS_shape ps)).
  - unfold FCFS_shape, FCFS_init. simpl. rewrite length_replicate.
    repeat split; try reflexivity. intros; lia.
  - intros i v Hi Hv. apply FCFS_body_keeps_shape; [lia | exact Hv].
  - intros v Hv. wp. simpl. split; [reflexivity|]. exists v. auto.
Qed.

(** X11.  For every list, whatever the arrival times, [FCFSSchedule]
    leaves the caller's slice as it is and emits one slice and one row
    per process, in input order: the slice bears the id of the process
    and stops at the int64 sum of the bursts up to and including it (idle
    time is never added); the row has seven columns, the first four the
    id, priority, burst and arrival of the process. *)
Theorem FCFS_one_slice_per_process (ttl : string) (ps : list Process) :
  returns (FCFSSchedule ttl ps)
    (fun run =>
       processes_after run = ps /\
       length (gantt (report run)) = length ps /\
       length (schedule (report run)) = length ps /\
       forall i p, ps !! i = Some p ->
         exists s row,
           gantt (report run) !! i = Some s /\
           PID s = ProcessID p /\
           Stop s = service64 0 (take (S i) ps) /\
           schedule (report run) !! i = Some row /\
           length row = 7%nat /\
           take 4 row = [ProcessID p; Priority p; BurstDuration p; ArrivalTime p]).
Proof.
  eapply returns_weaken; [apply FCFS_returns_shape|].
  intros run (Hps & v & (_ & Hlen & Hg & _ & Hall) & -> & ->).
  split; [exact Hps|]. split; [exact Hg|]. split; [exact Hlen|].
  intros i p Hp.
  destruct (Hall i p (lookup_lt_Some _ _ _ Hp) Hp) as (wait & Hgi & Hri & _).
  eexists _, _. split; [exact Hgi|]. split; [reflexivity|]. split; [reflexivity|].
  split; [exact Hri|]. split; reflexivity.
Qed.

(** X12.  The wait column of [FCFSSchedule], for every list: the slice of a
    process starts at its wait plus its arrival; for a positive arrival
    time the wait is the time served so far minus the arrival; for any
    other arrival time [waitingTime] is not assigned, so the process gets
    the wait of the process before it (0 if it is the first). *)
Theorem FCFS_wait_is_carried_over (ttl : string) (ps : list Process) :
  returns (FCFSSchedule ttl ps)
    (fun run =>
       forall i p, ps !! i = Some p ->
         exists wait s,
           schedule (report run) !! i ≫= row_wait = Some wait /\
           gantt (report run) !! i = Some s /\
           Start s = add64 wait (ArrivalTime p) /\
           (0 < ArrivalTime p -> wait = sub64 (service64 0 (take i ps)) (ArrivalTime p)) /\
           (ArrivalTime p <= 0 ->
            match i with
            | O => wait = 0
            | S i' => schedule (report run) !! i' ≫= row_wait = Some wait
            end)).
Proof.
  eapply returns_weaken; [apply FCFS_returns_shape|].
  intros run (Hps & v & (_ & Hlen & Hg & _ & Hall) & -> & ->).
  intros i p Hp.
  destruct (Hall i p (lookup_lt_Some _ _ _ Hp) Hp) as (wait & Hgi & Hri & Hpos & Hcarry).
  exists wait. eexists. rewrite Hri. split; [reflexivity|]. split; [exact Hgi|].
  split; [reflexivity|]. split; assumption.
Qed.

Lemma FCFS_returns_ids (P : Z -> Prop) (ttl : string) (ps : list Process) :
  Forall (bears P) ps ->
  returns (FCFSSchedule ttl ps)
          (fun run => processes_after run = ps /\
                      Forall (fun s => P (PID s)) (gantt (report run))).
Proof.
  intros Hps. eapply returns_weaken; [apply FCFS_returns_shape|].
  intros run (Hafter & v & (_ & _ & Hg & _ & Hall) & -> & _).
  split; [exact Hafter|]. apply Forall_lookup. intros j s Hs.
  pose proof (lookup_lt_Some _ _ _ Hs) as Hj. rewrite Hg in Hj.
  destruct (lookup_lt_is_Some_2 ps j Hj) as [p Hp].
  destruct (Hall j p Hj Hp) as (wait & Hgj & _).
  rewrite Hgj in Hs. injection Hs as <-. simpl.
  apply (Forall_lookup_1 _ _ _ _ Hps Hp).
Qed.

(** ** Ids, rows and slices of the other schedulers *)

Ltac solve_bears :=
  repeat first
    [ assumption
    | apply Forall_insert
    | apply Forall_app_2
    | apply Forall_cons_2
    | apply Forall_take
    | apply Forall_drop
    | apply Forall_nil_2
    | match goal with |- bears _ (if ?b then _ else _) => destruct b end
    | solve [unfold bears in *; simpl; assumption] ].

Ltac derive_bears P :=
  repeat match goal with
         | H : ?l !! ?i = Some ?x |- _ =>
             lazymatch goal with
             | _ : bears P x |- _ => fail
             | _ => assert (bears P x)
                      by (eapply (Forall_lookup_1 (bears P)); [|exact H]; solve_bears)
             end
         end.

Ltac lookup_inserted :=
  repeat match goal with
         | H : <[?i := ?a]> ?l !! ?i = Some ?c |- _ =>
             rewrite list_lookup_insert_eq in H by lengths; injection H as <-
         end.

Lemma input_bears_its_ids (ps : list Process) : Forall (bears (from_input ps)) ps.
Proof. apply Forall_forall. intros p Hp. exists p. auto. Qed.

Lemma SliceStable_not_empty {A} (less : A -> A -> bool) (s : list A) :
  s <> [] -> SliceStable less s <> [].
Proof.
  intros Hne E. apply (f_equal length) in E. rewrite length_SliceStable in E.
  destruct s; [congruence | discriminate].
Qed.

Section Ids.
Variable P : Z -> Prop.

(** Shortest-job-first: the first loop moves and copies processes, and
    never writes an id. *)
Lemma SJF_resume_bears (n m i j : nat) (v : SJFVars) :
  (i < n)%nat -> (j < m)%nat ->
  length (s_copyProc v) = n /\ (m <= length (s_readyQueue v))%nat /\
  Forall (bears P) (s_copyProc v) /\ Forall (bears P) (s_readyQueue v) ->
  returns (SJF_resume i j v)
          (fun v' => length (s_copyProc v') = n /\ (m <= length (s_readyQueue v'))%nat /\
                     Forall (bears P) (s_copyProc v') /\ Forall (bears P) (s_readyQueue v')).
Proof.
  intros Hi Hj (Hn & Hm & Hc & Hq). unfold SJF_resume. repeat wp.
  all: derive_bears P.
  all: simpl; repeat split; try lengths; solve_bears.
Qed.

Lemma SJF_body_bears (n i : nat) (v : SJFVars) :
  (i < n)%nat ->
  length (s_copyProc v) = n /\
  Forall (bears P) (s_copyProc v) /\ Forall (bears P) (s_readyQueue v) ->
  returns (SJF_body i v)
          (fun v' => length (s_copyProc v') = n /\
                     Forall (bears P) (s_copyProc v') /\ Forall (bears P) (s_readyQueue v')).
Proof.
  intros Hi (Hn & Hc & Hq). unfold SJF_body, SJF_preempt. repeat wp.
  all: derive_bears P.
  all: simpl; try (repeat split; try lengths; solve [solve_bears]).
  all: apply (returns_for_range _
                (fun _ v' => length (s_copyProc v') = n /\
                             (length (s_readyQueue v) <= length (s_readyQueue v'))%nat /\
                             Forall (bears P) (s_copyProc v') /\
                             Forall (bears P) (s_readyQueue v')));
    [ repeat split; [exact Hn | lia | exact Hc | exact Hq]
    | intros j t Hj Ht; apply (SJF_resume_bears n); [exact Hi | lia | exact Ht]
    | intros t Ht; repeat split; apply Ht ].
Qed.

Lemma Tally_shape_init (ps : list Process) : Tally_shape P (length ps) (Tally_init ps).
Proof.
  split; [|constructor]. exists []. simpl. rewrite app_nil_r. split; [reflexivity | constructor].
Qed.

Lemma Tally_shape_snoc (n : nat) (t : Tally) (a b c : float) (row : Row) (s : TimeSlice) :
  Tally_shape P n t -> P (PID s) -> row_of_slice row s ->
  Tally_shape P n (mkTally a b c (t_schedule t ++ [row]) (t_gantt t ++ [s])).
Proof.
  intros [(rows & Hrows & Hall) Hids] Hp Hrow. split; simpl.
  - exists (rows ++ [row]).
    rewrite Hrows, <- app_assoc. split; [reflexivity|].
    apply Forall2_app; [exact Hall|]. repeat constructor; apply Hrow.
  - apply Forall_app_2; [exact Hids|]. repeat constructor. exact Hp.
Qed.

Lemma row_of_its_slice (p : Process) (wait turnaround start : Z) :
  row_of_slice (table_row p wait turnaround (stoppingTime p))
               (mkTimeSlice (ProcessID p) start (stoppingTime p)).
Proof. repeat split. Qed.

Lemma SJF_report_shape (n : nat) (rq : list Process) (i : nat) (t : Tally) :
  Forall (bears P) rq -> (i < length rq)%nat -> Tally_shape P n t ->
  returns (SJF_report rq i t) (Tally_shape P n).
Proof.
  intros Hrq Hi Ht. unfold SJF_report. wp. wp. derive_bears P. repeat wp.
  - apply Tally_shape_snoc; [assumption | assumption | apply row_of_its_slice].
  - apply (returns_for_range _ (fun _ _ => True)); [exact I | |].
    + intros j acc Hj _. unfold SJF_discount. repeat wp; exact I.
    + intros acc _. repeat wp.
      apply Tally_shape_snoc; [assumption | assumption | apply row_of_its_slice].
Qed.

Lemma SJF_returns_shape (ttl : string) (ps : list Process) :
  Forall (bears P) ps ->
  returns (SJFSchedule ttl ps)
          (fun run => processes_after run = SliceStable SJF_less ps /\
                      Report_shape P (length ps) (report run)).
Proof.
  intros Hps. apply (SliceStable_Forall _ SJF_less) in Hps.
  unfold SJFSchedule. wp.
  apply (returns_for_range _
           (fun _ v => length (s_copyProc v) = length (SliceStable SJF_less ps) /\
                       Forall (bears P) (s_copyProc v) /\ Forall (bears P) (s_readyQueue v))).
  - simpl. repeat split; [exact Hps | constructor].
  - intros i v Hi Hv. apply SJF_body_bears; [lia | exact Hv].
  - intros v (_ & _ & Hrq). wp.
    apply (returns_for_range _ (fun _ t => Tally_shape P (length ps) t)).
    + rewrite <- (length_SliceStable SJF_less ps). apply Tally_shape_init.
    + intros i t Hi Ht. apply SJF_report_shape; [exact Hrq | lia | exact Ht].
    + intros t Ht. wp. simpl. split; [reflexivity | exact Ht].
Qed.

(** Priority: the same for the three parts of the body of the first loop. *)
Lemma Priority_swap_bears (n i : nat) (v : PriorityVars) :
  (i < n)%nat -> Priority_bears P n v ->
  returns (Priority_swap i v)
          (fun r => match r with Next v' | Break v' => Priority_bears P n v' end).
Proof.
  intros Hi ([Hn Hr] & Hc & Hra). unfold Priority_swap. repeat wp.
  all: try discriminate.
  all: derive_bears P.
  all: unfold Priority_bears, Priority_inv; simpl.
  all: repeat split; try lengths; try assumption.
  all: solve_bears.
Qed.

Lemma Priority_split_bears (cap n i : nat) (pq : list Process) (Temp x : Process)
    (v : PriorityVars) :
  (i < n)%nat -> length pq = n -> (i + 1 < length (p_copyProc v))%nat ->
  bears P x -> Priority_bears P n v ->
  returns (Priority_split cap pq i Temp x v) (fun xv => Priority_bears P n xv.2).
Proof.
  intros Hi Hpq Hnext Hx ([Hn Hr] & Hc & Hra).
  unfold Priority_split, Priority_insert. repeat wp.
  all: derive_bears P.
  all: unfold Priority_bears, Priority_inv; simpl.
  all: repeat split; try lengths; try assumption.
  all: try solve [solve_bears].
  all: destruct (p_ranged v); simpl in *; try assumption.
  all: destruct (decide _); simpl; try exact I; try lengths; try solve [solve_bears].
Qed.

Lemma Priority_body_bears (cap n i : nat) (pq : list Process) (v : PriorityVars) :
  (i < n)%nat -> length pq = n -> Priority_bears P n v ->
  returns (Priority_body cap pq i v)
          (fun r => match r with Next v' | Break v' => Priority_bears P n v' end).
Proof.
  intros Hi Hpq Hv. pose proof Hv as ([Hn Hr] & Hc & Hra). unfold Priority_body.
  apply returns_bind, returns_index.
  { destruct (p_ranged v); simpl; lia. }
  intros x Hx.
  assert (bears P x) as Hbx.
  { eapply (Forall_lookup_1 (bears P)); [|exact Hx].
    destruct (p_ranged v); simpl in *; assumption. }
  repeat wp.
  - apply (returns_weaken _ (fun xv => Priority_bears P n xv.2)).
    + apply Priority_split_bears; assumption.
    + intros [x' v'] Hxv. apply Priority_swap_bears; assumption.
  - apply Priority_swap_bears; [exact Hi | repeat split; assumption].
  - apply Priority_swap_bears; [exact Hi | repeat split; assumption].
Qed.

Lemma mark_last_bears (pid : Z) (k : nat) (copyProc : list Process) :
  (k < length copyProc)%nat \/ k = 0%nat -> Forall (bears P) copyProc ->
  returns (mark_last pid k copyProc)
          (fun c => length c = length copyProc /\ Forall (bears P) c).
Proof.
  induction k as [|k IH]; intros Hk Hc; simpl.
  - wp. auto.
  - repeat wp.
    + derive_bears P. split; [lengths | solve_bears].
    + apply IH; [lia | exact Hc].
Qed.

Lemma Priority_mark_bears (ps : list Process) (n i : nat) (s : list Process * Z) :
  (i < length ps)%nat -> length s.1 = n /\ Forall (bears P) s.1 ->
  returns (Priority_mark ps i s) (fun s' => length s'.1 = n /\ Forall (bears P) s'.1).
Proof.
  intros Hi [Hn Hc]. unfold Priority_mark. destruct s as [copyProc totalBurst]. simpl in *.
  repeat wp; simpl; auto.
  apply (returns_weaken _ (fun c => length c = length copyProc /\ Forall (bears P) c)).
  - apply mark_last_bears; [lia | exact Hc].
  - intros c [Hlen Hc']. wp. simpl. split; [lia | exact Hc'].
Qed.

(** The third loop starts every slice at [serviceTime], where the slice
    before stopped. *)
Lemma Priority_report_shape (n m i : nat) (v : PriorityReport) :
  (i < m)%nat -> PriorityReport_shape P n m v ->
  returns (Priority_report i v) (PriorityReport_shape P n m).
Proof.
  intros Hi (Hm & Hc & Ht & Hchain). unfold Priority_report. repeat wp.
  all: derive_bears P.
  all: lookup_inserted.
  all: unfold PriorityReport_shape; cbn [r_copyProc r_tally r_serviceTime t_gantt].
  all: split; [lengths|].
  all: split; [solve_bears|].
  all: split; [apply Tally_shape_snoc; [exact Ht | simpl; solve_bears | apply row_of_its_slice] |].
  all: simpl; apply chained_snoc_slice; exact Hchain.
Qed.

Lemma Priority_returns_shape (cap : nat) (ttl : string) (ps : list Process) :
  Forall (bears P) ps ->
  returns (SJFPrioritySchedule cap ttl ps)
          (fun run => processes_after run = ps /\
                      Report_shape P (length ps) (report run) /\
                      exists stop, chained 0 (gantt (report run)) stop).
Proof.
  intros Hps. unfold SJFPrioritySchedule. wp.
  apply (returns_for_range_break _ (Priority_bears P (length ps))).
  - repeat split; simpl; try exact I; [rewrite length_SliceStable; lia | | constructor].
    apply SliceStable_Forall, Hps.
  - intros i v Hi Hv. rewrite length_SliceStable in Hi.
    apply Priority_body_bears; [lia | apply length_SliceStable | exact Hv].
  - intros v (_ & Hc & _). wp.
    apply (returns_for_range _ (fun _ s => length s.1 = length (p_copyProc v) /\
                                           Forall (bears P) s.1)).
    + split; [reflexivity | exact Hc].
    + intros i s Hi Hs. apply Priority_mark_bears; [lia | exact Hs].
    + intros [copyProc totalBurst] [Hlen Hc']. simpl in *. wp.
      apply (returns_for_range _
               (fun _ r => PriorityReport_shape P (length ps) (length copyProc) r)).
      * split; [reflexivity|]. split; [exact Hc'|].
        split; [apply Tally_shape_init | reflexivity].
      * intros i r Hi Hr. apply Priority_report_shape; [lia | exact Hr].
      * intros r (_ & _ & Ht & Hchain). wp. simpl.
        split; [reflexivity|]. split; [exact Ht|]. eexists. exact Hchain.
Qed.

End Ids.

(** Round-robin: the slice of the queue entry at position [j]. *)
Lemma back_to_back_lookup (es : list Process) (start : Z) (j : nat) (e : Process) :
  es !! j = Some e ->
  back_to_back start es !! j
  = Some (mkTimeSlice (ProcessID e) (service64 start (take j es))
                      (add64 (service64 start (take j es)) (BurstDuration e))).
Proof.
  revert start j. induction es as [|e' es IH]; intros start j He; [discriminate|].
  destruct j as [|j]; simpl in *.
  - injection He as ->. reflexivity.
  - rewrite (IH _ _ He). reflexivity.
Qed.

Lemma length_back_to_back (es : list Process) (start : Z) :
  length (back_to_back start es) = length es.
Proof. revert start. induction es as [|e es IH]; intros start; simpl; [reflexivity|]. rewrite IH. reflexivity. Qed.

Lemma back_to_back_chained (es : list Process) (start : Z) :
  chained start (back_to_back start es) (service64 start es).
Proof.
  revert start. induction es as [|e es IH]; intros start; simpl; [reflexivity|].
  split; [reflexivity | apply IH].
Qed.

Lemma back_to_back_ids (P : Z -> Prop) (es : list Process) (start : Z) :
  Forall (bears P) es -> Forall (fun s => P (PID s)) (back_to_back start es).
Proof.
  intros H. revert start. induction H as [|e es He Hes IH]; intros start; simpl; constructor.
  - exact He.
  - apply IH.
Qed.

Lemma RR_enqueue_bears (P : Z -> Prop) (q : Z) (i : nat) (x : Process) (rq : list Process) :
  bears P x -> Forall (bears P) rq -> Forall (bears P) (RR_enqueue q i x rq).
Proof.
  intros Hx Hrq. unfold RR_enqueue. destruct (_ =? _).
  - apply Forall_app. split; [exact Hrq | repeat constructor; exact Hx].
  - apply Forall_app. split; [|repeat constructor; exact Hx].
    apply Forall_app. split; [apply Forall_take, Hrq|].
    constructor; [exact Hx | apply Forall_drop, Hrq].
Qed.

Lemma RR_queue_bears (P : Z -> Prop) (q : Z) (xs : list Process) (i : nat) (rq : list Process) :
  Forall (bears P) xs -> Forall (bears P) rq -> Forall (bears P) (RR_queue q i xs rq).
Proof.
  revert i rq. induction xs as [|x xs IH]; intros i rq Hxs Hrq; simpl; [exact Hrq|].
  apply Forall_cons in Hxs as [Hx Hxs]. apply IH; [exact Hxs|].
  apply RR_enqueue_bears; assumption.
Qed.

(** The queue gets one entry for a process whose burst is the quantum, and
    two for any other. *)
Lemma RR_queue_length (q : Z) (xs : list Process) (i : nat) (rq : list Process) :
  length (RR_queue q i xs rq)
  = (length rq + length xs + length (filter (fun p => BurstDuration p <> q) xs))%nat.
Proof.
  revert i rq. induction xs as [|x xs IH]; intros i rq; simpl; [lia|].
  rewrite IH. unfold RR_enqueue. rewrite filter_cons.
  destruct (Z.eqb_spec (BurstDuration x) q) as [E | E].
  - rewrite decide_False by tauto. rewrite length_app. simpl. lia.
  - rewrite decide_True by exact E.
    rewrite !length_app, length_take. simpl. rewrite length_drop. lia.
Qed.

Lemma RR_returns_shape (P : Z -> Prop) (ttl : string) (ps : list Process) :
  ps <> [] -> Forall (bears P) ps ->
  returns (RRSchedule ttl ps)
          (fun run => processes_after run = ps /\
                      Report_shape P (length ps) (report run) /\
                      (exists stop, chained 0 (gantt (report run)) stop) /\
                      exists q, least_burst ps q /\
                                length (gantt (report run))
                                = (length ps
                                   + length (filter (fun p => BurstDuration p <> q) ps))%nat).
Proof.
  intros Hne Hps.
  destruct (RR_core ttl ps Hne) as (run & q & E & _ & Hq & Hg & rows & Hrows & Hlen & Hall).
  exists run. split; [exact E|].
  split.
  { unfold RRSchedule in E.
    destruct (RR_quantum _) in E; simpl in E; [|discriminate..].
    destruct (for_range _ _ _ _) in E; simpl in E; [|discriminate..].
    destruct (for_range _ _ _ _) in E; simpl in E; [|discriminate..].
    injection E as <-. reflexivity. }
  split; [split|split].
  - exists rows. split; [exact Hrows|]. rewrite Hg.
    apply Forall2_same_length_lookup_2.
    + rewrite length_back_to_back. exact Hlen.
    + intros j row s Hrow Hs.
      destruct (Hall j row Hrow) as (e & wait & He & -> & _).
      rewrite (back_to_back_lookup _ _ _ _ He) in Hs. injection Hs as <-.
      repeat split.
  - rewrite Hg. apply back_to_back_ids, RR_queue_bears; [exact Hps | constructor].
  - rewrite Hg. eexists. apply back_to_back_chained.
  - exists q. split; [exact Hq|]. rewrite Hg, length_back_to_back, RR_queue_length.
    simpl. lia.
Qed.

(** ** Getting to the output calls *)

Lemma returns_and {A} (m : Outcome A) (P Q : A -> Prop) :
  returns m P -> returns m Q -> returns m (fun a => P a /\ Q a).
Proof.
  intros (a & E & Ha) (b & E' & Hb). exists a. rewrite E in E'. injection E' as <-. auto.
Qed.

(** Neither count [outputTitle] passes to [strings.Repeat] is negative. *)
Lemma outputTitle_draws (ttl : string) : panicked (outputTitle ttl) = false.
Proof.
  unfold outputTitle, Repeat, len.
  destruct (Z.ltb_spec (Z.of_nat (String.length ttl) * 2) 0) as [H | _]; [lia|].
  destruct (Z.ltb_spec (Z.of_nat (String.length ttl) ÷ 2) 0) as [H | _]; [|reflexivity].
  pose proof (Z.quot_pos (Z.of_nat (String.length ttl)) 2). lia.
Qed.

Lemma ids_of_the_input_are_drawn (ps : list Process) (g : list TimeSlice) :
  Forall (fun s => from_input ps (PID s)) g -> short_ids ps ->
  panicked (outputGantt g) = false.
Proof.
  intros Hg Hps. apply short_ids_are_drawn.
  eapply Forall_impl; [exact Hg|]. simpl. intros s (p & Hp & <-).
  unfold short_ids in Hps. rewrite Forall_forall in Hps. apply Hps, Hp.
Qed.

Lemma gets_to_output_intro (ps : list Process) (m : Outcome Run) (Q : Run -> Prop) :
  returns m (fun run => Forall (fun s => from_input ps (PID s)) (gantt (report run))) ->
  returns m Q -> gets_to_output ps m Q.
Proof.
  intros Hids HQ. unfold gets_to_output.
  eapply returns_weaken; [apply (returns_and _ _ _ HQ Hids)|].
  intros run [Hq Hg]. split; [exact Hq|]. split; [apply outputTitle_draws|].
  apply ids_of_the_input_are_drawn, Hg.
Qed.

(** What a scheduler computes before its output calls, it gets there with. *)
Lemma FCFS_gets_to_output (ttl : string) (ps : list Process) (Q : Run -> Prop) :
  returns (FCFSSchedule ttl ps) Q -> gets_to_output ps (FCFSSchedule ttl ps) Q.
Proof.
  apply gets_to_output_intro.
  eapply returns_weaken; [apply FCFS_returns_ids, input_bears_its_ids|]. intros run H. apply H.
Qed.

Lemma SJF_gets_to_output (ttl : string) (ps : list Process) (Q : Run -> Prop) :
  returns (SJFSchedule ttl ps) Q -> gets_to_output ps (SJFSchedule ttl ps) Q.
Proof.
  apply gets_to_output_intro.
  eapply returns_weaken; [apply SJF_returns_shape, input_bears_its_ids|]. intros run H. apply H.
Qed.

Lemma Priority_gets_to_output (cap : nat) (ttl : string) (ps : list Process) (Q : Run -> Prop) :
  returns (SJFPrioritySchedule cap ttl ps) Q ->
  gets_to_output ps (SJFPrioritySchedule cap ttl ps) Q.
Proof.
  apply gets_to_output_intro.
  eapply returns_weaken; [apply Priority_returns_shape, input_bears_its_ids|].
  intros run H. apply H.
Qed.

Lemma RR_gets_to_output (ttl : string) (ps : list Process) (Q : Run -> Prop) :
  returns (RRSchedule ttl ps) Q -> gets_to_output ps (RRSchedule ttl ps) Q.
Proof.
  intros HQ. apply gets_to_output_intro; [|exact HQ].
  assert (ps <> []) as Hne.
  { intros ->. destruct HQ as (run & E & _). discriminate. }
  eapply returns_weaken; [apply RR_returns_shape; [exact Hne | apply input_bears_its_ids]|].
  intros run H. apply H.
Qed.

Lemma short_ids_sorted (less : Process -> Process -> bool) (ps : list Process) :
  short_ids ps -> short_ids (SliceStable less ps).
Proof. apply SliceStable_Forall. Qed.

(** X10.  No index is ever out of range in [FCFSSchedule],
    [SJFSchedule] and [SJFPrioritySchedule]: for every list (the priority
    scheduler for every capacity of its copy) each gets to its output
    calls.  There [outputTitle] does not panic, and [outputGantt] does not
    panic when every id of the list prints with at most nine characters;
    on a longer id it can, so the call need not return.  [RRSchedule] gets
    to its output calls, in the same way, for every list but the empty
    one, on which it panics with an index out of range. *)
Theorem schedulers_get_to_their_output (cap : nat) (ttl : string) (ps : list Process) :
  Forall (fun scheduler : list Process -> Outcome Run =>
            gets_to_output ps (scheduler ps) (fun _ => True))
         [FCFSSchedule ttl; SJFSchedule ttl; SJFPrioritySchedule cap ttl] /\
  (ps <> [] -> gets_to_output ps (RRSchedule ttl ps) (fun _ => True)) /\
  (ps = [] -> RRSchedule ttl ps = Panicked IndexOutOfRange).
Proof.
  assert (Forall (bears (fun _ => True)) ps) as Hall
    by (apply Forall_forall; intros; exact I).
  split; [repeat constructor|split].
  - apply FCFS_gets_to_output.
    eapply returns_weaken; [apply FCFS_returns_shape | auto].
  - apply SJF_gets_to_output.
    eapply returns_weaken; [apply (SJF_returns_shape _ ttl ps Hall) | auto].
  - apply Priority_gets_to_output.
    eapply returns_weaken; [apply (Priority_returns_shape _ cap ttl ps Hall) | auto].
  - intros Hne. apply RR_gets_to_output.
    eapply returns_weaken; [apply (RR_returns_shape _ ttl ps Hne Hall) | auto].
  - intros ->. reflexivity.
Qed.

Lemma schedulers_get_to_their_output_witness :
  gets_to_output [process 1 2 0 0; process 2 10 0 0]
    (RRSchedule "Round-robin" [process 1 2 0 0; process 2 10 0 0]) (fun _ => True).
Proof.
  apply (proj1 (proj2 (schedulers_get_to_their_output 0 "Round-robin"
                         [process 1 2 0 0; process 2 10 0 0]))).
  discriminate.
Defined.

(** X13.  No scheduler invents a process: every slice of every timeline
    bears the id of a process of the input (round-robin: for a list that
    is not empty). *)
Theorem timelines_bear_ids_of_the_input (cap : nat) (ttl : string) (ps : list Process) :
  Forall (fun scheduler : list Process -> Outcome Run =>
            returns (scheduler ps)
                    (fun run => Forall (fun s => from_input ps (PID s)) (gantt (report run))))
         [FCFSSchedule ttl; SJFSchedule ttl; SJFPrioritySchedule cap ttl] /\
  (ps <> [] ->
   returns (RRSchedule ttl ps)
           (fun run => Forall (fun s => from_input ps (PID s)) (gantt (report run)))).
Proof.
  pose proof (input_bears_its_ids ps) as Hps. split; [repeat constructor|].
  - eapply returns_weaken; [apply FCFS_returns_ids, Hps|]. intros run H. apply H.
  - eapply returns_weaken; [apply SJF_returns_shape, Hps|]. intros run H. apply H.
  - eapply returns_weaken; [apply Priority_returns_shape, Hps|]. intros run H. apply H.
  - intros Hne.
    eapply returns_weaken; [apply RR_returns_shape; [exact Hne | exact Hps]|].
    intros run H. apply H.
Qed.

Lemma timelines_bear_ids_of_the_input_witness :
  returns (RRSchedule "Round-robin" [process 1 2 0 0; process 2 10 0 0])
          (fun run => Forall (fun s => from_input [process 1 2 0 0; process 2 10 0 0] (PID s))
                             (gantt (report run))).
Proof.
  apply (proj2 (timelines_bear_ids_of_the_input 0 "Round-robin"
                  [process 1 2 0 0; process 2 10 0 0])).
  discriminate.
Defined.

(** X14.  The tables of [SJFSchedule], [SJFPrioritySchedule] and
    [RRSchedule] begin with as many blank rows as there are processes:
    the rows [make] created, which [append] never fills.  One row per
    slice of the timeline follows, in the order of the timeline, with the
    id of the slice and its stop as exit. *)
Theorem tables_begin_with_blank_rows (cap : nat) (ttl : string) (ps : list Process) :
  Forall (fun scheduler : list Process -> Outcome Run =>
            returns (scheduler ps)
                    (fun run => exists rows,
                       schedule (report run) = replicate (length ps) blank_row ++ rows /\
                       Forall2 row_of_slice rows (gantt (report run))))
         [SJFSchedule ttl; SJFPrioritySchedule cap ttl] /\
  (ps <> [] ->
   returns (RRSchedule ttl ps)
           (fun run => exists rows,
              schedule (report run) = replicate (length ps) blank_row ++ rows /\
              Forall2 row_of_slice rows (gantt (report run)))).
Proof.
  pose proof (input_bears_its_ids ps) as Hps. split; [repeat constructor|].
  - eapply returns_weaken; [apply SJF_returns_shape, Hps|]. intros run H. apply H.
  - eapply returns_weaken; [apply Priority_returns_shape, Hps|]. intros run H. apply H.
  - intros Hne.
    eapply returns_weaken; [apply RR_returns_shape; [exact Hne | exact Hps]|].
    intros run H. apply H.
Qed.

Lemma tables_begin_with_blank_rows_witness :
  returns (RRSchedule "Round-robin" [process 1 2 0 0; process 2 10 0 0])
          (fun run => exists rows,
             schedule (report run)
             = replicate (length [process 1 2 0 0; process 2 10 0 0]) blank_row ++ rows /\
             Forall2 row_of_slice rows (gantt (report run))).
Proof.
  apply (proj2 (tables_begin_with_blank_rows 0 "Round-robin"
                  [process 1 2 0 0; process 2 10 0 0])).
  discriminate.
Defined.

(** X15.  The timelines of [SJFPrioritySchedule] and [RRSchedule] have no
    gap and no overlap: the first slice starts at 0 and every other slice
    starts where the slice before it stopped, whatever the arrival
    times. *)
Theorem priority_and_RR_timelines_have_no_gaps (cap : nat) (ttl : string) (ps : list Process) :
  returns (SJFPrioritySchedule cap ttl ps)
          (fun run => exists stop, chained 0 (gantt (report run)) stop) /\
  (ps <> [] ->
   returns (RRSchedule ttl ps)
           (fun run => exists stop, chained 0 (gantt (report run)) stop)).
Proof.
  pose proof (input_bears_its_ids ps) as Hps. split.
  - eapply returns_weaken; [apply Priority_returns_shape, Hps|]. intros run H. apply H.
  - intros Hne.
    eapply returns_weaken; [apply RR_returns_shape; [exact Hne | exact Hps]|].
    intros run H. apply H.
Qed.

Lemma priority_and_RR_timelines_have_no_gaps_witness :
  returns (RRSchedule "Round-robin" [process 1 2 0 0; process 2 10 3 0])
          (fun run => exists stop, chained 0 (gantt (report run)) stop).
Proof.
  apply (proj2 (priority_and_RR_timelines_have_no_gaps 0 "Round-robin"
                  [process 1 2 0 0; process 2 10 3 0])).
  discriminate.
Defined.

(** X16.  [RRSchedule] emits one slice for every process whose burst is
    the quantum (the least burst) and two for every other process. *)
Theorem RR_slices_counted (ttl : string) (ps : list Process) :
  ps <> [] ->
  returns (RRSchedule ttl ps)
          (fun run => exists q, least_burst ps q /\
                                length (gantt (report run))
                                = (length ps
                                   + length (filter (fun p => BurstDuration p <> q) ps))%nat).
Proof.
  intros Hne. eapply returns_weaken; [apply (RR_returns_shape (fun _ => True)); [exact Hne|]|].
  - apply Forall_forall. intros; exact I.
  - intros run H. apply H.
Qed.

Lemma RR_slices_counted_witness :
  returns (RRSchedule "Round-robin" [process 1 2 0 0; process 2 10 0 0; process 3 2 0 0])
          (fun run => exists q,
             least_burst [process 1 2 0 0; process 2 10 0 0; process 3 2 0 0] q /\
             length (gantt (report run))
             = (length [process 1 2 0 0; process 2 10 0 0; process 3 2 0 0]
                + length (filter (fun p => BurstDuration p <> q)
                            [process 1 2 0 0; process 2 10 0 0; process 3 2 0 0]))%nat).
Proof.
  apply (RR_slices_counted "Round-robin"
           [process 1 2 0 0; process 2 10 0 0; process 3 2 0 0]).
  discriminate.
Defined.

(** ** The sort of shortest-job-first *)

Lemma SJF_less_asym (a b : Process) : SJF_less a b = true -> SJF_less b a = false.
Proof.
  unfold SJF_less.
  destruct (Z.eqb_spec (ArrivalTime a) (ArrivalTime b)), (Z.eqb_spec (ArrivalTime b) (ArrivalTime a));
    try congruence; intros H; apply Z.ltb_lt in H; apply Z.ltb_ge; lia.
Qed.

Lemma SJF_less_trans (a b c : Process) :
  SJF_less b a = false -> SJF_less c b = false -> SJF_less c a = false.
Proof.
  unfold SJF_less.
  destruct (Z.eqb_spec (ArrivalTime b) (ArrivalTime a)), (Z.eqb_spec (ArrivalTime c) (ArrivalTime b)),
           (Z.eqb_spec (ArrivalTime c) (ArrivalTime a));
    intros H1 H2; apply Z.ltb_ge in H1, H2; apply Z.ltb_ge; lia.
Qed.

Lemma stable_insert_sorted (x : Process) (s : list Process) :
  SJF_sorted s -> SJF_sorted (stable_insert SJF_less x s).
Proof.
  induction s as [|y s IH]; simpl; [intros _; split; [constructor | exact I]|].
  intros [Hy Hs]. destruct (SJF_less y x) eqn:E; simpl.
  - split; [|apply IH, Hs]. apply stable_insert_Forall; [apply SJF_less_asym, E | exact Hy].
  - split; [|split; assumption]. constructor; [exact E|].
    eapply Forall_impl; [exact Hy|]. simpl. intros q Hq. apply (SJF_less_trans x y q); assumption.
Qed.

Lemma SliceStable_sorted (ps : list Process) : SJF_sorted (SliceStable SJF_less ps).
Proof. induction ps as [|p ps IH]; simpl; [exact I|]. apply stable_insert_sorted, IH. Qed.

(** A sorted list is left as it is. *)
Lemma SliceStable_of_sorted (ps : list Process) :
  SJF_sorted ps -> SliceStable SJF_less ps = ps.
Proof.
  induction ps as [|p ps IH]; simpl; [reflexivity|].
  intros [Hp Hps]. rewrite IH by exact Hps.
  destruct ps as [|q ps]; simpl; [reflexivity|].
  apply Forall_cons in Hp as [-> _]. reflexivity.
Qed.

(** X17.  For every list [SJFSchedule] gets to its output calls, and by
    then it has left the caller's slice a permutation of what it was,
    sorted by arrival time and then by burst; a slice that was sorted
    already is left as it was.  ([outputGantt] does not panic there when
    every id of the list prints with at most nine characters.) *)
Theorem SJF_sorts_the_callers_slice (ttl : string) (ps : list Process) :
  gets_to_output ps (SJFSchedule ttl ps)
    (fun run => processes_after run ≡ₚ ps /\
                SJF_sorted (processes_after run) /\
                (SJF_sorted ps -> processes_after run = ps)).
Proof.
  apply SJF_gets_to_output.
  eapply returns_weaken; [apply (SJF_returns_shape (fun _ => True))|].
  - apply Forall_forall. intros; exact I.
  - intros run [-> _]. split; [apply SliceStable_Permutation|].
    split; [apply SliceStable_sorted | apply SliceStable_of_sorted].
Qed.

Lemma SJF_sorts_the_callers_slice_witness :
  returns (SJFSchedule "Shortest-job-first" four_jobs)
          (fun run => processes_after run = four_jobs).
Proof.
  destruct (SJF_sorts_the_callers_slice "Shortest-job-first" four_jobs)
    as (run & E & (_ & _ & Hsame) & _).
  exists run. split; [exact E|]. apply Hsame.
  repeat constructor.
Defined.

Lemma SJF_report_served (rq : list Process) (i : nat) (t : Tally) :
  Forall (fun e => isDone e = true) rq -> (i < length rq)%nat ->
  t_gantt t = (fun e => mkTimeSlice (ProcessID e) (startingTime e) (stoppingTime e)) <$> take i rq ->
  returns (SJF_report rq i t)
          (fun t' => t_gantt t'
                     = (fun e => mkTimeSlice (ProcessID e) (startingTime e) (stoppingTime e))
                         <$> take (S i) rq).
Proof.
  intros Hdone Hi Ht. unfold SJF_report. wp. wp.
  rewrite (Forall_lookup_1 _ _ _ _ Hdone H). repeat wp. simpl.
  rewrite Ht, (take_S_r _ _ _ H), fmap_app. reflexivity.
Qed.

(** A queue of finished entries: the third branch of the loop changes
    nothing. *)
Lemma SJF_resume_done (i j : nat) (v : SJFVars) :
  (i < length (s_copyProc v))%nat -> (j < length (s_readyQueue v))%nat ->
  Forall (fun e => isDone e = true) (s_readyQueue v) ->
  SJF_resume i j v = Returned v.
Proof.
  intros Hi Hj Hdone. unfold SJF_resume.
  destruct (index_lt _ _ Hj) as (r & Hr & ->). cbn [mbind Outcome_bind].
  destruct (index_lt _ _ Hi) as (c & Hc & ->). cbn [mbind Outcome_bind].
  rewrite (Forall_lookup_1 _ _ _ _ Hdone Hr). rewrite andb_false_r. reflexivity.
Qed.

Lemma SJF_resume_loop_done (i : nat) (v : SJFVars) :
  (i < length (s_copyProc v))%nat ->
  Forall (fun e => isDone e = true) (s_readyQueue v) ->
  for_range (SJF_resume i) 0 (length (s_readyQueue v)) v = Returned v.
Proof.
  intros Hi Hdone.
  destruct (for_range_invariant (SJF_resume i) (fun _ t => t = v) (length (s_readyQueue v)) 0 v)
    as (t & E & ->); [reflexivity | | exact E].
  intros j t Hj ->. exists v. split; [|reflexivity].
  apply SJF_resume_done; [exact Hi | lia | exact Hdone].
Qed.

Lemma at_zero_take_S (sorted : list Process) (i : nat) (c : Process) :
  sorted !! i = Some c ->
  at_zero (take (S i) sorted)
  = at_zero (take i sorted) ++ (if ArrivalTime c =? 0 then [c] else []).
Proof.
  intros Hc. unfold at_zero. rewrite (take_S_r _ _ _ Hc), filter_app. f_equal.
  rewrite filter_cons, filter_nil.
  destruct (Z.eqb_spec (ArrivalTime c) 0) as [E | E];
    [rewrite decide_True by exact E | rewrite decide_False by exact E]; reflexivity.
Qed.

Lemma SJF_served_done (l : list Process) : Forall (fun e => isDone e = true) (SJF_served <$> l).
Proof. apply Forall_fmap, Forall_forall. intros; reflexivity. Qed.

Ltac to_sorted :=
  repeat match goal with
         | Hrest : forall j, _ -> s_copyProc ?v !! j = _, H : s_copyProc ?v !! _ = Some _ |- _ =>
             rewrite Hrest in H by lia
         end.

Ltac same_as c :=
  repeat match goal with
         | H : ?l !! ?i = Some ?c', Hc : ?l !! ?i = Some c |- _ =>
             tryif constr_eq c' c then fail else (assert (c' = c) as -> by congruence)
         end.

(** Without preemption an iteration serves the process if it arrives at 0
    and skips it otherwise. *)
Lemma SJF_body_without_preemption (sorted : list Process) (i : nat) (v : SJFVars) :
  Forall (fun p => isDone p = false) sorted ->
  never_preempted sorted ->
  (i < length sorted)%nat ->
  length (s_copyProc v) = length sorted /\
  (forall j, (i <= j)%nat -> s_copyProc v !! j = sorted !! j) /\
  s_readyQueue v = SJF_served <$> at_zero (take i sorted) ->
  returns (SJF_body i v)
          (fun v' => length (s_copyProc v') = length sorted /\
                     (forall j, (S i <= j)%nat -> s_copyProc v' !! j = sorted !! j) /\
                     s_readyQueue v' = SJF_served <$> at_zero (take (S i) sorted)).
Proof.
  intros Hfresh Hnever Hi (Hlen & Hrest & Hrq). unfold SJF_body. wp. wp.
  rename x into c, H into Hc. rewrite Hrest in Hc by lia.
  rewrite (Forall_lookup_1 _ _ _ _ Hfresh Hc). cbn [negb]. rewrite andb_true_r.
  rewrite (at_zero_take_S _ _ _ Hc).
  destruct (Z.eqb_spec (ArrivalTime c) 0) as [Ha | Ha].
  - repeat wp. simpl. split; [lengths|]. split.
    + intros j Hj. rewrite list_lookup_insert_ne by lia. apply Hrest. lia.
    + rewrite Hrq, fmap_app. reflexivity.
  - rewrite app_nil_r.
    assert (returns (for_range (SJF_resume i) 0 (length (s_readyQueue v)) v)
              (fun v' => length (s_copyProc v') = length sorted /\
                         (forall j, (S i <= j)%nat -> s_copyProc v' !! j = sorted !! j) /\
                         s_readyQueue v' = SJF_served <$> at_zero (take i sorted))) as Hloop.
    { rewrite SJF_resume_loop_done; [|lia | rewrite Hrq; apply SJF_served_done].
      apply returns_ret. split; [exact Hlen|]. split; [|exact Hrq].
      intros j Hj. apply Hrest. lia. }
    wp. wp.
    + wp. wp. wp. wp. wp.
      to_sorted. same_as c.
      replace (i + 1)%nat with (S i) in H by lia.
      pose proof (Hnever i c x Hc H Ha) as Hle.
      destruct (Z.ltb_spec (BurstDuration x) (BurstDuration c)); [lia|].
      wp. wp. to_sorted. same_as c.
      rewrite (Forall_lookup_1 _ _ _ _ Hfresh Hc). exact Hloop.
    + wp. wp. wp. to_sorted. same_as c.
      rewrite (Forall_lookup_1 _ _ _ _ Hfresh Hc). exact Hloop.
Qed.

(** X18.  When no process that does not arrive at time 0 is followed in
    the sorted slice by a shorter process (and none is marked done, as
    after loading), the timeline of [SJFSchedule] has exactly one slice for
    each process that arrives at 0, in sorted order, from 0 to its burst:
    the slices all start at 0, and a process that arrives later gets no
    slice.
    In particular, when every process arrives at 0 each gets one slice,
    in the order of the bursts. *)
Theorem SJF_unpreempted_late_arrivals_get_no_slice (ttl : string) (ps : list Process) :
  Forall (fun p => isDone p = false) ps ->
  never_preempted (SliceStable SJF_less ps) ->
  returns (SJFSchedule ttl ps)
          (fun run => gantt (report run) = SJF_slice <$> at_zero (SliceStable SJF_less ps)).
Proof.
  intros Hfresh Hnever. apply (SliceStable_Forall _ SJF_less) in Hfresh.
  unfold SJFSchedule. wp.
  apply (returns_for_range _
           (fun i v => length (s_copyProc v) = length (SliceStable SJF_less ps) /\
                       (forall j, (i <= j)%nat ->
                                  s_copyProc v !! j = SliceStable SJF_less ps !! j) /\
                       s_readyQueue v
                       = SJF_served <$> at_zero (take i (SliceStable SJF_less ps)))).
  - simpl. auto.
  - intros i v Hi Hv. apply SJF_body_without_preemption; [exact Hfresh | exact Hnever | lia | exact Hv].
  - intros v (_ & _ & Hrq). wp. simpl in Hrq. rewrite firstn_all in Hrq.
    apply (returns_for_range _
             (fun i t => t_gantt t
                         = (fun e => mkTimeSlice (ProcessID e) (startingTime e) (stoppingTime e))
                             <$> take i (s_readyQueue v))).
    + reflexivity.
    + intros i t Hi Ht. apply SJF_report_served; [|lia | exact Ht].
      rewrite Hrq. apply SJF_served_done.
    + intros t Ht. wp. simpl in *. rewrite Ht, firstn_all, Hrq, <- list_fmap_compose.
      apply Forall_fmap_ext_1, Forall_forall. intros p Hp.
      apply list_elem_of_filter in Hp as [Ha _]. unfold SJF_slice. simpl. rewrite Ha. reflexivity.
Qed.

(** Processes 3 and 1 arrive at 0; process 2 arrives at 1 and is not
    served. *)
Lemma SJF_unpreempted_late_arrivals_get_no_slice_witness :
  returns (SJFSchedule "Shortest-job-first" [process 1 5 0 0; process 2 6 1 0; process 3 2 0 0])
          (fun run => gantt (report run)
                      = SJF_slice <$> at_zero (SliceStable SJF_less
                                                 [process 1 5 0 0; process 2 6 1 0; process 3 2 0 0])).
Proof.
  apply (SJF_unpreempted_late_arrivals_get_no_slice "Shortest-job-first"
           [process 1 5 0 0; process 2 6 1 0; process 3 2 0 0]).
  - repeat constructor.
  - intros [|[|[|i]]] p q Hp Hq Ha; simpl in *; try discriminate;
      injection Hp as <-; injection Hq as <-; simpl in *; lia.
Defined.

(** ** Priority when the arrival order is the priority order *)

Lemma stable_insert_in_priority_order (x : Process) (s : list Process) :
  in_priority_order s -> in_priority_order (stable_insert by_priority x s).
Proof.
  induction s as [|y s IH]; intros Hs; simpl; [split; constructor|].
  destruct Hs as [Hy Hs]. unfold by_priority at 1.
  destruct (Z.ltb_spec (Priority y) (Priority x)) as [Hlt | Hge].
  - split; [|apply IH, Hs].
    rewrite stable_insert_Permutation. constructor; [lia | exact Hy].
  - split; [|split; assumption].
    constructor; [lia|]. eapply Forall_impl; [exact Hy|]. simpl. intros; lia.
Qed.

Lemma SliceStable_by_priority_in_order (ps : list Process) :
  in_priority_order (SliceStable by_priority ps).
Proof.
  induction ps as [|p ps IH]; simpl; [exact I|].
  apply stable_insert_in_priority_order, IH.
Qed.

Lemma in_priority_order_lookup (ps : list Process) (i j : nat) (a b : Process) :
  in_priority_order ps -> (i < j)%nat -> ps !! i = Some a -> ps !! j = Some b ->
  Priority a <= Priority b.
Proof.
  revert i j. induction ps as [|p ps IH]; intros i j Hps Hij Ha Hb; [discriminate|].
  destruct Hps as [Hp Hps]. destruct i as [|i], j as [|j]; simpl in *; try lia.
  - injection Ha as ->. apply (Forall_lookup_1 _ _ _ _ Hp Hb).
  - apply (IH i j); [assumption | lia | assumption..].
Qed.

(** The first loop finds every process in its place and no two out of
    order: it changes nothing but [totalBurst]. *)
Lemma Priority_body_in_order (cap : nat) (cp : list Process) (i : nat) (v : PriorityVars) :
  in_priority_order cp -> (i < length cp)%nat ->
  p_copyProc v = cp /\ p_ranged v = None ->
  returns (Priority_body cap cp i v)
          (fun r => match r with
                    | Next v' | Break v' => p_copyProc v' = cp /\ p_ranged v' = None
                    end).
Proof.
  intros Hcp Hi [Hc Hr]. unfold Priority_body. rewrite Hr, Hc. cbn [default].
  wp. wp. wp. wp. cbn [p_copyProc]. wp. wp.
  assert (returns
            (Priority_swap i
               {| p_copyProc := cp; p_ranged := None; p_readyQueue := p_readyQueue v;
                  p_totalBurst := add64 (p_totalBurst v) (BurstDuration x0);
                  p_currBurst := p_currBurst v |})
            (fun r => match r with
                      | Next v' | Break v' => p_copyProc v' = cp /\ p_ranged v' = None
                      end)) as Hswap.
  { unfold Priority_swap. cbn [p_copyProc]. wp. wp.
    - wp. wp. wp. wp. wp.
      match goal with
      | Ha : cp !! (i + 1)%nat = Some ?a, Hb : cp !! (i + 2)%nat = Some ?b |- _ =>
          pose proof (in_priority_order_lookup cp (i + 1) (i + 2) a b Hcp ltac:(lia) Ha Hb)
      end.
      match goal with
      | |- context [Priority ?b <? Priority ?a] =>
          destruct (Z.ltb_spec (Priority b) (Priority a)); [lia|]
      end.
      wp. auto.
    - wp. wp. auto. }
  wp. wp.
  - wp. wp. wp. wp. wp. same_as x.
    rewrite Z.eqb_refl. exact Hswap.
  - wp. exact Hswap.
Qed.

Lemma same_id_and_burst_refl (l : list Process) : Forall2 same_id_and_burst l l.
Proof. apply Forall2_same_length_lookup_2; [reflexivity|]. intros i a b Ha Hb. assert (a = b) as -> by congruence. split; reflexivity. Qed.

Lemma same_id_and_burst_insert (l cp : list Process) (i : nat) (a b : Process) :
  Forall2 same_id_and_burst l cp -> l !! i = Some a ->
  ProcessID b = ProcessID a -> BurstDuration b = BurstDuration a ->
  Forall2 same_id_and_burst (<[i := b]> l) cp.
Proof.
  intros Hl Ha Hid Hb.
  destruct (Forall2_lookup_l _ _ _ _ _ Hl Ha) as (c & Hc & Hac).
  rewrite <- (list_insert_id cp i c Hc). apply Forall2_insert; [exact Hl|].
  destruct Hac. split; congruence.
Qed.

(** The second loop writes [isDone] only. *)
Lemma mark_last_same (cp : list Process) (pid : Z) (k : nat) (copyProc : list Process) :
  (k < length copyProc)%nat \/ k = 0%nat -> Forall2 same_id_and_burst copyProc cp ->
  returns (mark_last pid k copyProc) (fun c => Forall2 same_id_and_burst c cp).
Proof.
  induction k as [|k IH]; intros Hk Hc; simpl.
  - wp. exact Hc.
  - repeat wp.
    + eapply same_id_and_burst_insert; [exact Hc | eassumption | reflexivity..].
    + apply IH; [lia | exact Hc].
Qed.

Lemma Priority_mark_same (cp ps : list Process) (i : nat) (s : list Process * Z) :
  (i < length ps)%nat -> Forall2 same_id_and_burst s.1 cp ->
  returns (Priority_mark ps i s) (fun s' => Forall2 same_id_and_burst s'.1 cp).
Proof.
  intros Hi Hc. unfold Priority_mark. destruct s as [copyProc totalBurst]. simpl in *.
  repeat wp; simpl; auto.
  apply (returns_weaken _ (fun c => Forall2 same_id_and_burst c cp)).
  - apply mark_last_same; [lia | exact Hc].
  - intros c Hc'. wp. exact Hc'.
Qed.

Lemma same_id_and_burst_written (l cp : list Process) (i : nat) (b e : Process) :
  Forall2 same_id_and_burst l cp -> cp !! i = Some e -> same_id_and_burst b e ->
  Forall2 same_id_and_burst (<[i := b]> l) cp.
Proof.
  intros Hl He Hb. rewrite <- (list_insert_id cp i e He). apply Forall2_insert; assumption.
Qed.

Ltac same_element :=
  unfold same_id_and_burst in *; simpl;
  repeat match goal with
         | H : _ /\ _ |- _ => destruct H
         end;
  split; congruence.

Ltac same_list :=
  lazymatch goal with
  | |- Forall2 same_id_and_burst (<[_ := _]> _) _ =>
      eapply same_id_and_burst_written; [same_list | eassumption | same_element]
  | |- _ => eassumption
  end.

Ltac one_entry cp :=
  repeat match goal with
         | H1 : cp !! ?j = Some ?a, H2 : cp !! ?j = Some ?b |- _ =>
             tryif constr_eq a b then fail
             else (assert (b = a) as -> by congruence; clear H2)
         end.

Ltac derive_same cp :=
  repeat match goal with
         | H : ?L !! ?j = Some ?x |- _ =>
             lazymatch L with
             | cp => fail
             | _ =>
                 lazymatch goal with
                 | _ : same_id_and_burst x _ |- _ => fail
                 | _ =>
                     let e := fresh "e" in
                     let He := fresh "He" in
                     let Hx := fresh "Hx" in
                     assert (exists e, cp !! j = Some e /\ same_id_and_burst x e)
                       as (e & He & Hx)
                       by (eapply Forall2_lookup_l; [|exact H]; same_list);
                     one_entry cp
                 end
             end
         end.

(** The third loop writes waits and times; the slice of an entry starts at
    [serviceTime] and lasts for its burst. *)
Lemma Priority_report_serves (cp : list Process) (i : nat) (v : PriorityReport) :
  (i < length cp)%nat -> PriorityReport_serves cp i v ->
  returns (Priority_report i v) (PriorityReport_serves cp (S i)).
Proof.
  intros Hi (Hc & Hs & Hg). pose proof (Forall2_length _ _ _ Hc) as Hlen.
  destruct (lookup_lt_is_Some_2 cp i Hi) as [e He].
  unfold Priority_report. repeat wp.
  all: derive_same cp.
  all: lookup_inserted.
  all: unfold PriorityReport_serves; cbn [r_copyProc r_tally r_serviceTime t_gantt].
  all: rewrite (take_S_r _ _ _ He), service64_snoc, back_to_back_snoc, <- Hs, Hg.
  all: split; [same_list|].
  all: simpl.
  all: repeat match goal with
              | H : same_id_and_burst _ _ |- _ => destruct H
              end.
  all: simpl in *.
  all: split; [congruence|].
  all: f_equal; f_equal; f_equal; congruence.
Qed.

(** X22.  When sorting the list by priority gives the same list as sorting
    it by arrival time, [SJFPrioritySchedule] (for every capacity of its
    copy) serves the processes in that order, one slice each, back to back
    from time 0 and each for its whole burst (in int64 arithmetic); it
    does not wait for a process to arrive. *)
Theorem Priority_serves_in_arrival_order_when_priorities_agree (cap : nat) (ttl : string)
    (ps : list Process) :
  SliceStable by_priority ps = SliceStable by_arrival ps ->
  returns (SJFPrioritySchedule cap ttl ps)
          (fun run => gantt (report run) = back_to_back 0 (SliceStable by_arrival ps)).
Proof.
  intros Hagree. unfold SJFPrioritySchedule. rewrite Hagree.
  set (cp := SliceStable by_arrival ps).
  assert (in_priority_order cp) as Hcp
    by (unfold cp; rewrite <- Hagree; apply SliceStable_by_priority_in_order).
  wp.
  apply (returns_for_range_break _ (fun v => p_copyProc v = cp /\ p_ranged v = None)).
  - auto.
  - intros i v Hi Hv. apply Priority_body_in_order; [exact Hcp | lia | exact Hv].
  - intros v [Hc _]. wp. rewrite Hc.
    apply (returns_for_range _ (fun _ s => Forall2 same_id_and_burst s.1 cp)).
    + apply same_id_and_burst_refl.
    + intros i s Hi Hs. apply Priority_mark_same; [lia | exact Hs].
    + intros [copyProc totalBurst] Hsame. simpl in Hsame. wp.
      rewrite (Forall2_length _ _ _ Hsame).
      apply (returns_for_range _ (PriorityReport_serves cp)).
      * split; [exact Hsame|]. split; reflexivity.
      * intros i r Hi Hr. apply Priority_report_serves; [lia | exact Hr].
      * intros r (_ & _ & Hg). wp. simpl in *. rewrite Hg, firstn_all. reflexivity.
Qed.

Lemma Priority_serves_in_arrival_order_when_priorities_agree_witness :
  returns (SJFPrioritySchedule 3 "Priority" [process 1 5 0 1; process 2 3 4 3; process 3 2 1 2])
          (fun run => gantt (report run)
                      = back_to_back 0 (SliceStable by_arrival
                                          [process 1 5 0 1; process 2 3 4 3; process 3 2 1 2])).
Proof.
  apply (Priority_serves_in_arrival_order_when_priorities_agree 3 "Priority"
           [process 1 5 0 1; process 2 3 4 3; process 3 2 1 2]).
  reflexivity.
Defined.

(** ** main *)

(** The first two schedulers get the list as loaded, the last two the list
    as [SJFSchedule] sorted it. *)
Lemma run_schedulers_on_sorted (cap : nat -> nat) (ps : list Process) :
  run_schedulers cap ps
  = (fcfs ← FCFSSchedule "First-come, first-serve" ps;
     sjf ← SJFSchedule "Shortest-job-first" ps;
     priority ← SJFPrioritySchedule (cap (length ps)) "Priority" (SliceStable SJF_less ps);
     rr ← RRSchedule "Round-robin" (SliceStable SJF_less ps);
     mret [report fcfs; report sjf; report priority; report rr]).
Proof.
  unfold run_schedulers.
  destruct (FCFS_returns_shape "First-come, first-serve" ps) as (fcfs & -> & Hf & _).
  cbn [mbind Outcome_bind]. rewrite Hf.
  destruct (SJF_returns_shape (fun _ => True) "Shortest-job-first" ps) as (sjf & -> & Hs & _).
  { apply Forall_forall. intros; exact I. }
  cbn [mbind Outcome_bind]. rewrite Hs, length_SliceStable.
  destruct (Priority_returns_shape (fun _ => True) (cap (length ps)) "Priority"
              (SliceStable SJF_less ps)) as (priority & -> & Hp & _).
  { apply Forall_forall. intros; exact I. }
  cbn [mbind Outcome_bind]. rewrite Hp. reflexivity.
Qed.

(** X19.  On a list that is not empty and whose ids all print with at most
    nine characters, each of the four calls of [main] gets to its output
    calls, where neither [outputTitle] nor [outputGantt] panics, and the
    reports are those of [FCFSSchedule] and [SJFSchedule] on the list as
    loaded and of [SJFPrioritySchedule] and [RRSchedule] on the list as
    [SJFSchedule] sorted it in place. *)
Theorem main_runs_priority_and_RR_on_the_sorted_slice (cap : nat -> nat) (ps : list Process) :
  ps <> [] -> short_ids ps ->
  exists fcfs sjf priority rr,
    FCFSSchedule "First-come, first-serve" ps = Returned fcfs /\
    SJFSchedule "Shortest-job-first" ps = Returned sjf /\
    SJFPrioritySchedule (cap (length ps)) "Priority" (SliceStable SJF_less ps)
    = Returned priority /\
    RRSchedule "Round-robin" (SliceStable SJF_less ps) = Returned rr /\
    run_schedulers cap ps = Returned [report fcfs; report sjf; report priority; report rr] /\
    Forall (fun r => panicked (outputTitle (title r)) = false /\
                     panicked (outputGantt (gantt r)) = false)
           [report fcfs; report sjf; report priority; report rr].
Proof.
  intros Hne Hps. rewrite run_schedulers_on_sorted.
  pose proof (short_ids_sorted SJF_less ps Hps) as Hsorted.
  pose proof (SliceStable_not_empty SJF_less ps Hne) as Hne'.
  assert (forall l : list Process, Forall (bears (fun _ => True)) l) as Hall
    by (intros l; apply Forall_forall; intros; exact I).
  destruct (FCFS_gets_to_output "First-come, first-serve" ps (fun _ => True))
    as (fcfs & -> & _ & Hft & Hfg).
  { eapply returns_weaken; [apply FCFS_returns_shape | auto]. }
  destruct (SJF_gets_to_output "Shortest-job-first" ps (fun _ => True))
    as (sjf & -> & _ & Hst & Hsg).
  { eapply returns_weaken; [apply (SJF_returns_shape _ _ _ (Hall _)) | auto]. }
  destruct (Priority_gets_to_output (cap (length ps)) "Priority" (SliceStable SJF_less ps)
              (fun _ => True)) as (priority & -> & _ & Hpt & Hpg).
  { eapply returns_weaken; [apply (Priority_returns_shape _ _ _ _ (Hall _)) | auto]. }
  destruct (RR_gets_to_output "Round-robin" (SliceStable SJF_less ps) (fun _ => True))
    as (rr & -> & _ & Hrt & Hrg).
  { eapply returns_weaken; [apply (RR_returns_shape _ _ _ Hne' (Hall _)) | auto]. }
  eexists _, _, _, _. repeat (split; [reflexivity|]).
  repeat (apply Forall_cons; split; [split; auto|]). apply Forall_nil_2.
Qed.

Lemma main_runs_priority_and_RR_on_the_sorted_slice_witness :
  exists fcfs sjf priority rr,
    FCFSSchedule "First-come, first-serve" [process 1 5 3 0; process 2 2 0 0] = Returned fcfs /\
    SJFSchedule "Shortest-job-first" [process 1 5 3 0; process 2 2 0 0] = Returned sjf /\
    SJFPrioritySchedule (id (length [process 1 5 3 0; process 2 2 0 0])) "Priority"
      (SliceStable SJF_less [process 1 5 3 0; process 2 2 0 0])
    = Returned priority /\
    RRSchedule "Round-robin" (SliceStable SJF_less [process 1 5 3 0; process 2 2 0 0])
    = Returned rr /\
    run_schedulers id [process 1 5 3 0; process 2 2 0 0]
    = Returned [report fcfs; report sjf; report priority; report rr] /\
    Forall (fun r => panicked (outputTitle (title r)) = false /\
                     panicked (outputGantt (gantt r)) = false)
           [report fcfs; report sjf; report priority; report rr].
Proof.
  apply (main_runs_priority_and_RR_on_the_sorted_slice id [process 1 5 3 0; process 2 2 0 0]).
  - discriminate.
  - repeat constructor; unfold long_id; simpl; lia.
Defined.

(** X20.  On a list that is not empty and whose ids all print with at most
    nine characters (ids above -10^8 and below 10^9), the four calls of
    [main] return and [outputGantt] draws each of the four timelines
    without a panic. *)
Theorem charts_are_drawn_for_short_ids (cap : nat -> nat) (ps : list Process) :
  ps <> [] -> Forall (fun p => ~ long_id (ProcessID p)) ps ->
  returns (run_schedulers cap ps)
          (fun reports => length reports = 4%nat /\
                          Forall (fun r => panicked (outputGantt (gantt r)) = false) reports).
Proof.
  intros Hne Hps. rewrite run_schedulers_on_sorted.
  pose proof (SliceStable_Forall _ SJF_less _ Hps) as Hsorted.
  set (P := fun id => ~ long_id id).
  destruct (FCFS_returns_ids P "First-come, first-serve" ps Hps) as (fcfs & -> & _ & Hf).
  destruct (SJF_returns_shape P "Shortest-job-first" ps Hps) as (sjf & -> & _ & _ & Hs).
  destruct (Priority_returns_shape P (cap (length ps)) "Priority" _ Hsorted)
    as (priority & -> & _ & [_ Hp] & _).
  destruct (RR_returns_shape P "Round-robin" _ (SliceStable_not_empty SJF_less ps Hne) Hsorted)
    as (rr & -> & _ & [_ Hr] & _).
  eexists. split; [reflexivity|]. split; [reflexivity|].
  repeat constructor; apply short_ids_are_drawn; assumption.
Qed.

Lemma charts_are_drawn_for_short_ids_witness :
  returns (run_schedulers id four_jobs)
          (fun reports => length reports = 4%nat /\
                          Forall (fun r => panicked (outputGantt (gantt r)) = false) reports).
Proof.
  apply (charts_are_drawn_for_short_ids id four_jobs).
  - discriminate.
  - repeat constructor; unfold long_id; simpl; lia.
Defined.

(** X21.  If some process of the list has an id that prints with ten
    characters or more, [FCFSSchedule], the first scheduler [main] calls,
    gets as far as its output and [outputGantt] panics on its timeline. *)
Theorem chart_panics_for_a_long_id (ttl : string) (ps : list Process) (p : Process) :
  p ∈ ps -> long_id (ProcessID p) ->
  returns (FCFSSchedule ttl ps)
          (fun run => panicked (outputGantt (gantt (report run))) = true).
Proof.
  intros Hp Hlong. eapply returns_weaken; [apply FCFS_returns_shape|].
  intros run (_ & v & (_ & _ & _ & _ & Hall) & -> & _).
  apply list_elem_of_lookup in Hp as [i Hi].
  destruct (Hall i p (lookup_lt_Some _ _ _ Hi) Hi) as (wait & Hs & _).
  rewrite outputGantt_panicked. apply gantt_cells_panicked, Exists_exists.
  eexists. split; [apply (list_elem_of_lookup_2 _ i), Hs | exact Hlong].
Qed.

Lemma chart_panics_for_a_long_id_witness :
  returns (FCFSSchedule "First-come, first-serve" [process 1 5 0 0; process 1234567890 3 0 0])
          (fun run => panicked (outputGantt (gantt (report run))) = true).
Proof.
  apply (chart_panics_for_a_long_id "First-come, first-serve"
           [process 1 5 0 0; process 1234567890 3 0 0] (process 1234567890 3 0 0)).
  - apply list_elem_of_lookup. exists 1%nat. reflexivity.
  - right. simpl. lia.
Defined.

(** ** The burst a row shows *)

Lemma table_row_of_part (e p : Process) (wait completion : Z) :
  ProcessID e = ProcessID p ->
  row_of_part p (BurstDuration e)
    (table_row e wait (add64 (BurstDuration e) wait) completion).
Proof.
  intros Hid. split; [unfold row_id, table_row; simpl; congruence|].
  split; [reflexivity|]. exists wait. auto.
Qed.

(** First-come-first-serve: row [i] is that of process [i]. *)
Lemma FCFS_rows_of_processes (ttl : string) (ps : list Process) :
  returns (FCFSSchedule ttl ps)
          (fun run => Forall2 row_of_process ps (schedule (report run))).
Proof.
  eapply returns_weaken; [apply FCFS_returns_shape|].
  intros run (_ & v & (_ & Hlen & _ & _ & Hall) & _ & ->).
  apply Forall2_same_length_lookup_2; [symmetry; exact Hlen|].
  intros i p row Hp Hrow.
  destruct (Hall i p (lookup_lt_Some _ _ _ Hp) Hp) as (wait & _ & Hri & _).
  rewrite Hri in Hrow. injection Hrow as <-. apply table_row_of_part. reflexivity.
Qed.

(** Shortest-job-first without preemption: one row per process served,
    with the burst of its descriptor. *)
Lemma SJF_report_rows (rq : list Process) (rows0 : list Row) (i : nat) (t : Tally) :
  Forall (fun e => isDone e = true) rq -> (i < length rq)%nat ->
  t_schedule t
  = rows0 ++ ((fun e => table_row e (totalWait e) (add64 (BurstDuration e) (totalWait e))
                          (stoppingTime e)) <$> take i rq) ->
  returns (SJF_report rq i t)
          (fun t' => t_schedule t'
                     = rows0 ++ ((fun e => table_row e (totalWait e)
                                             (add64 (BurstDuration e) (totalWait e))
                                             (stoppingTime e)) <$> take (S i) rq)).
Proof.
  intros Hdone Hi Ht. unfold SJF_report. wp. wp.
  rewrite (Forall_lookup_1 _ _ _ _ Hdone H). repeat wp. simpl.
  rewrite Ht, (take_S_r _ _ _ H), fmap_app, app_assoc. reflexivity.
Qed.

Lemma SJF_rows_without_preemption (ttl : string) (ps : list Process) :
  Forall (fun p => isDone p = false) ps ->
  never_preempted (SliceStable SJF_less ps) ->
  returns (SJFSchedule ttl ps)
          (fun run => exists rows,
             schedule (report run) = replicate (length ps) blank_row ++ rows /\
             Forall2 row_of_process (at_zero (SliceStable SJF_less ps)) rows).
Proof.
  intros Hfresh Hnever. apply (SliceStable_Forall _ SJF_less) in Hfresh.
  unfold SJFSchedule. wp.
  apply (returns_for_range _
           (fun i v => length (s_copyProc v) = length (SliceStable SJF_less ps) /\
                       (forall j, (i <= j)%nat ->
                                  s_copyProc v !! j = SliceStable SJF_less ps !! j) /\
                       s_readyQueue v
                       = SJF_served <$> at_zero (take i (SliceStable SJF_less ps)))).
  - simpl. auto.
  - intros i v Hi Hv.
    apply SJF_body_without_preemption; [exact Hfresh | exact Hnever | lia | exact Hv].
  - intros v (_ & _ & Hrq). wp. simpl in Hrq. rewrite firstn_all in Hrq.
    apply (returns_for_range _
             (fun i t => t_schedule t
                         = replicate (length ps) blank_row
                           ++ ((fun e => table_row e (totalWait e)
                                           (add64 (BurstDuration e) (totalWait e))
                                           (stoppingTime e)) <$> take i (s_readyQueue v)))).
    + simpl. rewrite length_SliceStable, app_nil_r. reflexivity.
    + intros i t Hi Ht. apply SJF_report_rows; [|lia | exact Ht].
      rewrite Hrq. apply SJF_served_done.
    + intros t Ht. wp. simpl in *. eexists. split; [exact Ht|].
      rewrite firstn_all, Hrq, <- list_fmap_compose.
      apply Forall2_fmap_r, Forall2_same_length_lookup_2; [reflexivity|].
      intros i p q Hp Hq. assert (q = p) as -> by congruence.
      apply (table_row_of_part (SJF_served p) p). reflexivity.
Qed.

Lemma table_row_of_process (c e : Process) (wait completion : Z) :
  same_id_and_burst c e ->
  row_of_process e (table_row c wait (add64 (BurstDuration c) wait) completion).
Proof.
  intros [Hid Hb]. unfold row_of_process. rewrite <- Hb. apply table_row_of_part, Hid.
Qed.

(** The third loop of [SJFPrioritySchedule] prints the burst of the entry,
    which the loops before it have not changed. *)
Lemma Priority_report_rows (cp : list Process) (n i : nat) (v : PriorityReport) :
  (i < length cp)%nat -> PriorityReport_rows cp n i v ->
  returns (Priority_report i v) (PriorityReport_rows cp n (S i)).
Proof.
  intros Hi (Hc & rows & Ht & Hrows). pose proof (Forall2_length _ _ _ Hc) as Hlen.
  destruct (lookup_lt_is_Some_2 cp i Hi) as [e He].
  unfold Priority_report. repeat wp.
  all: derive_same cp.
  all: lookup_inserted.
  all: unfold PriorityReport_rows; cbn [r_copyProc r_tally t_schedule].
  all: split; [same_list|].
  all: eexists; split; [rewrite Ht, <- app_assoc; reflexivity|].
  all: rewrite (take_S_r _ _ _ He); apply Forall2_app; [exact Hrows|].
  all: constructor; [|constructor].
  all: apply table_row_of_process.
  all: same_element.
Qed.

(** Priority when the two orders agree: one row per process. *)
Lemma Priority_rows_when_orders_agree (cap : nat) (ttl : string) (ps : list Process) :
  SliceStable by_priority ps = SliceStable by_arrival ps ->
  returns (SJFPrioritySchedule cap ttl ps)
          (fun run => exists rows,
             schedule (report run) = replicate (length ps) blank_row ++ rows /\
             Forall2 row_of_process (SliceStable by_arrival ps) rows).
Proof.
  intros Hagree. unfold SJFPrioritySchedule. rewrite Hagree.
  set (cp := SliceStable by_arrival ps).
  assert (in_priority_order cp) as Hcp
    by (unfold cp; rewrite <- Hagree; apply SliceStable_by_priority_in_order).
  wp.
  apply (returns_for_range_break _ (fun v => p_copyProc v = cp /\ p_ranged v = None)).
  - auto.
  - intros i v Hi Hv. apply Priority_body_in_order; [exact Hcp | lia | exact Hv].
  - intros v [Hc _]. wp. rewrite Hc.
    apply (returns_for_range _ (fun _ s => Forall2 same_id_and_burst s.1 cp)).
    + apply same_id_and_burst_refl.
    + intros i s Hi Hs. apply Priority_mark_same; [lia | exact Hs].
    + intros [copyProc totalBurst] Hsame. simpl in Hsame. wp.
      rewrite (Forall2_length _ _ _ Hsame).
      apply (returns_for_range _ (PriorityReport_rows cp (length ps))).
      * split; [exact Hsame|]. exists []. simpl. rewrite app_nil_r. split; constructor.
      * intros i r Hi Hr. apply Priority_report_rows; [lia | exact Hr].
      * intros r (_ & rows & Ht & Hrows). wp. simpl in *. exists rows.
        rewrite firstn_all in Hrows. auto.
Qed.

(** Filtering two lists that are related element by element. *)
Lemma Forall2_filter_both {A B} (R : A -> B -> Prop) (P : A -> Prop) (Q : B -> Prop)
    `{!forall a, Decision (P a)} `{!forall b, Decision (Q b)} (l : list A) (k : list B) :
  Forall2 (fun a b => (P a <-> Q b) /\ (P a -> R a b)) l k ->
  Forall2 R (filter P l) (filter Q k).
Proof.
  induction 1 as [|a b l k [HPQ HR] _ IH]; [constructor|].
  destruct (decide (P a)) as [Ha | Ha].
  - rewrite !filter_cons_True by tauto. constructor; auto.
  - rewrite !filter_cons_False by tauto. exact IH.
Qed.

(** Round-robin: the rows of a process show its parts. *)
Lemma RR_rows_of_processes (ttl : string) (ps : list Process) :
  ps <> [] ->
  NoDup (ProcessID <$> ps) ->
  Forall (fun p => 0 < BurstDuration p) ps ->
  total_burst ps <= max_int64 ->
  returns (RRSchedule ttl ps)
          (fun run => exists q rows,
             least_burst ps q /\
             schedule (report run) = replicate (length ps) blank_row ++ rows /\
             forall p, p ∈ ps ->
                       Forall2 (row_of_part p) (RR_parts q p) (rows_of (ProcessID p) rows)).
Proof.
  intros Hne Hnodup Hpos Htotal.
  destruct (RR_core ttl ps Hne) as (run & q & Erun & Eq & Hq & _ & rows & Hrows & Hlen & Hall).
  exists run. split; [exact Erun|]. exists q, rows. split; [exact Hq|]. split; [exact Hrows|].
  intros p Hp.
  assert (Forall (fun p => 0 <= BurstDuration p) ps) as Hnonneg.
  { eapply Forall_impl; [exact Hpos|]. simpl. intros; lia. }
  assert (0 < q) as Hq0.
  { destruct Hq as [(p0 & Hp0 & <-) _]. rewrite Forall_forall in Hpos. apply Hpos, Hp0. }
  assert (Forall (fits q) ps) as Hfits.
  { apply Forall_forall. intros x Hx. split; [apply Hq, Hx|].
    pose proof (burst_le_total ps x Hnonneg Hx). lia. }
  rewrite <- (RR_queue_parts q Hq0 ps 0 [] p Hnodup Hfits) by (reflexivity || exact Hp).
  apply Forall2_fmap_l. unfold entries_of, rows_of.
  apply Forall2_filter_both, Forall2_same_length_lookup_2; [symmetry; exact Hlen|].
  intros j e row He Hrow.
  destruct (Hall j row Hrow) as (e' & wait & He' & -> & _).
  assert (e' = e) as -> by congruence.
  split.
  - unfold row_id, table_row. simpl. split; congruence.
  - simpl. intros Hid. apply table_row_of_part, Hid.
Qed.

(** Shortest-job-first and priority print cut bursts too.  On the four
    jobs shortest-job-first shows process 3 (burst 8) with bursts 0 and 8;
    priority shows process 1 (burst 5) with bursts 1 and 4. *)
Lemma SJF_and_priority_rows_show_cut_bursts :
  table (SJFSchedule "Shortest-job-first" four_jobs)
  = Returned [blank_row; blank_row; blank_row; blank_row; [1; 0; 6; 0; 0; 6; 6];
              [3; 0; 0; 2; 4; 4; 6]; [4; 0; 3; 3; 3; 6; 12]; [3; 0; 8; 2; 8; 16; 17]] /\
  table (SJFPrioritySchedule 3 "Priority" [process 1 5 0 2; process 2 3 1 1; process 3 2 2 3])
  = Returned [blank_row; blank_row; blank_row; [1; 2; 1; 0; 0; 1; 1]; [2; 1; 3; 1; 0; 3; 4];
              [1; 2; 4; 0; 3; 7; 8]; [3; 3; 2; 2; 6; 8; 10]].
Proof. split; vm_compute; reflexivity. Qed.

(** C8, amended.  Every scheduler gets to its output calls (round-robin
    on a list that is not empty), and in the table it hands over:

    - in every scheduler, every row that is not blank has its turnaround
      column equal to the int64 sum of its own burst and wait columns;
    - in first-come-first-serve, for every list, row [i] is the row of
      process [i]: it shows its id and the burst of its descriptor, and
      the turnaround is that burst plus the wait of the row;
    - in shortest-job-first, when no process is marked done and no
      process that arrives after time 0 is followed in the sorted list by
      a shorter one (no preemption), the rows after the blank ones are
      those of the processes that arrive at time 0, in sorted order, each
      with the burst of its descriptor;
    - in the priority scheduler, when sorting by priority and sorting by
      arrival give the same list, the rows after the blank ones are those
      of the processes in that order, each with the burst of its
      descriptor;
    - in round-robin, for distinct ids and positive bursts whose sum fits
      an int64, the rows of a process are one per slice, in order: one row
      with the quantum (the least burst), and for a longer burst a second
      row with the rest of it; the turnaround of each is the burst it
      shows plus its wait.

    At the output calls [outputTitle] does not panic, and [outputGantt]
    does not panic when every id of the list prints with at most nine
    characters. *)
Theorem rows_add_up_with_the_burst_they_show (cap : nat) (ttl : string) (ps : list Process) :
  Forall (fun scheduler : list Process -> Outcome Run =>
            gets_to_output ps (scheduler ps)
              (fun run => Forall turnaround_adds_up (schedule (report run))))
         [FCFSSchedule ttl; SJFSchedule ttl; SJFPrioritySchedule cap ttl] /\
  (ps <> [] ->
   gets_to_output ps (RRSchedule ttl ps)
     (fun run => Forall turnaround_adds_up (schedule (report run)))) /\
  gets_to_output ps (FCFSSchedule ttl ps)
    (fun run => Forall2 row_of_process ps (schedule (report run))) /\
  (Forall (fun p => isDone p = false) ps -> never_preempted (SliceStable SJF_less ps) ->
   gets_to_output ps (SJFSchedule ttl ps)
     (fun run => exists rows,
        schedule (report run) = replicate (length ps) blank_row ++ rows /\
        Forall2 row_of_process (at_zero (SliceStable SJF_less ps)) rows)) /\
  (SliceStable by_priority ps = SliceStable by_arrival ps ->
   gets_to_output ps (SJFPrioritySchedule cap ttl ps)
     (fun run => exists rows,
        schedule (report run) = replicate (length ps) blank_row ++ rows /\
        Forall2 row_of_process (SliceStable by_arrival ps) rows)) /\
  (ps <> [] -> NoDup (ProcessID <$> ps) -> Forall (fun p => 0 < BurstDuration p) ps ->
   total_burst ps <= max_int64 ->
   gets_to_output ps (RRSchedule ttl ps)
     (fun run => exists q rows,
        least_burst ps q /\
        schedule (report run) = replicate (length ps) blank_row ++ rows /\
        forall p, p ∈ ps ->
                  Forall2 (row_of_part p) (RR_parts q p) (rows_of (ProcessID p) rows))).
Proof.
  split; [repeat constructor|repeat split].
  - apply FCFS_gets_to_output, FCFS_rows_add_up.
  - apply SJF_gets_to_output, SJF_rows_add_up.
  - apply Priority_gets_to_output, Priority_rows_add_up.
  - intros Hne. apply RR_gets_to_output, RR_rows_add_up, Hne.
  - apply FCFS_gets_to_output, FCFS_rows_of_processes.
  - intros Hfresh Hnever. apply SJF_gets_to_output, SJF_rows_without_preemption; assumption.
  - intros Hagree. apply Priority_gets_to_output, Priority_rows_when_orders_agree, Hagree.
  - intros Hne Hnodup Hpos Htotal.
    apply RR_gets_to_output, RR_rows_of_processes; assumption.
Qed.

(** Shortest-job-first without preemption, priority with agreeing orders,
    and round-robin on the bursts 2 and 10 of the counterexample. *)
Lemma rows_add_up_with_the_burst_they_show_witness :
  gets_to_output [process 1 5 0 0; process 2 6 1 0; process 3 2 0 0]
    (SJFSchedule "Shortest-job-first" [process 1 5 0 0; process 2 6 1 0; process 3 2 0 0])
    (fun run => exists rows,
       schedule (report run) = replicate 3 blank_row ++ rows /\
       Forall2 row_of_process
         (at_zero (SliceStable SJF_less [process 1 5 0 0; process 2 6 1 0; process 3 2 0 0]))
         rows) /\
  gets_to_output [process 1 5 0 1; process 2 3 4 3; process 3 2 1 2]
    (SJFPrioritySchedule 3 "Priority" [process 1 5 0 1; process 2 3 4 3; process 3 2 1 2])
    (fun run => exists rows,
       schedule (report run) = replicate 3 blank_row ++ rows /\
       Forall2 row_of_process
         (SliceStable by_arrival [process 1 5 0 1; process 2 3 4 3; process 3 2 1 2]) rows) /\
  gets_to_output [process 1 2 0 0; process 2 10 0 0]
    (RRSchedule "Round-robin" [process 1 2 0 0; process 2 10 0 0])
    (fun run => exists q rows,
       least_burst [process 1 2 0 0; process 2 10 0 0] q /\
       schedule (report run) = replicate 2 blank_row ++ rows /\
       forall p, p ∈ [process 1 2 0 0; process 2 10 0 0] ->
                 Forall2 (row_of_part p) (RR_parts q p) (rows_of (ProcessID p) rows)).
Proof.
  split; [|split].
  - apply (proj1 (proj2 (proj2 (proj2
             (rows_add_up_with_the_burst_they_show 3 "Shortest-job-first"
                [process 1 5 0 0; process 2 6 1 0; process 3 2 0 0]))))).
    + repeat constructor.
    + intros [|[|[|i]]] p q Hp Hq Ha; simpl in *; try discriminate;
        injection Hp as <-; injection Hq as <-; simpl in *; lia.
  - apply (proj1 (proj2 (proj2 (proj2 (proj2
             (rows_add_up_with_the_burst_they_show 3 "Priority"
                [process 1 5 0 1; process 2 3 4 3; process 3 2 1 2])))))).
    reflexivity.
  - apply (proj2 (proj2 (proj2 (proj2 (proj2
             (rows_add_up_with_the_burst_they_show 3 "Round-robin"
                [process 1 2 0 0; process 2 10 0 0])))))).
    + discriminate.
    + apply (bool_decide_unpack _). vm_compute. exact I.
    + repeat constructor.
    + vm_compute. discriminate.
Defined.

(** ** Round-robin: the slices of a process *)

(** X23.  For a list that is not empty, with distinct ids and positive
    bursts whose sum fits an int64, [RRSchedule] gets to its output calls
    with a timeline in which the slices of every process add up to its
    burst.  ([outputGantt] does not panic there when every id of the list
    prints with at most nine characters.) *)
Theorem RR_slices_add_up_to_the_burst (ttl : string) (ps : list Process) :
  ps <> [] ->
  NoDup (ProcessID <$> ps) ->
  Forall (fun p => 0 < BurstDuration p) ps ->
  total_burst ps <= max_int64 ->
  gets_to_output ps (RRSchedule ttl ps)
    (fun run => forall p, p ∈ ps ->
                  time_given (ProcessID p) (gantt (report run)) = BurstDuration p).
Proof.
  intros Hne Hnodup Hpos Htotal. apply RR_gets_to_output.
  destruct (RR_slice_lengths ttl ps Hne Hnodup Hpos Htotal) as (run & q & E & _ & _ & Hparts).
  exists run. split; [exact E|]. intros p Hp.
  unfold time_given. rewrite (Hparts p Hp). unfold RR_parts.
  destruct (Z.eqb_spec (BurstDuration p) q); simpl; lia.
Qed.

(** The two processes of the counterexample to C5: bursts 2 and 10. *)
Lemma RR_slices_add_up_to_the_burst_witness :
  gets_to_output [process 1 2 0 0; process 2 10 0 0]
    (RRSchedule "Round-robin" [process 1 2 0 0; process 2 10 0 0])
    (fun run => forall p, p ∈ [process 1 2 0 0; process 2 10 0 0] ->
                  time_given (ProcessID p) (gantt (report run)) = BurstDuration p).
Proof.
  apply (RR_slices_add_up_to_the_burst "Round-robin" [process 1 2 0 0; process 2 10 0 0]).
  - discriminate.
  - apply (bool_decide_unpack _). vm_compute. exact I.
  - repeat constructor.
  - vm_compute. discriminate.
Defined.
